(** * The Hello greeter library (examples/hello/src/hello.c)

    A shallow embedding of the greeter library and of the part of the C
    library it calls, followed by the properties of its public operations.

    Conventions of the embedding.
    - A region of [char] memory is a [string]: the sequence of its bytes.
      The C string stored in a region is its prefix before the first NUL
      byte ([c_str]).  A [const char *] argument is passed as the bytes it
      points at, and its terminating NUL may be left implicit at the end, so
      that the literal ["World"] stands for the C literal of the same text.
    - A pointer that may be NULL is an [option]; [None] is NULL.
    - [size_t] values are in [N]; [int] values are in [Z] within
      [INT_MIN .. INT_MAX], and [snprintf], whose result is an [int], fails
      on a text longer than [INT_MAX].
    - The two thread-local globals, the heap and the outcomes of the
      allocation requests still to come make up the [World], which every
      operation threads through.  An operation that goes through a pointer
      that is not live has no result (undefined behaviour).

    The file has the embedding first, then the vocabulary of the
    statements, the lemmas about each function, and last the claims C1 to
    C10 of the specification. *)

From Stdlib Require Import ZArith Lia String Ascii DecimalString.
From stdpp Require Import gmap strings.

Local Open Scope string_scope.
Local Arguments String.append !_ _ / : simpl nomatch.

(** ** Bytes and C strings *)

Module CStr.

Definition NUL : ascii := Ascii.zero.

Definition is_nul (c : ascii) : bool := Ascii.eqb c NUL.

(** The first [n] bytes of a region, and the region without them. *)
Fixpoint take (n : nat) (m : string) : string :=
  match n, m with
  | S n', String c m' => String c (take n' m')
  | _, _ => EmptyString
  end.

Fixpoint drop (n : nat) (m : string) : string :=
  match n, m with
  | S n', String _ m' => drop n' m'
  | _, _ => m
  end.

Fixpoint repeat (c : ascii) (n : nat) : string :=
  match n with
  | O => EmptyString
  | S n' => String c (repeat c n')
  end.

(** The C string held at the start of a region: the bytes before the first
    NUL. *)
Fixpoint c_str (m : string) : string :=
  match m with
  | EmptyString => EmptyString
  | String c m' => if is_nul c then EmptyString else String c (c_str m')
  end.

Definition strlen (m : string) : N := N.of_nat (String.length (c_str m)).

(** [toupper] in the "C" locale, on the value of an [unsigned char]. *)
Definition toupper (c : ascii) : ascii :=
  let n := N_of_ascii c in
  if ((97 <=? n) && (n <=? 122))%N then ascii_of_N (n - 32) else c.

(** Overwrites the start of region [m] with [data]; the bytes of [m] after
    them stay.  A caller never writes more than the region holds (in C the
    behaviour would be undefined). *)
Definition store_bytes (m data : string) : string :=
  data +:+ drop (String.length data) m.

(** [memcpy dst src n]: the first [n] bytes at [src], whose terminator is
    made explicit, are written at [dst]. *)
Definition memcpy (dst src : string) (n : N) : string :=
  store_bytes dst (take (N.to_nat n) (src +:+ String NUL EmptyString)).

End CStr.

Import CStr.

(** ** Formatted output *)

Definition INT_MAX : Z := 2147483647.
Definition INT_MIN : Z := -2147483648.

(** The largest [size_t]. *)
Definition SIZE_MAX : N := 2 ^ 64 - 1.

(** [int] arithmetic that leaves [INT_MIN .. INT_MAX] is undefined in C; on
    the usual two's complement machines it wraps around, and so does the
    model.  The library has one such sum, [written + 1], and only the text
    of a message depends on it. *)
Definition int_wrap (z : Z) : Z :=
  (z - INT_MIN) mod 4294967296 + INT_MIN.

(** The variable arguments of a [printf]-like call. *)
Inductive fmt_arg : Type :=
  | ArgS (s : string)     (* %s  : const char *  *)
  | ArgD (d : Z)          (* %d  : int           *)
  | ArgZu (n : N).        (* %zu : size_t        *)

Definition string_of_int (d : Z) : string :=
  NilZero.string_of_int (Z.to_int d).

Definition string_of_size (n : N) : string :=
  NilZero.string_of_uint (N.to_uint n).

(** The unrestricted rendering of a format string that uses the directives
    of this library: [%s], [%d] and [%zu] consume one argument each, every
    other byte is copied.  This is what [printf] does for the formats that
    [format_ok] accepts; any other directive ([%%], [%i], a width, ...) is
    outside the model, and so is a directive without a matching argument
    (undefined in C); the library has no such call. *)
Fixpoint render (fmt : string) (args : list fmt_arg) : string :=
  match fmt with
  | EmptyString => EmptyString
  | String "%" (String "s" rest) =>
      match args with
      | ArgS s :: args' => c_str s +:+ render rest args'
      | _ => render rest (tail args)
      end
  | String "%" (String "d" rest) =>
      match args with
      | ArgD d :: args' => string_of_int d +:+ render rest args'
      | _ => render rest (tail args)
      end
  | String "%" (String "z" (String "u" rest)) =>
      match args with
      | ArgZu n :: args' => string_of_size n +:+ render rest args'
      | _ => render rest (tail args)
      end
  | String c rest => String c (render rest args)
  end.

(** Whether a format and its arguments are within the model: every [%]
    begins one of the three directives, and each directive finds an
    argument of its type (an [int] for [%d], a [size_t] for [%zu]).
    Arguments left over when the format ends are ignored, as in C. *)
Fixpoint format_ok (fmt : string) (args : list fmt_arg) : bool :=
  match fmt with
  | EmptyString => true
  | String "%" (String "s" rest) =>
      match args with
      | ArgS _ :: args' => format_ok rest args'
      | _ => false
      end
  | String "%" (String "d" rest) =>
      match args with
      | ArgD d :: args' =>
          (INT_MIN <=? d)%Z && (d <=? INT_MAX)%Z && format_ok rest args'
      | _ => false
      end
  | String "%" (String "z" (String "u" rest)) =>
      match args with
      | ArgZu n :: args' => (n <=? SIZE_MAX)%N && format_ok rest args'
      | _ => false
      end
  | String "%" _ => false
  | String _ rest => format_ok rest args
  end.

(** The C library produces the rendering piece by piece: a run of ordinary
    bytes, the text of a [%s], the sign of a negative [%d], the digits of a
    number.  After each piece it adds the length of the piece to an [int]
    count of what it has produced. *)
Inductive piece : Type :=
  | Lit (s : string)   (* a run of ordinary bytes *)
  | Conv (s : string). (* what a directive produces *)

Definition piece_text (p : piece) : string :=
  match p with
  | Lit s => s
  | Conv s => s
  end.

Definition literal (c : ascii) (ps : list piece) : list piece :=
  match ps with
  | Lit s :: ps' => Lit (String c s) :: ps'
  | _ => Lit (String c EmptyString) :: ps
  end.

Definition int_pieces (d : Z) : list piece :=
  if (d <? 0)%Z then [Conv "-"; Conv (string_of_int (- d))]
  else [Conv (string_of_int d)].

Fixpoint pieces (fmt : string) (args : list fmt_arg) : list piece :=
  match fmt with
  | EmptyString => []
  | String "%" (String "s" rest) =>
      match args with
      | ArgS s :: args' => Conv (c_str s) :: pieces rest args'
      | _ => pieces rest (tail args)
      end
  | String "%" (String "d" rest) =>
      match args with
      | ArgD d :: args' => int_pieces d ++ pieces rest args'
      | _ => pieces rest (tail args)
      end
  | String "%" (String "z" (String "u" rest)) =>
      match args with
      | ArgZu n :: args' => Conv (string_of_size n) :: pieces rest args'
      | _ => pieces rest (tail args)
      end
  | String c rest => literal c (pieces rest args)
  end.

(** What has been produced when the count first exceeds [INT_MAX], [done]
    being the count so far: the piece that takes the count above [INT_MAX]
    is produced in full, and nothing after it.  (All the pieces, when the
    count never exceeds [INT_MAX].) *)
Fixpoint emit (ps : list piece) (done : Z) : string :=
  match ps with
  | [] => EmptyString
  | p :: ps' =>
      let done' := (done + Z.of_nat (String.length (piece_text p)))%Z in
      piece_text p
        +:+ (if (INT_MAX <? done')%Z then EmptyString else emit ps' done')
  end.

(** The pieces put together. *)
Definition all_text (ps : list piece) : string :=
  fold_right (fun p t => piece_text p +:+ t) EmptyString ps.

(** [snprintf(buf, n, fmt, ...)], and [vsnprintf] alike.  The result is the
    length of the unrestricted rendering; at most [n - 1] of its bytes and a
    terminator are written when [n > 0].  The result is an [int]: a
    rendering longer than [INT_MAX] cannot be reported and the call fails
    with a negative value (EOVERFLOW).  C leaves open what the buffer holds
    then; glibc, the C library of the build, has by then written, cut to
    [n - 1] bytes and terminated, what it had produced when the count went
    above [INT_MAX]. *)
Definition snprintf (buf : string) (n : N) (fmt : string)
    (args : list fmt_arg) : Z * string :=
  let s := render fmt args in
  let len := Z.of_nat (String.length s) in
  if (INT_MAX <? len)%Z then
    let e := emit (pieces fmt args) 0 in
    ((-1)%Z,
     if (n =? 0)%N then buf
     else
       store_bytes buf
         (take (Nat.min (N.to_nat n - 1) (String.length e)) e
            +:+ String NUL EmptyString))
  else if (n =? 0)%N then (len, buf)
  else (len,
        store_bytes buf
          (take (Nat.min (N.to_nat n - 1) (String.length s)) s
             +:+ String NUL EmptyString)).

(** ** Constants of hello.c *)

Definition HELLO_VERSION : string := "1.0.0".
Definition ERROR_BUFFER_SIZE : N := 1024.
Definition MAX_NAME_LENGTH : N := 256.
(** Defined by hello.c and used nowhere in it. *)
Definition MAX_GREETING_LENGTH : N := 64.

(** ** Memory and the world *)

Abbreviation addr := positive.

(** [struct Hello_Greeter]: two owned strings and a flag. *)
Record Hello_Greeter : Type := mkGreeter {
  name : option addr;
  greeting : option addr;
  uppercase : bool
}.

(** An allocated block is an array of [char] or a greeter object. *)
Inductive block : Type :=
  | Chars (bytes : string)
  | Obj (g : Hello_Greeter).

Record World : Type := mkWorld {
  (** [static _Thread_local char g_error_buffer[ERROR_BUFFER_SIZE]] *)
  g_error_buffer : string;
  (** [static _Thread_local bool g_has_error] *)
  g_has_error : bool;
  (** the live heap blocks *)
  heap : gmap positive block;
  (** whether each of the coming allocation requests succeeds, in order;
      requests beyond the list succeed *)
  alloc_outcomes : list bool
}.

(** The state at thread start: static storage is zero-initialised. *)
Definition initial_world (outcomes : list bool) : World :=
  mkWorld (repeat NUL (N.to_nat ERROR_BUFFER_SIZE)) false ∅ outcomes.

Definition with_heap (h : gmap positive block) (w : World) : World :=
  mkWorld (g_error_buffer w) (g_has_error w) h (alloc_outcomes w).

(** Computations over the world; [None] is undefined behaviour (an access
    through a pointer that is not live). *)
Definition M (A : Type) : Type := World -> option (A * World).

Definition ret {A} (a : A) : M A := fun w => Some (a, w).

Definition bind {A B} (m : M A) (k : A -> M B) : M B :=
  fun w => match m w with
           | Some (a, w') => k a w'
           | None => None
           end.

Notation "'let*' x ':=' m 'in' k" := (bind m (fun x => k))
  (at level 10, x pattern, m at level 100, k at level 200).
Notation "m ';;' k" := (bind m (fun _ => k))
  (at level 100, k at level 200, right associativity).

(** An allocation request for a block with initial contents [init].  A
    request that succeeds returns an address that is not live; which one is
    the allocator's choice, here the first one that is free. *)
Definition alloc (init : block) : M (option addr) := fun w =>
  match alloc_outcomes w with
  | false :: rest =>
      Some (None, mkWorld (g_error_buffer w) (g_has_error w) (heap w) rest)
  | outcomes =>
      let a := fresh (dom (heap w)) in
      Some (Some a,
            mkWorld (g_error_buffer w) (g_has_error w)
              (<[a := init]> (heap w)) (tail outcomes))
  end.

(** [malloc(size)] for an array of [char]; its contents are indeterminate
    in C and NUL bytes here. *)
Definition malloc (size : N) : M (option addr) :=
  alloc (Chars (repeat NUL (N.to_nat size))).

(** [calloc(1, sizeof(Hello_Greeter))]: all fields zero. *)
Definition calloc_greeter : M (option addr) :=
  alloc (Obj (mkGreeter None None false)).

(** [free(p)]: nothing for NULL; undefined for a pointer that is not live. *)
Definition free (p : option addr) : M unit := fun w =>
  match p with
  | None => Some (tt, w)
  | Some a =>
      match heap w !! a with
      | Some _ => Some (tt, with_heap (delete a (heap w)) w)
      | None => None
      end
  end.

Definition load_chars (p : option addr) : M string := fun w =>
  match p with
  | Some a =>
      match heap w !! a with
      | Some (Chars m) => Some (m, w)
      | _ => None
      end
  | None => None
  end.

Definition load_greeter (a : addr) : M Hello_Greeter := fun w =>
  match heap w !! a with
  | Some (Obj g) => Some (g, w)
  | _ => None
  end.

Definition store (a : addr) (b : block) : M unit := fun w =>
  match heap w !! a with
  | Some _ => Some (tt, with_heap (<[a := b]> (heap w)) w)
  | None => None
  end.

(** ** Thread-local error handling *)

Definition hello_set_error (fmt : string) (args : list fmt_arg)
    (w : World) : World :=
  let '(_, buf) := snprintf (g_error_buffer w) ERROR_BUFFER_SIZE fmt args in
  mkWorld buf true (heap w) (alloc_outcomes w).

(** The two readers hand the world back as they found it. *)
Definition hello_get_last_error (w : World) : string * World :=
  (if g_has_error w then g_error_buffer w else EmptyString, w).

Definition hello_has_error (w : World) : bool * World := (g_has_error w, w).

Definition hello_clear_error (w : World) : World :=
  mkWorld (store_bytes (g_error_buffer w) (String NUL EmptyString)) false
    (heap w) (alloc_outcomes w).

Definition set_error (fmt : string) (args : list fmt_arg) : M unit :=
  fun w => Some (tt, hello_set_error fmt args w).

(** ** Private functions *)

(** Duplicate a string, returning NULL on failure. *)
Definition safe_strdup (str : option string) : M (option addr) :=
  match str with
  | None => ret None
  | Some s =>
      let len := strlen s in
      let* copy := malloc (len + 1) in
      match copy with
      | None =>
          set_error "Failed to allocate string of length %zu" [ArgZu len];;
          ret None
      | Some a =>
          let* dst := load_chars (Some a) in
          store a (Chars (memcpy dst s (len + 1)));;
          ret (Some a)
      end
  end.

(** Convert string to uppercase in place: every byte up to the first NUL. *)
Fixpoint str_to_upper_loop (m : string) : string :=
  match m with
  | EmptyString => EmptyString
  | String c m' =>
      if is_nul c then m else String (toupper c) (str_to_upper_loop m')
  end.

Definition str_to_upper (str : option string) : option string :=
  match str with
  | None => None
  | Some m => Some (str_to_upper_loop m)
  end.

(** Validate name length. *)
Definition validate_name (name : option string) : M bool :=
  match name with
  | None => set_error "Name cannot be NULL" [];; ret false
  | Some s =>
      let len := strlen s in
      if (len =? 0)%N then
        set_error "Name cannot be empty" [];; ret false
      else if (MAX_NAME_LENGTH <=? len)%N then
        set_error "Name too long (%zu chars, max %d)"
          [ArgZu len; ArgD (Z.of_N MAX_NAME_LENGTH - 1)];;
        ret false
      else ret true
  end.

(** ** Public functions - lifecycle *)

(** Modelled from the spec: [Hello_GreeterConfig] is declared in
    hello/hello.h, which is not part of the sources at hand.  The spec gives
    the configuration as [{name?: text, greeting?: text, uppercase?: bool}],
    an absent text being a null pointer. *)
Record Hello_GreeterConfig : Type := mkConfig {
  config_name : option string;
  config_greeting : option string;
  config_uppercase : bool
}.

(** Modelled from the spec: the initialiser macro of hello/hello.h, with the
    defaults the spec lists (name "World", greeting "Hello", uppercase
    false). *)
Definition HELLO_GREETER_CONFIG_DEFAULT : Hello_GreeterConfig :=
  mkConfig (Some "World") (Some "Hello") false.

Definition hello_greeter_create (config : option Hello_GreeterConfig)
    : M (option addr) :=
  (* Use default config if none provided *)
  let default_config := HELLO_GREETER_CONFIG_DEFAULT in
  let config := match config with
                | None => default_config
                | Some c => c
                end in
  (* Validate configuration *)
  let name := match config_name config with
              | Some n => n
              | None => "World"
              end in
  let greeting := match config_greeting config with
                  | Some g => g
                  | None => "Hello"
                  end in
  let* valid := validate_name (Some name) in
  if negb valid then ret None  (* Error already set *)
  else
    (* Allocate greeter *)
    let* greeter := calloc_greeter in
    match greeter with
    | None => set_error "Failed to allocate Hello_Greeter" [];; ret None
    | Some g =>
        (* Copy name *)
        let* pn := safe_strdup (Some name) in
        store g (Obj (mkGreeter pn None false));;
        match pn with
        | None => free (Some g);; ret None  (* Error already set *)
        | Some _ =>
            (* Copy greeting *)
            let* pg := safe_strdup (Some greeting) in
            store g (Obj (mkGreeter pn pg false));;
            match pg with
            | None => free pn;; free (Some g);; ret None
            | Some _ =>
                store g (Obj (mkGreeter pn pg (config_uppercase config)));;
                ret (Some g)
            end
        end
    end.

Definition hello_greeter_destroy (greeter : option addr) : M unit :=
  match greeter with
  | None => ret tt
  | Some g =>
      let* obj := load_greeter g in
      free (name obj);;
      free (greeting obj);;
      free (Some g)
  end.

(** ** Public functions - operations *)

(** The caller's buffer is passed in and handed back with what the call
    wrote into it; it does not overlap the greeter's own storage. *)
Definition hello_greeter_greet (greeter : option addr)
    (buffer : option string) (buffer_size : N) : M (Z * option string) :=
  match greeter with
  | None => set_error "greeter is NULL" [];; ret ((-1)%Z, buffer)
  | Some g =>
      match buffer with
      | None => set_error "Invalid output buffer" [];; ret ((-1)%Z, buffer)
      | Some buf =>
          if (buffer_size =? 0)%N then
            set_error "Invalid output buffer" [];; ret ((-1)%Z, buffer)
          else
            (* Format greeting *)
            let* obj := load_greeter g in
            let* sg := load_chars (greeting obj) in
            let* sn := load_chars (name obj) in
            let '(written, buf) :=
              snprintf buf buffer_size "%s, %s!" [ArgS sg; ArgS sn] in
            if (written <? 0)%Z then
              set_error "Formatting failed" [];; ret ((-1)%Z, Some buf)
            else
              (if (buffer_size <=? Z.to_N written)%N then
                 set_error "Buffer too small (need %d, have %zu)"
                   [ArgD (int_wrap (written + 1)); ArgZu buffer_size]
                 (* Still return required size (excluding null terminator) *)
               else ret tt);;
              (* Apply uppercase if configured *)
              let buffer :=
                if uppercase obj then str_to_upper (Some buf) else Some buf in
              ret (written, buffer)
      end
  end.

Definition hello_greeter_get_name (greeter : option addr)
    : M (option addr) :=
  match greeter with
  | None => set_error "greeter is NULL" [];; ret None
  | Some g =>
      let* obj := load_greeter g in
      ret (name obj)
  end.

Definition hello_greeter_set_name (greeter : option addr)
    (name : option string) : M bool :=
  match greeter with
  | None => set_error "greeter is NULL" [];; ret false
  | Some g =>
      let* valid := validate_name name in
      if negb valid then ret false  (* Error already set *)
      else
        let* new_name := safe_strdup name in
        match new_name with
        | None => ret false  (* Error already set *)
        | Some _ =>
            let* obj := load_greeter g in
            let 'mkGreeter old_name greeting uppercase := obj in
            free old_name;;
            store g (Obj (mkGreeter new_name greeting uppercase));;
            ret true
        end
  end.

(** ** Public functions - utility *)

Definition hello_get_version : string := HELLO_VERSION.

(** ** What a caller observes *)

(** The C string a pointer into the heap points at, as a caller reads it. *)
Definition string_at (w : World) (p : option addr) : option string :=
  match p with
  | Some a =>
      match heap w !! a with
      | Some (Chars m) => Some (c_str m)
      | _ => None
      end
  | None => None
  end.

(** What a caller can see of a fully constructed greeter through its
    handle: the C strings of the two owned blocks, which are distinct, and
    the flag.  [None] when the handle is not such a greeter. *)
Definition greeter_view (w : World) (g : addr)
    : option (string * string * bool) :=
  match heap w !! g with
  | Some (Obj (mkGreeter (Some pn) (Some pg) up)) =>
      if decide (pn = pg) then None
      else
        match heap w !! pn, heap w !! pg with
        | Some (Chars mn), Some (Chars mg) => Some (c_str mn, c_str mg, up)
        | _, _ => None
        end
  | _ => None
  end.

(** The text [greet] formats for a name and a greeting, [toupper] applied to
    every byte of a text, and the two together as the flag says. *)
Definition greeting_text (gr nm : string) : string :=
  gr +:+ ", " +:+ nm +:+ "!".

Fixpoint upper (s : string) : string :=
  match s with
  | EmptyString => EmptyString
  | String c s' => String (toupper c) (upper s')
  end.

Definition shown (up : bool) (s : string) : string :=
  if up then upper s else s.

(** The pieces of the text [greet] formats, and what has been formatted
    when the formatting fails. *)
Definition greeting_pieces (gr nm : string) : list piece :=
  [Conv gr; Lit ", "; Conv nm; Lit "!"].

Definition failed_text (gr nm : string) : string :=
  emit (greeting_pieces gr nm) 0.

(** ** Vocabulary of the properties *)

(** A text is NUL-free when it is the C string it holds. *)
Definition nul_free (s : string) : Prop := c_str s = s.

(** The world after [greet] found that [written] does not fit in a buffer
    of [buffer_size] bytes. *)
Definition report_shortfall (written : Z) (buffer_size : N) (w : World)
    : World :=
  hello_set_error "Buffer too small (need %d, have %zu)"
    [ArgD (int_wrap (written + 1)); ArgZu buffer_size] w.

(** Whether the next allocation request succeeds, and the world once the
    request has been answered. *)
Definition next_alloc_ok (w : World) : bool :=
  match alloc_outcomes w with
  | false :: _ => false
  | _ => true
  end.

Definition advance (w : World) : World :=
  mkWorld (g_error_buffer w) (g_has_error w) (heap w)
    (tail (alloc_outcomes w)).

(** Whether the next [n] allocation requests all succeed. *)
Fixpoint allocs_ok (n : nat) (outcomes : list bool) : bool :=
  match n, outcomes with
  | S n', b :: rest => b && allocs_ok n' rest
  | _, _ => true
  end.

(** The rule of [validate_name] on a non-null name. *)
Definition valid_name (s : string) : bool :=
  (0 <? strlen s)%N && (strlen s <? MAX_NAME_LENGTH)%N.

(** The name and the greeting [create] works with: the configured ones, or
    the defaults where the configuration or the field is absent. *)
Definition requested_name (config : option Hello_GreeterConfig) : string :=
  match config_name (default HELLO_GREETER_CONFIG_DEFAULT config) with
  | Some n => n
  | None => "World"
  end.

Definition requested_greeting (config : option Hello_GreeterConfig)
    : string :=
  match config_greeting (default HELLO_GREETER_CONFIG_DEFAULT config) with
  | Some g => g
  | None => "Hello"
  end.

Definition requested_uppercase (config : option Hello_GreeterConfig)
    : bool :=
  config_uppercase (default HELLO_GREETER_CONFIG_DEFAULT config).

(** ** Calls of the public operations *)

Inductive operation : Type :=
  | Create (config : option Hello_GreeterConfig)
  | Destroy (greeter : option addr)
  | Greet (greeter : option addr) (buffer : option string) (buffer_size : N)
  | GetName (greeter : option addr)
  | SetName (greeter : option addr) (name : option string).

(** What a call hands back to its caller. *)
Inductive outcome : Type :=
  | Handle (greeter : option addr)                (* create *)
  | Done                                          (* destroy *)
  | Written (result : Z) (buffer : option string) (* greet *)
  | NamePtr (name : option addr)                  (* get_name *)
  | Flag (ok : bool).                             (* set_name *)

Definition perform (o : operation) : M outcome :=
  match o with
  | Create config =>
      let* g := hello_greeter_create config in ret (Handle g)
  | Destroy greeter =>
      hello_greeter_destroy greeter;; ret Done
  | Greet greeter buffer buffer_size =>
      let* r := hello_greeter_greet greeter buffer buffer_size in
      ret (Written (fst r) (snd r))
  | GetName greeter =>
      let* p := hello_greeter_get_name greeter in ret (NamePtr p)
  | SetName greeter name =>
      let* ok := hello_greeter_set_name greeter name in ret (Flag ok)
  end.

(** The value by which each operation signals failure. *)
Definition sentinel (o : operation) : outcome :=
  match o with
  | Create _ => Handle None
  | Destroy _ => Done
  | Greet _ buffer _ => Written (-1) buffer
  | GetName _ => NamePtr None
  | SetName _ _ => Flag false
  end.

(** The calls that fail validation: [create] with an empty or over-length
    name; [set_name] with a null, empty or over-length name; [greet],
    [get_name] and [set_name] on a null handle; [greet] with a null buffer
    or no capacity. *)
Definition validation_error (o : operation) : bool :=
  match o with
  | Create (Some c) =>
      match config_name c with
      | Some n => negb (valid_name n)
      | None => false
      end
  | Create None => false
  | Destroy _ => false
  | Greet greeter buffer buffer_size =>
      match greeter, buffer with
      | Some _, Some _ => (buffer_size =? 0)%N
      | _, _ => true
      end
  | GetName greeter =>
      match greeter with Some _ => false | None => true end
  | SetName greeter name =>
      match greeter, name with
      | Some _, Some n => negb (valid_name n)
      | _, _ => true
      end
  end.

(** The uses of one live greeter between its creation and its
    destruction. *)
Inductive use : Type :=
  | UseSetName (name : option string)
  | UseGreet (buffer : option string) (buffer_size : N)
  | UseGetName.

Definition use_call (g : addr) (u : use) : operation :=
  match u with
  | UseSetName name => SetName (Some g) name
  | UseGreet buffer buffer_size => Greet (Some g) buffer buffer_size
  | UseGetName => GetName (Some g)
  end.

Fixpoint perform_uses (g : addr) (us : list use) : M unit :=
  match us with
  | [] => ret tt
  | u :: us' => perform (use_call g u);; perform_uses g us'
  end.

(** The invariant of a live greeter: its name is not empty and is shorter
    than [MAX_NAME_LENGTH]. *)
Definition name_invariant (w : World) (g : addr) : Prop :=
  exists nm gr up,
    greeter_view w g = Some (nm, gr, up)
    /\ nm <> EmptyString
    /\ (N.of_nat (String.length nm) < MAX_NAME_LENGTH)%N.

(** The successful calls: a [create] that returns a handle, a [set_name]
    that returns true, a [get_name] on a non-null handle, any [destroy], and
    a [greet] on a live greeter whose formatted text is at most [INT_MAX]
    bytes long and shorter than the capacity of the buffer. *)
Definition succeeded (w : World) (o : operation) (r : outcome) : Prop :=
  match o, r with
  | Create _, Handle (Some _) => True
  | SetName _ _, Flag true => True
  | GetName (Some _), NamePtr _ => True
  | Destroy _, Done => True
  | Greet (Some g) (Some _) c, Written _ _ =>
      exists nm gr up,
        greeter_view w g = Some (nm, gr, up)
        /\ (N.of_nat (String.length (greeting_text gr nm)) < c)%N
        /\ (Z.of_nat (String.length (greeting_text gr nm)) <= INT_MAX)%Z
  | _, _ => False
  end.

(** ** Scenarios of tests/test_main.c *)

(** Reads the state without changing it. *)
Definition observe {A} (f : World -> A) : M A := fun w => Some (f w, w).

(** The test runner clears the error channel before each test. *)
Definition run_test {A} (test : M A) : option (A * World) :=
  test (hello_clear_error (initial_world [])).

(** The result of a test, without the final world. *)
Definition result {A} (r : option (A * World)) : option A :=
  option_map fst r.

Definition test_create_default : M (option string) :=
  let* greeter := hello_greeter_create None in
  let* p := hello_greeter_get_name greeter in
  let* nm := observe (fun w => string_at w p) in
  hello_greeter_destroy greeter;;
  ret nm.

Definition test_create_empty_name_fails : M (option addr * bool) :=
  let* greeter :=
    hello_greeter_create (Some (mkConfig (Some EmptyString) (Some "Hello") false)) in
  let* err := observe g_has_error in
  ret (greeter, err).

Definition test_greet (config : option Hello_GreeterConfig)
    : M (Z * option string) :=
  let* greeter := hello_greeter_create config in
  let* r := hello_greeter_greet greeter (Some (repeat "?" 128)) 128 in
  hello_greeter_destroy greeter;;
  ret (fst r, option_map c_str (snd r)).

Definition test_greet_null_buffer_fails : M (Z * bool) :=
  let* greeter := hello_greeter_create None in
  let* r := hello_greeter_greet greeter None 0 in
  let* err := observe g_has_error in
  hello_greeter_destroy greeter;;
  ret (fst r, err).

Definition test_set_name (new_name : string)
    : M (bool * bool * option string) :=
  let* greeter := hello_greeter_create None in
  let* ok := hello_greeter_set_name greeter (Some new_name) in
  let* err := observe g_has_error in
  let* p := hello_greeter_get_name greeter in
  let* nm := observe (fun w => string_at w p) in
  hello_greeter_destroy greeter;;
  ret (ok, err, nm).

(** ** Sample worlds *)

(** A world holding the default greeter at handle 1. *)
Definition sample_world (up : bool) : World :=
  mkWorld (repeat NUL (N.to_nat ERROR_BUFFER_SIZE)) false
    (<[1%positive := Obj (mkGreeter (Some 2%positive) (Some 3%positive) up)]>
       (<[2%positive := Chars ("World" +:+ String NUL EmptyString)]>
          (<[3%positive := Chars ("Hello" +:+ String NUL EmptyString)]> ∅)))
    [].

(** A greeting of 2^31 bytes, and the configuration that asks for it. *)
Definition long_greeting : string := repeat "a" (Z.to_nat 2147483648).

Definition long_config (up : bool) : Hello_GreeterConfig :=
  mkConfig None (Some long_greeting) up.

(** A buffer of 2^32 bytes. *)
Definition vast_buffer : string := repeat "x" (Z.to_nat 4294967296).

(** ** Blocks of a greeter *)

(** The blocks a greeter object owns: itself and its two strings. *)
Definition greeter_blocks (w : World) (g : addr) : list addr :=
  match heap w !! g with
  | Some (Obj obj) =>
      g :: option_list (name obj) ++ option_list (greeting obj)
  | _ => []
  end.

(** Two greeters are separate when they own no block in common. *)
Definition separate (w : World) (g1 g2 : addr) : bool :=
  forallb (fun a => negb (existsb (Pos.eqb a) (greeter_blocks w g2)))
    (greeter_blocks w g1).

(** ** Processes *)

(** A program over a state [S]: it returns a value and a new state, or its
    behaviour is undefined. *)
Definition Prog (S A : Type) : Type := S -> option (A * S).

Definition pret {S A} (a : A) : Prog S A := fun s => Some (a, s).

Definition pbind {S A B} (m : Prog S A) (k : A -> Prog S B) : Prog S B :=
  fun s => match m s with
           | Some (a, s') => k a s'
           | None => None
           end.

Notation "'let!' x ':=' m 'in' k" := (pbind m (fun x => k))
  (at level 10, x pattern, m at level 100, k at level 200).
Notation "m ';;;' k" := (pbind m (fun _ => k))
  (at level 100, k at level 200, right associativity).

(** A process: the state of the library, and what has been written to the
    two output streams. *)
Record Process : Type := mkProcess {
  world : World;
  stdout : string;
  stderr : string
}.

Definition P (A : Type) : Type := Prog Process A.

(** A call into the library. *)
Definition call {A} (m : M A) : P A := fun p =>
  match m (world p) with
  | Some (a, w) => Some (a, mkProcess w (stdout p) (stderr p))
  | None => None
  end.

(** [printf] and [fprintf(stderr, ...)] append the rendering to the
    stream; no caller looks at what they return. *)
Definition printf (fmt : string) (args : list fmt_arg) : P unit := fun p =>
  Some (tt, mkProcess (world p) (stdout p +:+ render fmt args) (stderr p)).

Definition fprintf_stderr (fmt : string) (args : list fmt_arg) : P unit :=
  fun p =>
  Some (tt, mkProcess (world p) (stdout p) (stderr p +:+ render fmt args)).

Definition get_last_error : P string := fun p =>
  let '(msg, w) := hello_get_last_error (world p) in
  Some (msg, mkProcess w (stdout p) (stderr p)).

Definition has_error : P bool := fun p =>
  let '(b, w) := hello_has_error (world p) in
  Some (b, mkProcess w (stdout p) (stderr p)).

Definition clear_error : P unit := fun p =>
  Some (tt, mkProcess (hello_clear_error (world p)) (stdout p) (stderr p)).

(** The bytes a [const char *] result points at; reading through a null or
    dangling pointer is undefined. *)
Definition deref (ptr : option addr) : P string := call (load_chars ptr).

(** The line feed and the double quote of the C literals. *)
Definition LF : string := String "010" EmptyString.
Definition DQ : string := String "034" EmptyString.

Definition EXIT_SUCCESS : Z := 0.
Definition EXIT_FAILURE : Z := 1.

(** The process at program start. *)
Definition start (outcomes : list bool) : Process :=
  mkProcess (initial_world outcomes) EmptyString EmptyString.

(** ** The example program (examples/hello/src/main.c) *)

(** [fprintf(stderr, "Error: %s\n", hello_get_last_error());
     return EXIT_FAILURE;] *)
Definition exit_with_error : P Z :=
  let! msg := get_last_error in
  fprintf_stderr ("Error: %s" +:+ LF) [ArgS msg];;;
  pret EXIT_FAILURE.

(** Each example is a block of [main] with its own [char buffer[128]],
    whose bytes are indeterminate at first ([stack]); [rest] is what follows
    the block, which a [return] inside the block skips. *)

(** Example 1: Default configuration *)
Definition example_1 (stack : string) (rest : P Z) : P Z :=
  printf ("Example 1: Default greeter" +:+ LF) [];;;
  let! greeter := call (hello_greeter_create None) in
  match greeter with
  | None => exit_with_error
  | Some _ =>
      let! r := call (hello_greeter_greet greeter (Some stack) 128) in
      let '(len, buffer) := r in
      (if (0 <=? len)%Z then
         printf ("  %s" +:+ LF) [ArgS (default stack buffer)]
       else pret tt);;;
      call (hello_greeter_destroy greeter);;;
      rest
  end.

(** Example 2: Custom configuration *)
Definition example_2 (stack : string) (rest : P Z) : P Z :=
  printf (LF +:+ "Example 2: Custom greeter" +:+ LF) [];;;
  let config := HELLO_GREETER_CONFIG_DEFAULT in
  let config :=
    mkConfig (Some "Carbide User") (config_greeting config)
      (config_uppercase config) in
  let config :=
    mkConfig (config_name config) (Some "Welcome")
      (config_uppercase config) in
  let! greeter := call (hello_greeter_create (Some config)) in
  match greeter with
  | None => exit_with_error
  | Some _ =>
      let! r := call (hello_greeter_greet greeter (Some stack) 128) in
      let '(len, buffer) := r in
      (if (0 <=? len)%Z then
         printf ("  %s" +:+ LF) [ArgS (default stack buffer)]
       else pret tt);;;
      call (hello_greeter_destroy greeter);;;
      rest
  end.

(** Example 3: Uppercase mode *)
Definition example_3 (stack : string) (rest : P Z) : P Z :=
  printf (LF +:+ "Example 3: Uppercase greeter" +:+ LF) [];;;
  let config := HELLO_GREETER_CONFIG_DEFAULT in
  let config :=
    mkConfig (config_name config) (config_greeting config) true in
  let! greeter := call (hello_greeter_create (Some config)) in
  match greeter with
  | None => exit_with_error
  | Some _ =>
      let! r := call (hello_greeter_greet greeter (Some stack) 128) in
      printf ("  %s" +:+ LF) [ArgS (default stack (snd r))];;;
      call (hello_greeter_destroy greeter);;;
      rest
  end.

(** Example 4: Modifying name after creation *)
Definition example_4 (stack : string) (rest : P Z) : P Z :=
  printf (LF +:+ "Example 4: Changing name" +:+ LF) [];;;
  let! greeter := call (hello_greeter_create None) in
  match greeter with
  | None => exit_with_error
  | Some _ =>
      let! p := call (hello_greeter_get_name greeter) in
      let! nm := deref p in
      printf ("  Before: name = " +:+ DQ +:+ "%s" +:+ DQ +:+ LF) [ArgS nm];;;
      let! r := call (hello_greeter_greet greeter (Some stack) 128) in
      let buffer := default stack (snd r) in
      printf ("  Greeting: %s" +:+ LF) [ArgS buffer];;;
      let! ok := call (hello_greeter_set_name greeter (Some "New Name")) in
      (if ok then
         let! p := call (hello_greeter_get_name greeter) in
         let! nm := deref p in
         printf ("  After: name = " +:+ DQ +:+ "%s" +:+ DQ +:+ LF)
           [ArgS nm];;;
         let! r := call (hello_greeter_greet greeter (Some buffer) 128) in
         printf ("  Greeting: %s" +:+ LF) [ArgS (default buffer (snd r))]
       else pret tt);;;
      call (hello_greeter_destroy greeter);;;
      rest
  end.

(** Example 5: Error handling *)
Definition example_5 (rest : P Z) : P Z :=
  printf (LF +:+ "Example 5: Error handling" +:+ LF) [];;;
  (* Try to create with empty name *)
  let config := HELLO_GREETER_CONFIG_DEFAULT in
  let config :=
    mkConfig (Some EmptyString) (config_greeting config)
      (config_uppercase config) in
  let! greeter := call (hello_greeter_create (Some config)) in
  (match greeter with
   | None =>
       let! msg := get_last_error in
       printf ("  Expected error: %s" +:+ LF) [ArgS msg];;;
       clear_error
   | Some _ => call (hello_greeter_destroy greeter)
   end);;;
  rest.

(** [main]; [stack i] is what the buffer of example [i] holds at first. *)
Definition main (stack : nat -> string) : P Z :=
  printf ("Hello Library v%s" +:+ LF) [ArgS hello_get_version];;;
  printf ("====================" +:+ LF +:+ LF) [];;;
  example_1 (stack 1)
    (example_2 (stack 2)
       (example_3 (stack 3)
          (example_4 (stack 4)
             (example_5
                (printf (LF +:+ "All examples completed successfully!" +:+ LF)
                   [];;;
                 pret EXIT_SUCCESS))))).

(** What [main] prints when no example exits early; [renamed] tells whether
    [set_name] succeeded in example 4. *)
Definition transcript (renamed : bool) : string :=
  "Hello Library v1.0.0" +:+ LF +:+
  "====================" +:+ LF +:+ LF +:+
  "Example 1: Default greeter" +:+ LF +:+
  "  Hello, World!" +:+ LF +:+ LF +:+
  "Example 2: Custom greeter" +:+ LF +:+
  "  Welcome, Carbide User!" +:+ LF +:+ LF +:+
  "Example 3: Uppercase greeter" +:+ LF +:+
  "  HELLO, WORLD!" +:+ LF +:+ LF +:+
  "Example 4: Changing name" +:+ LF +:+
  "  Before: name = " +:+ DQ +:+ "World" +:+ DQ +:+ LF +:+
  "  Greeting: Hello, World!" +:+ LF +:+
  (if renamed then
     "  After: name = " +:+ DQ +:+ "New Name" +:+ DQ +:+ LF +:+
     "  Greeting: Hello, New Name!" +:+ LF
   else EmptyString) +:+ LF +:+
  "Example 5: Error handling" +:+ LF +:+
  "  Expected error: Name cannot be empty" +:+ LF +:+ LF +:+
  "All examples completed successfully!" +:+ LF.

(** The thirteenth allocation request is the one of [set_name]. *)
Definition nth_alloc_ok (n : nat) (outcomes : list bool) : bool :=
  nth n outcomes true.

(** ** The unit tests (examples/hello/tests/test_main.c) *)

Module TestMain.

(** The counters of the test framework, beside the process. *)
Record Suite : Type := mkSuite {
  process : Process;
  g_tests_run : Z;
  g_tests_passed : Z;
  g_tests_failed : Z
}.

Definition T (A : Type) : Type := Prog Suite A.

(** A step of the process, within the suite. *)
Definition within {A} (m : P A) : T A := fun s =>
  match m (process s) with
  | Some (a, p) =>
      Some (a, mkSuite p (g_tests_run s) (g_tests_passed s)
                 (g_tests_failed s))
  | None => None
  end.

(** [x++] and [x - y] on [int]; overflow is undefined. *)
Definition int_succ (x : Z) : option Z :=
  if (x <? INT_MAX)%Z then Some (x + 1)%Z else None.

Definition int_sub (x y : Z) : option Z :=
  if ((INT_MIN <=? x - y) && (x - y <=? INT_MAX))%Z then Some (x - y)%Z
  else None.

Definition count_run : T unit := fun s =>
  match int_succ (g_tests_run s) with
  | Some n =>
      Some (tt, mkSuite (process s) n (g_tests_passed s) (g_tests_failed s))
  | None => None
  end.

Definition count_passed : T unit := fun s =>
  match int_succ (g_tests_passed s) with
  | Some n =>
      Some (tt, mkSuite (process s) (g_tests_run s) n (g_tests_failed s))
  | None => None
  end.

(** [g_tests_failed = g_tests_run - g_tests_passed;] *)
Definition count_failed : T Z := fun s =>
  match int_sub (g_tests_run s) (g_tests_passed s) with
  | Some n =>
      Some (n, mkSuite (process s) (g_tests_run s) (g_tests_passed s) n)
  | None => None
  end.

Definition tests_passed : T Z := fun s => Some (g_tests_passed s, s).
Definition tests_run : T Z := fun s => Some (g_tests_run s, s).

Section Framework.

(** [__FILE__], and what the [char buffer[128]] of the [i]-th test that
    declares one holds at first. *)
Variable FILE : string.
Variable stack : nat -> string.

(** The assertion macros: a failed assertion prints a line and returns
    from the test; [rest] is what follows the assertion in the test.
    ([ASSERT_EQ] is used by no test.) *)
Definition ASSERT (condition : bool) (line : Z) (text : string)
    (rest : P unit) : P unit :=
  if negb condition then
    printf ("    FAIL: %s:%d: %s" +:+ LF) [ArgS FILE; ArgD line; ArgS text]
  else rest.

Definition ASSERT_STR_EQ (expected actual : string) (line : Z)
    (rest : P unit) : P unit :=
  if negb (String.eqb (c_str expected) (c_str actual)) then
    printf ("    FAIL: %s:%d: expected " +:+ DQ +:+ "%s" +:+ DQ +:+ ", got "
              +:+ DQ +:+ "%s" +:+ DQ +:+ LF)
      [ArgS FILE; ArgD line; ArgS expected; ArgS actual]
  else rest.

Definition ASSERT_NULL {A} (ptr : option A) (line : Z) (rest : P unit)
    : P unit :=
  match ptr with
  | Some _ =>
      printf ("    FAIL: %s:%d: expected NULL" +:+ LF) [ArgS FILE; ArgD line]
  | None => rest
  end.

Definition ASSERT_NOT_NULL {A} (ptr : option A) (line : Z) (rest : P unit)
    : P unit :=
  match ptr with
  | None =>
      printf ("    FAIL: %s:%d: unexpected NULL" +:+ LF)
        [ArgS FILE; ArgD line]
  | Some _ => rest
  end.

Definition run_test (func : P unit) (name : string) : T unit :=
  count_run;;;
  within (printf "  %s... " [ArgS name]);;;
  within clear_error;;;
  within func;;;
  count_passed;;;
  within (printf ("OK" +:+ LF) []).

(** *** Tests - Lifecycle *)

Definition test_create_default : P unit :=
  let! greeter := call (hello_greeter_create None) in
  ASSERT_NOT_NULL greeter 82 (
  let! p := call (hello_greeter_get_name greeter) in
  let! actual := deref p in
  ASSERT_STR_EQ "World" actual 83 (
  call (hello_greeter_destroy greeter))).

Definition test_create_custom_name : P unit :=
  let config := HELLO_GREETER_CONFIG_DEFAULT in
  let config :=
    mkConfig (Some "Custom") (config_greeting config)
      (config_uppercase config) in
  let! greeter := call (hello_greeter_create (Some config)) in
  ASSERT_NOT_NULL greeter 92 (
  let! p := call (hello_greeter_get_name greeter) in
  let! actual := deref p in
  ASSERT_STR_EQ "Custom" actual 93 (
  call (hello_greeter_destroy greeter))).

Definition test_create_empty_name_fails : P unit :=
  let config := HELLO_GREETER_CONFIG_DEFAULT in
  let config :=
    mkConfig (Some EmptyString) (config_greeting config)
      (config_uppercase config) in
  let! greeter := call (hello_greeter_create (Some config)) in
  ASSERT_NULL greeter 102 (
  let! err := has_error in
  ASSERT err 103 "hello_has_error()" (
  pret tt)).

Definition test_destroy_null_safe : P unit :=
  call (hello_greeter_destroy None).

(** *** Tests - Greet *)

Definition test_greet_default : P unit :=
  let! greeter := call (hello_greeter_create None) in
  ASSERT_NOT_NULL greeter 117 (
  let! r := call (hello_greeter_greet greeter (Some (stack 1)) 128) in
  let '(len, buffer) := r in
  ASSERT (0 <? len)%Z 122 "len > 0" (
  ASSERT_STR_EQ "Hello, World!" (default (stack 1) buffer) 123 (
  call (hello_greeter_destroy greeter)))).

Definition test_greet_custom : P unit :=
  let config := mkConfig (Some "Test") (Some "Hi") false in
  let! greeter := call (hello_greeter_create (Some config)) in
  ASSERT_NOT_NULL greeter 136 (
  let! r := call (hello_greeter_greet greeter (Some (stack 2)) 128) in
  ASSERT_STR_EQ "Hi, Test!" (default (stack 2) (snd r)) 140 (
  call (hello_greeter_destroy greeter))).

Definition test_greet_uppercase : P unit :=
  let config := HELLO_GREETER_CONFIG_DEFAULT in
  let config :=
    mkConfig (config_name config) (config_greeting config) true in
  let! greeter := call (hello_greeter_create (Some config)) in
  ASSERT_NOT_NULL greeter 150 (
  let! r := call (hello_greeter_greet greeter (Some (stack 3)) 128) in
  ASSERT_STR_EQ "HELLO, WORLD!" (default (stack 3) (snd r)) 154 (
  call (hello_greeter_destroy greeter))).

Definition test_greet_null_greeter_fails : P unit :=
  let! r := call (hello_greeter_greet None (Some (stack 4)) 128) in
  let '(len, _) := r in
  ASSERT (len <? 0)%Z 162 "len < 0" (
  let! err := has_error in
  ASSERT err 163 "hello_has_error()" (
  pret tt)).

Definition test_greet_null_buffer_fails : P unit :=
  let! greeter := call (hello_greeter_create None) in
  ASSERT_NOT_NULL greeter 168 (
  let! r := call (hello_greeter_greet greeter None 0) in
  let '(len, _) := r in
  ASSERT (len <? 0)%Z 171 "len < 0" (
  let! err := has_error in
  ASSERT err 172 "hello_has_error()" (
  call (hello_greeter_destroy greeter)))).

(** *** Tests - Get/Set Name *)

Definition test_get_name : P unit :=
  let config := HELLO_GREETER_CONFIG_DEFAULT in
  let config :=
    mkConfig (Some "TestName") (config_greeting config)
      (config_uppercase config) in
  let! greeter := call (hello_greeter_create (Some config)) in
  ASSERT_NOT_NULL greeter 186 (
  let! p := call (hello_greeter_get_name greeter) in
  let! actual := deref p in
  ASSERT_STR_EQ "TestName" actual 187 (
  call (hello_greeter_destroy greeter))).

Definition test_get_name_null_greeter : P unit :=
  let! name := call (hello_greeter_get_name None) in
  ASSERT_NULL name 193 (
  let! err := has_error in
  ASSERT err 194 "hello_has_error()" (
  pret tt)).

Definition test_set_name : P unit :=
  let! greeter := call (hello_greeter_create None) in
  ASSERT_NOT_NULL greeter 199 (
  let! ok := call (hello_greeter_set_name greeter (Some "NewName")) in
  ASSERT ok 201
    ("hello_greeter_set_name(greeter, " +:+ DQ +:+ "NewName" +:+ DQ +:+ ")") (
  let! p := call (hello_greeter_get_name greeter) in
  let! actual := deref p in
  ASSERT_STR_EQ "NewName" actual 202 (
  call (hello_greeter_destroy greeter)))).

Definition test_set_name_empty_fails : P unit :=
  let! greeter := call (hello_greeter_create None) in
  ASSERT_NOT_NULL greeter 209 (
  let! ok := call (hello_greeter_set_name greeter (Some EmptyString)) in
  ASSERT (negb ok) 211
    ("!hello_greeter_set_name(greeter, " +:+ DQ +:+ DQ +:+ ")") (
  let! err := has_error in
  ASSERT err 212 "hello_has_error()" (
  (* Name should be unchanged *)
  let! p := call (hello_greeter_get_name greeter) in
  let! actual := deref p in
  ASSERT_STR_EQ "World" actual 215 (
  call (hello_greeter_destroy greeter))))).

(** *** Tests - Error Handling *)

Definition test_error_initially_clear : P unit :=
  clear_error;;;
  let! err := has_error in
  ASSERT (negb err) 226 "!hello_has_error()" (
  let! msg := get_last_error in
  ASSERT_STR_EQ EmptyString msg 227 (
  pret tt)).

Definition test_error_set_and_get : P unit :=
  call (set_error "Test error %d" [ArgD 42]);;;
  let! err := has_error in
  ASSERT err 232 "hello_has_error()" (
  let! msg := get_last_error in
  ASSERT_STR_EQ "Test error 42" msg 233 (
  pret tt)).

Definition test_error_clear : P unit :=
  call (set_error "Some error" []);;;
  let! err := has_error in
  ASSERT err 238 "hello_has_error()" (
  clear_error;;;
  let! err := has_error in
  ASSERT (negb err) 241 "!hello_has_error()" (
  pret tt)).

(** *** Tests - Utility *)

Definition test_version : P unit :=
  let version := Some hello_get_version in
  ASSERT_NOT_NULL version 250 (
  ASSERT (0 <? strlen hello_get_version)%N 251 "strlen(version) > 0" (
  pret tt)).

(** *** Main *)

Definition main : T Z :=
  within (printf ("Hello Library Tests" +:+ LF) []);;;
  within (printf ("====================" +:+ LF +:+ LF) []);;;

  within (printf ("Lifecycle tests:" +:+ LF) []);;;
  run_test test_create_default "create_default";;;
  run_test test_create_custom_name "create_custom_name";;;
  run_test test_create_empty_name_fails "create_empty_name_fails";;;
  run_test test_destroy_null_safe "destroy_null_safe";;;

  within (printf (LF +:+ "Greet tests:" +:+ LF) []);;;
  run_test test_greet_default "greet_default";;;
  run_test test_greet_custom "greet_custom";;;
  run_test test_greet_uppercase "greet_uppercase";;;
  run_test test_greet_null_greeter_fails "greet_null_greeter_fails";;;
  run_test test_greet_null_buffer_fails "greet_null_buffer_fails";;;

  within (printf (LF +:+ "Get/Set name tests:" +:+ LF) []);;;
  run_test test_get_name "get_name";;;
  run_test test_get_name_null_greeter "get_name_null_greeter";;;
  run_test test_set_name "set_name";;;
  run_test test_set_name_empty_fails "set_name_empty_fails";;;

  within (printf (LF +:+ "Error handling tests:" +:+ LF) []);;;
  run_test test_error_initially_clear "error_initially_clear";;;
  run_test test_error_set_and_get "error_set_and_get";;;
  run_test test_error_clear "error_clear";;;

  within (printf (LF +:+ "Utility tests:" +:+ LF) []);;;
  run_test test_version "version";;;

  within (printf (LF +:+ "====================" +:+ LF) []);;;
  let! passed := tests_passed in
  let! run := tests_run in
  within (printf "Results: %d/%d passed" [ArgD passed; ArgD run]);;;

  let! failed := count_failed in
  if (0 <? failed)%Z then
    within (printf (" (%d FAILED)" +:+ LF) [ArgD failed]);;;
    pret EXIT_FAILURE
  else
    within (printf LF []);;;
    pret EXIT_SUCCESS.

End Framework.

(** What [main] has printed when the first test starts. *)
Definition banner : string :=
  "Hello Library Tests" +:+ LF +:+
  "====================" +:+ LF +:+ LF +:+
  "Lifecycle tests:" +:+ LF.

(** The suite at program start. *)
Definition start (outcomes : list bool) : Suite :=
  mkSuite (mkProcess (initial_world outcomes) EmptyString EmptyString) 0 0 0.

(** What the tests print when no assertion fails. *)
Definition transcript : string :=
  "Hello Library Tests" +:+ LF +:+
  "====================" +:+ LF +:+ LF +:+
  "Lifecycle tests:" +:+ LF +:+
  "  create_default... OK" +:+ LF +:+
  "  create_custom_name... OK" +:+ LF +:+
  "  create_empty_name_fails... OK" +:+ LF +:+
  "  destroy_null_safe... OK" +:+ LF +:+ LF +:+
  "Greet tests:" +:+ LF +:+
  "  greet_default... OK" +:+ LF +:+
  "  greet_custom... OK" +:+ LF +:+
  "  greet_uppercase... OK" +:+ LF +:+
  "  greet_null_greeter_fails... OK" +:+ LF +:+
  "  greet_null_buffer_fails... OK" +:+ LF +:+ LF +:+
  "Get/Set name tests:" +:+ LF +:+
  "  get_name... OK" +:+ LF +:+
  "  get_name_null_greeter... OK" +:+ LF +:+
  "  set_name... OK" +:+ LF +:+
  "  set_name_empty_fails... OK" +:+ LF +:+ LF +:+
  "Error handling tests:" +:+ LF +:+
  "  error_initially_clear... OK" +:+ LF +:+
  "  error_set_and_get... OK" +:+ LF +:+
  "  error_clear... OK" +:+ LF +:+ LF +:+
  "Utility tests:" +:+ LF +:+
  "  version... OK" +:+ LF +:+ LF +:+
  "====================" +:+ LF +:+
  "Results: 17/17 passed" +:+ LF.

End TestMain.

(** ** Error messages *)

(** The message a caller reads after a call. *)
Definition last_error (w : World) : string :=
  c_str (fst (hello_get_last_error w)).

(** What [validate_name] reports about a name it rejects. *)
Definition name_error (name : option string) : string :=
  match name with
  | None => "Name cannot be NULL"
  | Some s =>
      if (strlen s =? 0)%N then "Name cannot be empty"
      else "Name too long (" +:+ string_of_size (strlen s)
             +:+ " chars, max 255)"
  end.

(** The message of each validation error. *)
Definition validation_message (o : operation) : string :=
  match o with
  | Create config => name_error (Some (requested_name config))
  | Destroy _ => EmptyString
  | Greet None _ _ => "greeter is NULL"
  | Greet (Some _) _ _ => "Invalid output buffer"
  | GetName _ => "greeter is NULL"
  | SetName None _ => "greeter is NULL"
  | SetName (Some _) name => name_error name
  end.

(** The name an operation validates, if any. *)
Definition validated_name (o : operation) : option string :=
  match o with
  | Create config => Some (requested_name config)
  | SetName (Some _) name => name
  | _ => None
  end.

(** What [create] reports when an allocation fails, from the answers the
    allocator gives to its requests. *)
Definition allocation_error (config : option Hello_GreeterConfig)
    (outcomes : list bool) : string :=
  match outcomes with
  | false :: _ => "Failed to allocate Hello_Greeter"
  | _ :: false :: _ =>
      "Failed to allocate string of length "
        +:+ string_of_size (strlen (requested_name config))
  | _ =>
      "Failed to allocate string of length "
        +:+ string_of_size (strlen (requested_greeting config))
  end.

(** The sample world when the next allocation request fails. *)
Definition out_of_memory : World :=
  mkWorld (g_error_buffer (sample_world false)) false
    (heap (sample_world false)) [false].

(** ** Running a program *)

(** [wp m s Q]: from [s] the program [m] returns, with a value and a state
    that satisfy [Q]. *)
Definition wp {S A} (m : Prog S A) (s : S) (Q : A -> S -> Prop) : Prop :=
  exists a s', m s = Some (a, s') /\ Q a s'.

(** [q] has printed what [p] has, and maybe more. *)
Definition extends (p q : Process) : Prop :=
  exists t, stdout q = stdout p +:+ t.

(** A test is sound when it returns from every state of the process, having
    at most printed something. *)
Definition sound (m : P unit) : Prop :=
  forall p, wp m p (fun _ p' => extends p p').

(** * Properties *)

(** ** Bytes and C strings *)

Section CStrFacts.

Implicit Types (m s t : string) (c : ascii) (n k : nat).

Lemma length_app s t :
  String.length (s +:+ t) = String.length s + String.length t.
Proof. induction s as [|c s IH]; simpl; [reflexivity | now rewrite IH]. Qed.

Lemma app_empty_r s : s +:+ EmptyString = s.
Proof. induction s as [|c s IH]; simpl; [reflexivity | now rewrite IH]. Qed.

Lemma app_assoc s t m : (s +:+ t) +:+ m = s +:+ (t +:+ m).
Proof. induction s as [|c s IH]; simpl; [reflexivity | now rewrite IH]. Qed.

Lemma length_take n s : String.length (take n s) = Nat.min n (String.length s).
Proof.
  revert s; induction n as [|n IH]; intros [|c s]; simpl; try reflexivity.
  now rewrite IH.
Qed.

Lemma length_drop n s : String.length (drop n s) = String.length s - n.
Proof.
  revert s; induction n as [|n IH]; intros [|c s]; simpl; try reflexivity.
  apply IH.
Qed.

Lemma take_all n s : String.length s <= n -> take n s = s.
Proof.
  revert s; induction n as [|n IH]; intros [|c s]; simpl; intros H;
    try reflexivity; try lia.
  rewrite IH; [reflexivity | lia].
Qed.

Lemma drop_all n s : String.length s <= n -> drop n s = EmptyString.
Proof.
  revert s; induction n as [|n IH]; intros [|c s]; simpl; intros H;
    try reflexivity; try lia.
  apply IH; lia.
Qed.


Lemma length_repeat c n : String.length (repeat c n) = n.
Proof. induction n as [|n IH]; simpl; [reflexivity | now rewrite IH]. Qed.

Lemma length_store_bytes m data :
  String.length data <= String.length m ->
  String.length (store_bytes m data) = String.length m.
Proof.
  intros H. unfold store_bytes. rewrite length_app, length_drop. lia.
Qed.

Lemma drop_empty n : drop n EmptyString = EmptyString.
Proof. now destruct n. Qed.

(** The bytes after the written ones are untouched. *)
Lemma drop_store_bytes m data n :
  String.length data <= n ->
  drop n (store_bytes m data) = drop n m.
Proof.
  unfold store_bytes. revert m n.
  induction data as [|c data IH]; intros m n H; simpl in *.
  - reflexivity.
  - destruct n as [|n]; [lia|]. simpl.
    destruct m as [|c' m]; simpl.
    + rewrite app_empty_r. apply drop_all. lia.
    + apply IH. lia.
Qed.

Lemma c_str_nul_free m : nul_free (c_str m).
Proof.
  unfold nul_free. induction m as [|c m IH]; simpl; [reflexivity|].
  destruct (is_nul c) eqn:E; simpl; [reflexivity|]. now rewrite E, IH.
Qed.

Lemma nul_free_app s t : nul_free s -> nul_free t -> nul_free (s +:+ t).
Proof.
  unfold nul_free. induction s as [|c s IH]; simpl; intros Hs Ht; [exact Ht|].
  destruct (is_nul c); [discriminate|].
  injection Hs as Hs. now rewrite IH.
Qed.

Lemma nul_free_take n s : nul_free s -> nul_free (take n s).
Proof.
  unfold nul_free. revert s; induction n as [|n IH]; intros [|c s]; simpl;
    intros Hs; try reflexivity.
  destruct (is_nul c); [discriminate|].
  injection Hs as Hs. now rewrite IH.
Qed.

Lemma nul_free_repeat c n : is_nul c = false -> nul_free (repeat c n).
Proof.
  intros Hc. unfold nul_free.
  induction n as [|n IH]; simpl; [reflexivity | now rewrite Hc, IH].
Qed.

(** Reading back a NUL-free text stored with its terminator. *)
Lemma c_str_terminated s m :
  nul_free s -> c_str (s +:+ String NUL m) = s.
Proof.
  unfold nul_free. induction s as [|c s IH]; simpl; intros Hs; [reflexivity|].
  destruct (is_nul c); [discriminate|].
  injection Hs as Hs. now rewrite IH.
Qed.

(** A C string that ends inside its region is followed by its terminator. *)
Lemma get_c_str_length m :
  String.length (c_str m) < String.length m ->
  String.get (String.length (c_str m)) m = Some NUL.
Proof.
  induction m as [|c m IH]; simpl; [lia|].
  destruct (is_nul c) eqn:E; simpl.
  - intros _. unfold is_nul in E. apply Ascii.eqb_eq in E. now subst c.
  - intros H. apply IH. lia.
Qed.

Lemma take_strlen_terminated m :
  take (String.length (c_str m) + 1) (m +:+ String NUL EmptyString)
  = c_str m +:+ String NUL EmptyString.
Proof.
  induction m as [|c m IH]; simpl; [reflexivity|].
  destruct (is_nul c) eqn:E; simpl.
  - unfold is_nul in E. apply Ascii.eqb_eq in E. now subst c.
  - now rewrite IH.
Qed.

Lemma is_nul_toupper c : is_nul (toupper c) = is_nul c.
Proof. destruct c as [[] [] [] [] [] [] [] []]; reflexivity. Qed.

Lemma c_str_str_to_upper_loop m :
  c_str (str_to_upper_loop m) = upper (c_str m).
Proof.
  induction m as [|c m IH]; simpl; [reflexivity|].
  destruct (is_nul c) eqn:E; simpl.
  - now rewrite E.
  - now rewrite is_nul_toupper, E, IH.
Qed.

Lemma length_str_to_upper_loop m :
  String.length (str_to_upper_loop m) = String.length m.
Proof.
  induction m as [|c m IH]; simpl; [reflexivity|].
  destruct (is_nul c); simpl; [reflexivity | now rewrite IH].
Qed.

(** [str_to_upper] leaves the terminator and what follows it alone. *)
Lemma drop_str_to_upper_loop m k :
  String.length (c_str m) <= k -> drop k (str_to_upper_loop m) = drop k m.
Proof.
  revert k; induction m as [|c m IH]; intros k; simpl; [reflexivity|].
  destruct (is_nul c); simpl; [reflexivity|].
  destruct k as [|k]; [lia|]. simpl. intros H. apply IH. lia.
Qed.

Lemma length_upper s : String.length (upper s) = String.length s.
Proof. induction s as [|c s IH]; simpl; [reflexivity | now rewrite IH]. Qed.

Lemma upper_take n s : upper (take n s) = take n (upper s).
Proof.
  revert s; induction n as [|n IH]; intros [|c s]; simpl; try reflexivity.
  now rewrite IH.
Qed.

(** [malloc(len + 1)] followed by [memcpy(copy, str, len + 1)]. *)
Lemma memcpy_fresh_block str :
  memcpy (repeat NUL (N.to_nat (strlen str + 1))) str (strlen str + 1)
  = c_str str +:+ String NUL EmptyString.
Proof.
  unfold memcpy, strlen, store_bytes.
  replace (N.to_nat (N.of_nat (String.length (c_str str)) + 1))
    with (String.length (c_str str) + 1) by lia.
  rewrite take_strlen_terminated, drop_all, app_empty_r; [reflexivity|].
  rewrite length_repeat, length_app. simpl. lia.
Qed.

End CStrFacts.

(** ** Formatted output *)

Example render_test_error :
  render "Test error %d" [ArgD 42] = "Test error 42".
Proof. reflexivity. Qed.

Example render_name_too_long :
  render "Name too long (%zu chars, max %d)" [ArgZu 300; ArgD 255]
  = "Name too long (300 chars, max 255)".
Proof. reflexivity. Qed.

Lemma render_greeting mg mn :
  render "%s, %s!" [ArgS mg; ArgS mn] = greeting_text (c_str mg) (c_str mn).
Proof. reflexivity. Qed.

Lemma length_greeting_text gr nm :
  String.length (greeting_text gr nm)
  = String.length gr + String.length nm + 3.
Proof.
  unfold greeting_text. rewrite length_app. simpl. rewrite length_app.
  simpl. lia.
Qed.

Lemma nul_free_greeting_text gr nm :
  nul_free gr -> nul_free nm -> nul_free (greeting_text gr nm).
Proof.
  intros Hg Hn. unfold greeting_text.
  apply nul_free_app; [exact Hg|].
  apply (nul_free_app ", "); [reflexivity|].
  apply nul_free_app; [exact Hn | reflexivity].
Qed.

Lemma snprintf_overflow buf n fmt args :
  (INT_MAX < Z.of_nat (String.length (render fmt args)))%Z ->
  snprintf buf n fmt args
  = ((-1)%Z,
     if (n =? 0)%N then buf
     else
       store_bytes buf
         (take (Nat.min (N.to_nat n - 1)
                  (String.length (emit (pieces fmt args) 0)))
            (emit (pieces fmt args) 0) +:+ String NUL EmptyString)).
Proof.
  intros H. unfold snprintf.
  destruct (Z.ltb_spec INT_MAX (Z.of_nat (String.length (render fmt args))));
    [reflexivity | lia].
Qed.

Lemma snprintf_fits buf n fmt args :
  (Z.of_nat (String.length (render fmt args)) <= INT_MAX)%Z ->
  (0 < n)%N ->
  snprintf buf n fmt args
  = (Z.of_nat (String.length (render fmt args)),
     store_bytes buf
       (take (Nat.min (N.to_nat n - 1) (String.length (render fmt args)))
          (render fmt args) +:+ String NUL EmptyString)).
Proof.
  intros H Hn. unfold snprintf.
  destruct (Z.ltb_spec INT_MAX (Z.of_nat (String.length (render fmt args))));
    [lia|].
  destruct (N.eqb_spec n 0); [lia | reflexivity].
Qed.

(** The pieces and the rendering. *)
Lemma all_text_literal c ps :
  all_text (literal c ps) = String c (all_text ps).
Proof. destruct ps as [|[s|s] ps]; reflexivity. Qed.

Lemma all_text_app ps qs :
  all_text (ps ++ qs) = all_text ps +:+ all_text qs.
Proof.
  induction ps as [|p ps IH]; simpl; [reflexivity|].
  now rewrite IH, app_assoc.
Qed.

Lemma all_text_int_pieces d : all_text (int_pieces d) = string_of_int d.
Proof.
  unfold int_pieces, string_of_int.
  destruct d as [|p|p]; simpl; now rewrite ?app_empty_r.
Qed.

(** The pieces put together are the rendering. *)
Lemma pieces_render_bounded n : forall fmt args,
  String.length fmt <= n -> all_text (pieces fmt args) = render fmt args.
Proof.
  induction n as [|n IH]; intros fmt args Hlen.
  - destruct fmt; [reflexivity | simpl in Hlen; lia].
  - destruct fmt as [|c rest]; [reflexivity|]. simpl in Hlen.
    assert (Hplain : all_text (literal c (pieces rest args))
                     = String c (render rest args))
      by (rewrite all_text_literal, IH by lia; reflexivity).
    destruct c as [[] [] [] [] [] [] [] []]; try exact Hplain.
    destruct rest as [|c2 rest2]; [exact Hplain|]. simpl in Hlen.
    assert (Hskip : forall a, all_text (pieces rest2 a) = render rest2 a)
      by (intros a; apply IH; lia).
    destruct c2 as [[] [] [] [] [] [] [] []]; try exact Hplain.
    all: try solve
      [ simpl; destruct args as [|[s|d|k] args']; try apply Hskip;
        first [ rewrite all_text_app, all_text_int_pieces, Hskip; reflexivity
              | simpl; rewrite Hskip; reflexivity ] ].
    destruct rest2 as [|c3 rest3]; [exact Hplain|]. simpl in Hlen.
    assert (Hskip3 : forall a, all_text (pieces rest3 a) = render rest3 a)
      by (intros a; apply IH; lia).
    destruct c3 as [[] [] [] [] [] [] [] []]; try exact Hplain.
    simpl. destruct args as [|[s|d|k] args']; try apply Hskip3.
    simpl. now rewrite Hskip3.
Qed.

Lemma pieces_render fmt args : all_text (pieces fmt args) = render fmt args.
Proof. now apply (pieces_render_bounded (String.length fmt)). Qed.

(** Without overflow everything is produced. *)
Lemma emit_all ps : forall done,
  (done + Z.of_nat (String.length (all_text ps)) <= INT_MAX)%Z ->
  emit ps done = all_text ps.
Proof.
  induction ps as [|p ps IH]; intros done H; [reflexivity|].
  change (all_text (p :: ps)) with (piece_text p +:+ all_text ps) in *.
  cbn [emit]. rewrite length_app in H.
  destruct (Z.ltb_spec INT_MAX
              (done + Z.of_nat (String.length (piece_text p)))); [lia|].
  rewrite IH by lia. reflexivity.
Qed.

(** What is produced is a prefix of the rendering, and on overflow it is
    longer than [INT_MAX] allows. *)
Lemma emit_prefix ps : forall done,
  exists t, all_text ps = emit ps done +:+ t.
Proof.
  induction ps as [|p ps IH]; intros done; [now exists EmptyString|].
  change (all_text (p :: ps)) with (piece_text p +:+ all_text ps).
  cbn [emit].
  destruct (INT_MAX <? _)%Z.
  - exists (all_text ps). now rewrite app_empty_r.
  - destruct (IH (done + Z.of_nat (String.length (piece_text p)))%Z)
      as (t & Ht).
    exists t. now rewrite Ht, app_assoc.
Qed.

Lemma emit_overflows ps : forall done,
  (INT_MAX < done + Z.of_nat (String.length (all_text ps)))%Z ->
  (INT_MAX < done + Z.of_nat (String.length (emit ps done)))%Z.
Proof.
  induction ps as [|p ps IH]; intros done H; [exact H|].
  change (all_text (p :: ps)) with (piece_text p +:+ all_text ps) in *.
  cbn [emit]. rewrite length_app in *.
  destruct (Z.ltb_spec INT_MAX
              (done + Z.of_nat (String.length (piece_text p)))) as [L|L].
  - simpl String.length. lia.
  - specialize (IH (done + Z.of_nat (String.length (piece_text p)))%Z). lia.
Qed.

Lemma take_app_le k s t :
  k <= String.length s -> take k (s +:+ t) = take k s.
Proof.
  revert s; induction k as [|k IH]; intros [|c s] H; simpl in *;
    try reflexivity; try lia.
  rewrite IH by lia. reflexivity.
Qed.

(** With a buffer of at most 2^31 bytes, a call that fails leaves the first
    [n - 1] bytes of the rendering and a terminator. *)
Lemma snprintf_overflow_bounded buf n fmt args :
  (INT_MAX < Z.of_nat (String.length (render fmt args)))%Z ->
  (0 < n <= 2147483648)%N ->
  snprintf buf n fmt args
  = ((-1)%Z,
     store_bytes buf
       (take (N.to_nat n - 1) (render fmt args) +:+ String NUL EmptyString)).
Proof.
  intros Hbig Hn. rewrite snprintf_overflow by exact Hbig.
  destruct (N.eqb_spec n 0) as [|_]; [lia|].
  destruct (emit_prefix (pieces fmt args) 0) as (t & Ht).
  pose proof (emit_overflows (pieces fmt args) 0) as He.
  rewrite pieces_render in Ht, He. specialize (He ltac:(lia)).
  unfold INT_MAX in *.
  rewrite Nat.min_l by lia.
  rewrite Ht, take_app_le by lia. reflexivity.
Qed.

(** What the caller reads back after a bounded write of a NUL-free text. *)
Lemma c_str_store_prefix buf k s :
  nul_free s ->
  c_str (store_bytes buf (take k s +:+ String NUL EmptyString)) = take k s.
Proof.
  intros Hs. unfold store_bytes. rewrite app_assoc. simpl.
  apply c_str_terminated, nul_free_take, Hs.
Qed.

(** ** The error channel *)

Section ErrorChannelFacts.

Variables (fmt : string) (args : list fmt_arg) (w : World).

Lemma has_error_set_error : g_has_error (hello_set_error fmt args w) = true.
Proof.
  unfold hello_set_error. now destruct (snprintf _ _ _ _).
Qed.

Lemma heap_set_error : heap (hello_set_error fmt args w) = heap w.
Proof.
  unfold hello_set_error. now destruct (snprintf _ _ _ _).
Qed.

Lemma outcomes_set_error :
  alloc_outcomes (hello_set_error fmt args w) = alloc_outcomes w.
Proof.
  unfold hello_set_error. now destruct (snprintf _ _ _ _).
Qed.

End ErrorChannelFacts.

(** The message [hello_set_error] stores: the rendering, cut to what the
    error buffer holds. *)
Lemma set_error_message fmt args w :
  nul_free (render fmt args) ->
  (Z.of_nat (String.length (render fmt args)) <= INT_MAX)%Z ->
  g_has_error (hello_set_error fmt args w) = true
  /\ c_str (fst (hello_get_last_error (hello_set_error fmt args w)))
     = take (N.to_nat ERROR_BUFFER_SIZE - 1) (render fmt args).
Proof.
  intros Hnf Hfit. unfold hello_get_last_error, hello_set_error.
  rewrite snprintf_fits by (assumption || reflexivity).
  cbn [g_has_error g_error_buffer fst]. split; [reflexivity|].
  rewrite c_str_store_prefix by exact Hnf.
  destruct (Nat.le_ge_cases (N.to_nat ERROR_BUFFER_SIZE - 1)
              (String.length (render fmt args))) as [H|H].
  - now rewrite Nat.min_l.
  - rewrite Nat.min_r by exact H.
    rewrite !take_all; [reflexivity | exact H | reflexivity].
Qed.

Example error_set_and_get w :
  c_str (fst (hello_get_last_error (hello_set_error "Test error %d" [ArgD 42] w)))
  = "Test error 42".
Proof. now apply set_error_message. Qed.

(** ** Live greeters *)

Lemma greeter_view_inv w g nm gr up :
  greeter_view w g = Some (nm, gr, up) ->
  exists pn pg mn mg,
    heap w !! g = Some (Obj (mkGreeter (Some pn) (Some pg) up))
    /\ pn <> pg
    /\ heap w !! pn = Some (Chars mn)
    /\ heap w !! pg = Some (Chars mg)
    /\ nm = c_str mn /\ gr = c_str mg.
Proof.
  unfold greeter_view. intros H.
  destruct (heap w !! g) as [[|[[pn|] [pg|] u]]|] eqn:Hg; try discriminate.
  destruct (decide (pn = pg)) as [|Hne]; [discriminate|].
  destruct (heap w !! pn) as [[mn|]|] eqn:Hn; try discriminate.
  destruct (heap w !! pg) as [[mg|]|] eqn:Hp; try discriminate.
  injection H as <- <- <-. now exists pn, pg, mn, mg.
Qed.

Lemma greeter_view_intro w g pn pg mn mg up :
  heap w !! g = Some (Obj (mkGreeter (Some pn) (Some pg) up)) ->
  pn <> pg ->
  heap w !! pn = Some (Chars mn) ->
  heap w !! pg = Some (Chars mg) ->
  greeter_view w g = Some (c_str mn, c_str mg, up).
Proof.
  intros Hg Hne Hn Hp. unfold greeter_view. rewrite Hg.
  destruct (decide (pn = pg)); [contradiction|]. now rewrite Hn, Hp.
Qed.

(** The strings of a live greeter are NUL-free. *)
Lemma greeter_view_nul_free w g nm gr up :
  greeter_view w g = Some (nm, gr, up) -> nul_free nm /\ nul_free gr.
Proof.
  intros (pn & pg & mn & mg & _ & _ & _ & _ & -> & ->)%greeter_view_inv.
  split; apply c_str_nul_free.
Qed.

(** What a handle shows depends on the heap alone. *)
Lemma greeter_view_heap w w' g :
  heap w' = heap w -> greeter_view w' g = greeter_view w g.
Proof. unfold greeter_view. now intros ->. Qed.

Lemma string_at_heap w w' p :
  heap w' = heap w -> string_at w' p = string_at w p.
Proof. unfold string_at. now intros ->. Qed.

(** ** greet *)

Lemma greet_unfold w g pn pg mn mg up buf c :
  heap w !! g = Some (Obj (mkGreeter (Some pn) (Some pg) up)) ->
  heap w !! pn = Some (Chars mn) ->
  heap w !! pg = Some (Chars mg) ->
  (0 < c)%N ->
  hello_greeter_greet (Some g) (Some buf) c w
  = let '(written, b) := snprintf buf c "%s, %s!" [ArgS mg; ArgS mn] in
    if (written <? 0)%Z then
      Some ((-1)%Z, Some b, hello_set_error "Formatting failed" [] w)
    else
      Some (written,
            if up then str_to_upper (Some b) else Some b,
            if (c <=? Z.to_N written)%N then report_shortfall written c w
            else w).
Proof.
  intros Hg Hn Hp Hc. unfold hello_greeter_greet.
  destruct (N.eqb_spec c 0) as [|_]; [lia|].
  unfold bind, load_greeter, load_chars. rewrite Hg. simpl.
  rewrite Hp, Hn.
  destruct (snprintf buf c "%s, %s!" [ArgS mg; ArgS mn]) as [written b].
  destruct (written <? 0)%Z; [reflexivity|].
  unfold report_shortfall, set_error, ret.
  destruct (c <=? Z.to_N written)%N; reflexivity.
Qed.

(** [greet] on a live greeter whose formatted text fits an [int]: the
    result, the buffer handed back and the world. *)
Lemma greet_formats w g nm gr up buf c :
  greeter_view w g = Some (nm, gr, up) ->
  (0 < c)%N ->
  (Z.of_nat (String.length (greeting_text gr nm)) <= INT_MAX)%Z ->
  exists buf',
    hello_greeter_greet (Some g) (Some buf) c w
    = Some (Z.of_nat (String.length (greeting_text gr nm)), Some buf',
            if (c <=? N.of_nat (String.length (greeting_text gr nm)))%N
            then report_shortfall
                   (Z.of_nat (String.length (greeting_text gr nm))) c w
            else w)
    /\ c_str buf'
       = shown up
           (take (Nat.min (N.to_nat c - 1)
                    (String.length (greeting_text gr nm)))
              (greeting_text gr nm))
    /\ (forall k, N.to_nat c <= k -> drop k buf' = drop k buf)
    /\ (N.to_nat c <= String.length buf ->
        String.length buf' = String.length buf).
Proof.
  intros Hv Hc Hfit.
  destruct (greeter_view_inv _ _ _ _ _ Hv)
    as (pn & pg & mn & mg & Hg & _ & Hn & Hp & -> & ->).
  rewrite (greet_unfold _ _ _ _ _ _ _ _ _ Hg Hn Hp Hc).
  rewrite snprintf_fits by (rewrite ?render_greeting; assumption).
  rewrite render_greeting.
  set (s := greeting_text (c_str mg) (c_str mn)) in *.
  set (k := Nat.min (N.to_nat c - 1) (String.length s)).
  assert (Hs : nul_free s)
    by (apply nul_free_greeting_text; apply c_str_nul_free).
  assert (Hk : String.length (take k s +:+ String NUL EmptyString)
               <= N.to_nat c).
  { rewrite length_app, length_take. simpl. lia. }
  destruct (Z.ltb_spec (Z.of_nat (String.length s)) 0); [lia|].
  replace (Z.to_N (Z.of_nat (String.length s)))
    with (N.of_nat (String.length s)) by lia.
  destruct up; simpl.
  - eexists; split; [reflexivity|]. split; [|split].
    + rewrite c_str_str_to_upper_loop. f_equal.
      now apply c_str_store_prefix.
    + intros j Hj. rewrite drop_str_to_upper_loop.
      * apply drop_store_bytes. lia.
      * rewrite c_str_store_prefix, length_take by exact Hs. lia.
    + intros Hlen. rewrite length_str_to_upper_loop.
      apply length_store_bytes. lia.
  - eexists; split; [reflexivity|]. split; [|split].
    + now apply c_str_store_prefix.
    + intros j Hj. apply drop_store_bytes. lia.
    + intros Hlen. apply length_store_bytes. lia.
Qed.

(** [greet] on a live greeter whose formatted text does not fit an [int]:
    the formatting fails. *)
Lemma greet_overflows w g nm gr up buf c :
  greeter_view w g = Some (nm, gr, up) ->
  (0 < c)%N ->
  (INT_MAX < Z.of_nat (String.length (greeting_text gr nm)))%Z ->
  hello_greeter_greet (Some g) (Some buf) c w
  = Some ((-1)%Z,
          Some (store_bytes buf
                  (take (Nat.min (N.to_nat c - 1)
                           (String.length (failed_text gr nm)))
                     (failed_text gr nm) +:+ String NUL EmptyString)),
          hello_set_error "Formatting failed" [] w).
Proof.
  intros Hv Hc Hbig.
  destruct (greeter_view_inv _ _ _ _ _ Hv)
    as (pn & pg & mn & mg & Hg & _ & Hn & Hp & -> & ->).
  rewrite (greet_unfold _ _ _ _ _ _ _ _ _ Hg Hn Hp Hc).
  rewrite snprintf_overflow by (rewrite render_greeting; assumption).
  destruct (N.eqb_spec c 0) as [E|_]; [lia|]. reflexivity.
Qed.

(** ** Allocation *)

Lemma alloc_fails init w :
  next_alloc_ok w = false -> alloc init w = Some (None, advance w).
Proof.
  unfold next_alloc_ok, alloc, advance.
  destruct (alloc_outcomes w) as [|[] rest]; intros H;
    try discriminate; reflexivity.
Qed.

Lemma alloc_succeeds init w :
  next_alloc_ok w = true ->
  alloc init w
  = Some (Some (fresh (dom (heap w))),
          with_heap (<[fresh (dom (heap w)) := init]> (heap w)) (advance w)).
Proof.
  unfold next_alloc_ok, alloc, advance, with_heap.
  destruct (alloc_outcomes w) as [|[] rest]; intros H;
    try discriminate; reflexivity.
Qed.

Lemma fresh_not_live (h : gmap positive block) : h !! fresh (dom h) = None.
Proof. apply not_elem_of_dom, is_fresh. Qed.

Lemma safe_strdup_fails s w :
  next_alloc_ok w = false ->
  safe_strdup (Some s) w
  = Some (None,
          hello_set_error "Failed to allocate string of length %zu"
            [ArgZu (strlen s)] (advance w)).
Proof.
  intros H. unfold safe_strdup, malloc, bind.
  rewrite alloc_fails by exact H. reflexivity.
Qed.

Lemma safe_strdup_succeeds s w :
  next_alloc_ok w = true ->
  safe_strdup (Some s) w
  = Some (Some (fresh (dom (heap w))),
          with_heap
            (<[fresh (dom (heap w))
               := Chars (c_str s +:+ String NUL EmptyString)]> (heap w))
            (advance w)).
Proof.
  intros H. unfold safe_strdup, malloc, bind.
  rewrite alloc_succeeds by exact H.
  unfold load_chars, store, with_heap, advance, ret. simpl.
  rewrite lookup_insert_eq. simpl.
  rewrite lookup_insert_eq, insert_insert_eq, memcpy_fresh_block.
  reflexivity.
Qed.

(** ** Name validation *)

Lemma validate_name_accepts s w :
  valid_name s = true -> validate_name (Some s) w = Some (true, w).
Proof.
  unfold valid_name, validate_name. intros [H0 H1]%andb_true_iff.
  apply N.ltb_lt in H0, H1.
  destruct (N.eqb_spec (strlen s) 0); [lia|].
  destruct (N.leb_spec MAX_NAME_LENGTH (strlen s)); [lia | reflexivity].
Qed.

Lemma validate_name_rejects s w :
  valid_name s = false ->
  exists fmt args,
    validate_name (Some s) w = Some (false, hello_set_error fmt args w).
Proof.
  unfold valid_name, validate_name. intros H.
  destruct (N.eqb_spec (strlen s) 0) as [E|E].
  - now eexists _, _.
  - destruct (N.leb_spec MAX_NAME_LENGTH (strlen s)) as [L|L].
    + now eexists _, _.
    + apply andb_false_iff in H as [H|H];
        [apply N.ltb_ge in H | apply N.ltb_ge in H]; lia.
Qed.

Lemma validate_name_null w :
  validate_name None w
  = Some (false, hello_set_error "Name cannot be NULL" [] w).
Proof. reflexivity. Qed.

(** A valid name is a non-empty C string shorter than the bound. *)
Lemma valid_name_bounds s :
  valid_name s = true ->
  c_str s <> EmptyString
  /\ (N.of_nat (String.length (c_str s)) < MAX_NAME_LENGTH)%N.
Proof.
  unfold valid_name, strlen. intros [H0 H1]%andb_true_iff.
  apply N.ltb_lt in H0, H1. split; [|exact H1].
  intros E. rewrite E in H0. simpl in H0. lia.
Qed.

(** ** create *)

Lemma allocs_ok_next n w :
  allocs_ok (S n) (alloc_outcomes w) = true ->
  next_alloc_ok w = true /\ allocs_ok n (alloc_outcomes (advance w)) = true.
Proof.
  unfold next_alloc_ok, advance. simpl.
  destruct (alloc_outcomes w) as [|[] rest]; simpl; intros H;
    try discriminate; split; try reflexivity; try exact H.
  now destruct n.
Qed.

Lemma create_rejects config w :
  valid_name (requested_name config) = false ->
  exists fmt args,
    hello_greeter_create config w
    = Some (None, hello_set_error fmt args w).
Proof.
  intros H.
  destruct (validate_name_rejects _ w H) as (fmt & args & E).
  exists fmt, args. unfold hello_greeter_create, bind.
  change (match config_name match config with Some c => c | None => HELLO_GREETER_CONFIG_DEFAULT end with Some n => n | None => "World" end) with (requested_name config).
  rewrite E. reflexivity.
Qed.

Lemma store_live a b w :
  is_Some (heap w !! a) ->
  store a b w = Some (tt, with_heap (<[a := b]> (heap w)) w).
Proof. intros [b0 H]. unfold store. now rewrite H. Qed.

Lemma free_live a w :
  is_Some (heap w !! a) ->
  free (Some a) w = Some (tt, with_heap (delete a (heap w)) w).
Proof. intros [b0 H]. unfold free. now rewrite H. Qed.

Ltac world_simpl :=
  unfold with_heap, advance;
  cbn [heap g_error_buffer g_has_error alloc_outcomes];
  rewrite ?heap_set_error, ?has_error_set_error, ?outcomes_set_error;
  cbn [heap g_error_buffer g_has_error alloc_outcomes].

Ltac step := cbv beta iota; world_simpl.

(** Equality of heaps built from inserts and deletes, by lookups. *)
Ltac heap_eq :=
  apply map_eq; intros ?;
  repeat (rewrite lookup_insert || rewrite lookup_delete);
  repeat case_decide; subst; congruence.

Lemma create_succeeds config w :
  valid_name (requested_name config) = true ->
  allocs_ok 3 (alloc_outcomes w) = true ->
  exists g pn pg,
    hello_greeter_create config w
    = Some (Some g,
            mkWorld (g_error_buffer w) (g_has_error w)
              (<[g := Obj (mkGreeter (Some pn) (Some pg)
                             (requested_uppercase config))]>
                 (<[pg := Chars (c_str (requested_greeting config)
                                   +:+ String NUL EmptyString)]>
                    (<[pn := Chars (c_str (requested_name config)
                                      +:+ String NUL EmptyString)]>
                       (heap w))))
              (tail (tail (tail (alloc_outcomes w)))))
    /\ heap w !! g = None /\ heap w !! pn = None /\ heap w !! pg = None
    /\ g <> pn /\ g <> pg /\ pn <> pg.
Proof.
  intros Hv Ha.
  apply allocs_ok_next in Ha as [A1 Ha].
  apply allocs_ok_next in Ha as [A2 Ha].
  apply allocs_ok_next in Ha as [A3 _].
  unfold hello_greeter_create, bind.
  change (match config_name match config with Some c => c | None => HELLO_GREETER_CONFIG_DEFAULT end with Some n => n | None => "World" end) with (requested_name config).
  change (match config_greeting match config with Some c => c | None => HELLO_GREETER_CONFIG_DEFAULT end with Some n => n | None => "Hello" end) with (requested_greeting config).
  change (config_uppercase match config with Some c => c | None => HELLO_GREETER_CONFIG_DEFAULT end) with (requested_uppercase config).
  rewrite validate_name_accepts by exact Hv. simpl (negb _). step.
  unfold calloc_greeter. rewrite alloc_succeeds by exact A1. step.
  set (h0 := heap w).
  set (g := fresh (dom h0)).
  set (h1 := <[g := Obj (mkGreeter None None false)]> h0).
  rewrite safe_strdup_succeeds by exact A2. step.
  set (pn := fresh (dom h1)).
  set (h2 := <[pn := _]> h1).
  assert (Hg : h0 !! g = None) by apply fresh_not_live.
  assert (Hpn1 : h1 !! pn = None) by apply fresh_not_live.
  assert (Hgpn : g <> pn).
  { intros E. rewrite <- E in Hpn1. unfold h1 in Hpn1.
    rewrite lookup_insert_eq in Hpn1. discriminate. }
  assert (Hpn : h0 !! pn = None).
  { unfold h1 in Hpn1. now rewrite lookup_insert_ne in Hpn1. }
  rewrite store_live
    by (world_simpl; unfold h2, h1;
        rewrite lookup_insert_ne, lookup_insert_eq; eauto).
  step.
  set (h3 := <[g := _]> h2).
  rewrite safe_strdup_succeeds by exact A3. step.
  set (pg := fresh (dom h3)).
  set (h4 := <[pg := _]> h3).
  assert (Hpg3 : h3 !! pg = None) by apply fresh_not_live.
  assert (Hgpg : g <> pg).
  { intros E. rewrite <- E in Hpg3. unfold h3 in Hpg3.
    rewrite lookup_insert_eq in Hpg3. discriminate. }
  assert (Hpnpg : pn <> pg).
  { intros E. rewrite <- E in Hpg3. unfold h3, h2 in Hpg3.
    rewrite lookup_insert_ne, lookup_insert_eq in Hpg3 by congruence.
    discriminate. }
  assert (Hpg : h0 !! pg = None).
  { unfold h3, h2, h1 in Hpg3.
    now rewrite !lookup_insert_ne in Hpg3 by congruence. }
  rewrite store_live
    by (world_simpl; unfold h4, h3;
        rewrite lookup_insert_ne, lookup_insert_eq; eauto).
  step.
  rewrite store_live by (world_simpl; rewrite lookup_insert_eq; eauto).
  step. unfold ret.
  exists g, pn, pg. split; [|tauto].
  do 2 f_equal. f_equal.
  unfold h4, h3, h2, h1. clear. heap_eq.
Qed.

(** When an allocation fails, [create] gives everything back and reports
    the failure. *)
Lemma create_alloc_fails config w :
  valid_name (requested_name config) = true ->
  allocs_ok 3 (alloc_outcomes w) = false ->
  exists w',
    hello_greeter_create config w = Some (None, w')
    /\ heap w' = heap w /\ g_has_error w' = true.
Proof.
  intros Hv Ha.
  unfold hello_greeter_create, bind.
  change (match config_name match config with Some c => c | None => HELLO_GREETER_CONFIG_DEFAULT end with Some n => n | None => "World" end) with (requested_name config).
  change (match config_greeting match config with Some c => c | None => HELLO_GREETER_CONFIG_DEFAULT end with Some n => n | None => "Hello" end) with (requested_greeting config).
  rewrite validate_name_accepts by exact Hv. simpl (negb _). step.
  unfold calloc_greeter.
  destruct (next_alloc_ok w) eqn:A1.
  2:{ rewrite alloc_fails by exact A1. step. unfold set_error, ret.
      eexists; split; [reflexivity|]. now world_simpl. }
  rewrite alloc_succeeds by exact A1. step.
  set (h0 := heap w).
  set (g := fresh (dom h0)).
  set (h1 := <[g := Obj (mkGreeter None None false)]> h0).
  assert (Hg : h0 !! g = None) by apply fresh_not_live.
  destruct (next_alloc_ok (advance w)) eqn:A2.
  2:{ rewrite safe_strdup_fails by exact A2. step.
      rewrite store_live
        by (world_simpl; unfold h1; rewrite lookup_insert_eq; eauto).
      step.
      rewrite free_live by (world_simpl; rewrite lookup_insert_eq; eauto).
      step. unfold ret. eexists; split; [reflexivity|].
      world_simpl. split; [|reflexivity].
      unfold h1. rewrite delete_insert_eq, delete_insert_eq.
      now apply delete_id. }
  rewrite safe_strdup_succeeds by exact A2. step.
  set (pn := fresh (dom h1)).
  set (h2 := <[pn := _]> h1).
  assert (Hpn1 : h1 !! pn = None) by apply fresh_not_live.
  assert (Hgpn : g <> pn).
  { intros E. rewrite <- E in Hpn1. unfold h1 in Hpn1.
    rewrite lookup_insert_eq in Hpn1. discriminate. }
  assert (Hpn : h0 !! pn = None).
  { unfold h1 in Hpn1. now rewrite lookup_insert_ne in Hpn1. }
  rewrite store_live
    by (world_simpl; unfold h2, h1;
        rewrite lookup_insert_ne, lookup_insert_eq; eauto).
  step.
  set (h3 := <[g := _]> h2).
  destruct (next_alloc_ok (advance (advance w))) eqn:A3.
  { exfalso. revert A1 A2 A3 Ha. unfold next_alloc_ok, advance. simpl.
    destruct (alloc_outcomes w) as [|[] [|[] [|[] rest]]]; simpl; congruence. }
  rewrite safe_strdup_fails by exact A3. step.
  rewrite store_live
    by (world_simpl; unfold h3; rewrite lookup_insert_eq; eauto).
  step.
  rewrite free_live
    by (world_simpl; unfold h3, h2;
        rewrite 2!lookup_insert_ne, lookup_insert_eq by congruence; eauto).
  step.
  rewrite free_live
    by (world_simpl; rewrite lookup_delete_ne, lookup_insert_eq by congruence;
        eauto).
  step. unfold ret. eexists; split; [reflexivity|].
  world_simpl. split; [|reflexivity].
  unfold h3, h2, h1. clear -Hg Hpn Hgpn. heap_eq.
Qed.

(** A successful [create], as its caller sees it. *)
Lemma create_constructs config w :
  valid_name (requested_name config) = true ->
  allocs_ok 3 (alloc_outcomes w) = true ->
  exists g pn pg w',
    hello_greeter_create config w = Some (Some g, w')
    /\ greeter_view w' g
       = Some (c_str (requested_name config),
               c_str (requested_greeting config),
               requested_uppercase config)
    /\ heap w !! g = None /\ heap w !! pn = None /\ heap w !! pg = None
    /\ heap w' !! g
       = Some (Obj (mkGreeter (Some pn) (Some pg)
                      (requested_uppercase config)))
    /\ heap w' !! pn
       = Some (Chars (c_str (requested_name config)
                        +:+ String NUL EmptyString))
    /\ heap w' !! pg
       = Some (Chars (c_str (requested_greeting config)
                        +:+ String NUL EmptyString))
    /\ g_has_error w' = g_has_error w
    /\ g_error_buffer w' = g_error_buffer w.
Proof.
  intros Hv Ha.
  destruct (create_succeeds config w Hv Ha)
    as (g & pn & pg & Hrun & Hg & Hn & Hp & Hgn & Hgp & Hnp).
  eexists g, pn, pg, _. split; [exact Hrun|].
  cbn [heap g_has_error g_error_buffer].
  set (h' := <[g := _]> _).
  assert (Lg : h' !! g
               = Some (Obj (mkGreeter (Some pn) (Some pg)
                              (requested_uppercase config))))
    by apply lookup_insert_eq.
  assert (Ln : h' !! pn
               = Some (Chars (c_str (requested_name config)
                                +:+ String NUL EmptyString))).
  { unfold h'. rewrite !lookup_insert_ne by congruence.
    apply lookup_insert_eq. }
  assert (Lp : h' !! pg
               = Some (Chars (c_str (requested_greeting config)
                                +:+ String NUL EmptyString))).
  { unfold h'. rewrite lookup_insert_ne by congruence.
    apply lookup_insert_eq. }
  repeat split; try assumption.
  pose proof (greeter_view_intro
                (mkWorld (g_error_buffer w) (g_has_error w) h'
                   (tail (tail (tail (alloc_outcomes w)))))
                g pn pg _ _ _ Lg Hnp Ln Lp) as V.
  now rewrite !c_str_terminated in V by apply c_str_nul_free.
Qed.

(** ** set_name, get_name and destroy *)

Lemma set_name_rejects g name w :
  match name with Some s => valid_name s = false | None => True end ->
  exists fmt args,
    hello_greeter_set_name (Some g) name w
    = Some (false, hello_set_error fmt args w).
Proof.
  intros H. unfold hello_greeter_set_name, bind.
  destruct name as [s|].
  - destruct (validate_name_rejects s w H) as (fmt & args & ->).
    now exists fmt, args.
  - rewrite validate_name_null. now eexists _, _.
Qed.

Lemma set_name_alloc_fails g s w :
  valid_name s = true ->
  next_alloc_ok w = false ->
  hello_greeter_set_name (Some g) (Some s) w
  = Some (false,
          hello_set_error "Failed to allocate string of length %zu"
            [ArgZu (strlen s)] (advance w)).
Proof.
  intros Hv Ha. unfold hello_greeter_set_name, bind.
  rewrite validate_name_accepts by exact Hv. simpl (negb _). step.
  rewrite safe_strdup_fails by exact Ha. reflexivity.
Qed.

Lemma set_name_succeeds w g pn pg up mn s :
  heap w !! g = Some (Obj (mkGreeter (Some pn) pg up)) ->
  heap w !! pn = Some (Chars mn) ->
  valid_name s = true ->
  next_alloc_ok w = true ->
  hello_greeter_set_name (Some g) (Some s) w
  = Some (true,
          mkWorld (g_error_buffer w) (g_has_error w)
            (<[g := Obj (mkGreeter (Some (fresh (dom (heap w)))) pg up)]>
               (delete pn
                  (<[fresh (dom (heap w))
                     := Chars (c_str s +:+ String NUL EmptyString)]>
                     (heap w))))
            (tail (alloc_outcomes w))).
Proof.
  intros Hg Hn Hv Ha. unfold hello_greeter_set_name, bind.
  rewrite validate_name_accepts by exact Hv. simpl (negb _). step.
  rewrite safe_strdup_succeeds by exact Ha. step.
  set (a := fresh (dom (heap w))).
  assert (Hfresh : heap w !! a = None) by apply fresh_not_live.
  assert (a <> g) by congruence.
  assert (a <> pn) by congruence.
  assert (g <> pn) by congruence.
  unfold load_greeter. world_simpl.
  rewrite lookup_insert_ne, Hg by congruence. step.
  rewrite free_live
    by (world_simpl; rewrite lookup_insert_ne by congruence; eauto).
  step.
  rewrite store_live
    by (world_simpl;
        rewrite lookup_delete_ne, lookup_insert_ne by congruence; eauto).
  reflexivity.
Qed.

(** A successful [set_name] on a live greeter. *)
Lemma set_name_replaces w g pn pg mn mg up s :
  heap w !! g = Some (Obj (mkGreeter (Some pn) (Some pg) up)) ->
  pn <> pg ->
  heap w !! pn = Some (Chars mn) ->
  heap w !! pg = Some (Chars mg) ->
  valid_name s = true ->
  next_alloc_ok w = true ->
  exists a w',
    hello_greeter_set_name (Some g) (Some s) w = Some (true, w')
    /\ heap w !! a = None
    /\ heap w' !! g = Some (Obj (mkGreeter (Some a) (Some pg) up))
    /\ heap w' !! a = Some (Chars (c_str s +:+ String NUL EmptyString))
    /\ heap w' !! pg = Some (Chars mg)
    /\ heap w' !! pn = None
    /\ greeter_view w' g = Some (c_str s, c_str mg, up)
    /\ g_has_error w' = g_has_error w
    /\ g_error_buffer w' = g_error_buffer w.
Proof.
  intros Hg Hne Hn Hp Hv Ha.
  rewrite (set_name_succeeds w g pn (Some pg) up mn s Hg Hn Hv Ha).
  set (a := fresh (dom (heap w))).
  assert (Hfresh : heap w !! a = None) by apply fresh_not_live.
  assert (a <> g) by congruence.
  assert (a <> pn) by congruence.
  assert (a <> pg) by congruence.
  assert (g <> pn) by congruence.
  assert (g <> pg) by congruence.
  eexists a, _. split; [reflexivity|]. cbn [heap g_has_error g_error_buffer].
  assert (La : (<[g := Obj (mkGreeter (Some a) (Some pg) up)]>
                  (delete pn
                     (<[a := Chars (c_str s +:+ String NUL EmptyString)]>
                        (heap w)))) !! a
               = Some (Chars (c_str s +:+ String NUL EmptyString))).
  { rewrite lookup_insert_ne, lookup_delete_ne by congruence.
    apply lookup_insert_eq. }
  assert (Lg : (<[g := Obj (mkGreeter (Some a) (Some pg) up)]>
                  (delete pn
                     (<[a := Chars (c_str s +:+ String NUL EmptyString)]>
                        (heap w)))) !! pg
               = Some (Chars mg)).
  { now rewrite lookup_insert_ne, lookup_delete_ne, lookup_insert_ne
      by congruence. }
  repeat split; try assumption.
  - apply lookup_insert_eq.
  - rewrite lookup_insert_ne by congruence. apply lookup_delete_eq.
  - match goal with |- greeter_view ?w' _ = _ =>
      pose proof (greeter_view_intro w' g a pg _ _ up
                    (lookup_insert_eq _ _ _) H1 La Lg) as V
    end.
    now rewrite c_str_terminated in V by apply c_str_nul_free.
Qed.

Lemma get_name_live w g obj :
  heap w !! g = Some (Obj obj) ->
  hello_greeter_get_name (Some g) w = Some (name obj, w).
Proof.
  intros Hg. unfold hello_greeter_get_name, bind, load_greeter.
  now rewrite Hg.
Qed.

Lemma destroy_live w g pn pg up mn mg :
  heap w !! g = Some (Obj (mkGreeter (Some pn) (Some pg) up)) ->
  pn <> pg ->
  heap w !! pn = Some (Chars mn) ->
  heap w !! pg = Some (Chars mg) ->
  hello_greeter_destroy (Some g) w
  = Some (tt, with_heap (delete g (delete pg (delete pn (heap w)))) w).
Proof.
  intros Hg Hne Hn Hp.
  assert (g <> pn) by congruence.
  assert (g <> pg) by congruence.
  unfold hello_greeter_destroy, bind, load_greeter. rewrite Hg. step.
  cbn [name greeting].
  rewrite free_live by eauto. step.
  rewrite free_live
    by (world_simpl; rewrite lookup_delete_ne by congruence; eauto).
  step.
  rewrite free_live
    by (world_simpl; rewrite !lookup_delete_ne by congruence; eauto).
  reflexivity.
Qed.

(** ** The invariant along the life of a greeter *)

Lemma name_invariant_heap w w' g :
  heap w' = heap w -> name_invariant w g -> name_invariant w' g.
Proof.
  intros Hh (nm & gr & up & Hv & H). exists nm, gr, up.
  now rewrite (greeter_view_heap w w').
Qed.

(** [greet] never changes the heap. *)
Lemma greet_keeps_heap greeter buffer c w r w' :
  hello_greeter_greet greeter buffer c w = Some (r, w') -> heap w' = heap w.
Proof.
  unfold hello_greeter_greet, bind, set_error, ret, load_greeter, load_chars.
  intros H.
  repeat case_match; simplify_eq; now rewrite ?heap_set_error.
Qed.

(** [greet] on a live greeter returns, whatever the buffer. *)
Lemma greet_returns w g nm gr up buffer c :
  greeter_view w g = Some (nm, gr, up) ->
  exists r w', hello_greeter_greet (Some g) buffer c w = Some (r, w').
Proof.
  intros Hv.
  destruct (greeter_view_inv _ _ _ _ _ Hv)
    as (pn & pg & mn & mg & Hg & _ & Hn & Hp & _).
  destruct buffer as [buf|]; [|now eexists _, _].
  destruct (N.eqb_spec c 0) as [->|Hc]; [now eexists _, _|].
  rewrite (greet_unfold _ _ _ _ _ _ _ _ _ Hg Hn Hp) by lia.
  destruct (snprintf buf c "%s, %s!" [ArgS mg; ArgS mn]) as [written b].
  destruct (written <? 0)%Z; now eexists _, _.
Qed.

(** Every use of a greeter that satisfies the invariant returns and keeps
    the invariant. *)
Lemma use_keeps_invariant w g u :
  name_invariant w g ->
  exists r w',
    perform (use_call g u) w = Some (r, w') /\ name_invariant w' g.
Proof.
  intros Hinv. pose proof Hinv as (nm & gr & up & Hv & Hne & Hlen).
  destruct (greeter_view_inv _ _ _ _ _ Hv)
    as (pn & pg & mn & mg & Hg & Hnp & Hn & Hp & -> & ->).
  destruct u as [name | buffer c |]; cbn [use_call perform]; unfold bind.
  - assert (Hrej : forall fmt args,
              name_invariant (hello_set_error fmt args w) g)
      by (intros; apply (name_invariant_heap w);
          [apply heap_set_error | exact Hinv]).
    destruct name as [s|].
    2:{ destruct (set_name_rejects g None w I) as (fmt & args & ->).
        eexists _, _. split; [reflexivity | apply Hrej]. }
    destruct (valid_name s) eqn:Hvalid.
    2:{ destruct (set_name_rejects g (Some s) w Hvalid)
          as (fmt & args & ->).
        eexists _, _. split; [reflexivity | apply Hrej]. }
    destruct (next_alloc_ok w) eqn:Halloc.
    2:{ rewrite (set_name_alloc_fails g s w Hvalid Halloc).
        eexists _, _. split; [reflexivity|].
        apply (name_invariant_heap w); [|exact Hinv].
        now rewrite heap_set_error. }
    destruct (set_name_replaces w g pn pg mn mg up s
                Hg Hnp Hn Hp Hvalid Halloc)
      as (a & w' & -> & _ & _ & _ & _ & _ & Hv' & _).
    eexists _, _. split; [reflexivity|].
    destruct (valid_name_bounds s Hvalid) as [Hne' Hlen'].
    now exists (c_str s), (c_str mg), up.
  - destruct (greet_returns w g _ _ _ buffer c Hv) as (r & w' & Hrun).
    rewrite Hrun. eexists _, _. split; [reflexivity|].
    apply (name_invariant_heap w); [|exact Hinv].
    apply (greet_keeps_heap _ _ _ _ _ _ Hrun).
  - rewrite (get_name_live w g _ Hg). eexists _, _.
    split; [reflexivity | exact Hinv].
Qed.

Lemma uses_keep_invariant g us : forall w,
  name_invariant w g ->
  exists w', perform_uses g us w = Some (tt, w') /\ name_invariant w' g.
Proof.
  induction us as [|u us IH]; intros w Hinv; cbn [perform_uses].
  - now exists w.
  - destruct (use_keeps_invariant w g u Hinv) as (r & w1 & Hrun & Hinv1).
    destruct (IH w1 Hinv1) as (w2 & Hrest & Hinv2).
    exists w2. unfold bind. now rewrite Hrun.
Qed.

(** [create] always returns: no handle, or the handle of a greeter that
    satisfies the invariant. *)
Lemma create_establishes_invariant config w :
  exists r w',
    hello_greeter_create config w = Some (r, w')
    /\ match r with
       | Some g => name_invariant w' g
       | None => g_has_error w' = true /\ heap w' = heap w
       end.
Proof.
  destruct (valid_name (requested_name config)) eqn:Hvalid.
  2:{ destruct (create_rejects config w Hvalid) as (fmt & args & ->).
      eexists None, _. split; [reflexivity|].
      now rewrite has_error_set_error, heap_set_error. }
  destruct (allocs_ok 3 (alloc_outcomes w)) eqn:Halloc.
  2:{ destruct (create_alloc_fails config w Hvalid Halloc)
        as (w' & -> & Hh & He).
      now exists None, w'. }
  destruct (create_constructs config w Hvalid Halloc)
    as (g & pn & pg & w' & -> & Hview & _).
  exists (Some g), w'. split; [reflexivity|].
  destruct (valid_name_bounds _ Hvalid) as [Hne Hlen].
  eexists _, _, _. split; [exact Hview|]. now split.
Qed.

(** ** Validation errors *)

Lemma validation_error_sets_error o w :
  validation_error o = true ->
  exists fmt args,
    perform o w = Some (sentinel o, hello_set_error fmt args w).
Proof.
  destruct o as [[cfg|] | greeter | greeter buffer c | greeter | greeter name];
    cbn [validation_error perform sentinel]; unfold bind; try discriminate.
  - destruct (config_name cfg) as [n|] eqn:Hn; [|discriminate].
    intros Hv%negb_true_iff.
    destruct (create_rejects (Some cfg) w) as (fmt & args & ->).
    { unfold requested_name. cbn [default from_option id]. now rewrite Hn. }
    now exists fmt, args.
  - intros H. unfold hello_greeter_greet.
    destruct greeter as [g|]; [|now eexists _, _].
    destruct buffer as [buf|]; [|now eexists _, _].
    rewrite H. now eexists _, _.
  - destruct greeter as [g|]; [discriminate|]. now eexists _, _.
  - destruct greeter as [g|]; [|now eexists _, _].
    intros H.
    destruct (set_name_rejects g name w) as (fmt & args & ->).
    { destruct name as [s|]; [now apply negb_true_iff | exact I]. }
    now exists fmt, args.
Qed.

(** ** Successful calls and the error channel *)

Lemma destroy_keeps_channel greeter w r w' :
  hello_greeter_destroy greeter w = Some (r, w') ->
  g_has_error w' = g_has_error w /\ g_error_buffer w' = g_error_buffer w.
Proof.
  unfold hello_greeter_destroy, bind, load_greeter, free, ret, with_heap.
  intros H. repeat case_match; simplify_eq; now cbn.
Qed.

Lemma get_name_keeps_channel g w r w' :
  hello_greeter_get_name (Some g) w = Some (r, w') ->
  g_has_error w' = g_has_error w /\ g_error_buffer w' = g_error_buffer w.
Proof.
  unfold hello_greeter_get_name, bind, load_greeter, ret.
  intros H. repeat case_match; simplify_eq; now cbn.
Qed.

Lemma set_name_true_keeps_channel greeter name w w' :
  hello_greeter_set_name greeter name w = Some (true, w') ->
  g_has_error w' = g_has_error w /\ g_error_buffer w' = g_error_buffer w.
Proof.
  destruct greeter as [g|]; [|discriminate].
  destruct name as [s|].
  2:{ destruct (set_name_rejects g None w I) as (fmt & args & ->).
      discriminate. }
  destruct (valid_name s) eqn:Hvalid.
  2:{ destruct (set_name_rejects g (Some s) w Hvalid) as (fmt & args & ->).
      discriminate. }
  destruct (next_alloc_ok w) eqn:Halloc.
  2:{ rewrite (set_name_alloc_fails g s w Hvalid Halloc). discriminate. }
  unfold hello_greeter_set_name, bind.
  rewrite validate_name_accepts by exact Hvalid. simpl (negb _). step.
  rewrite safe_strdup_succeeds by exact Halloc. step.
  unfold load_greeter, free, store, ret, with_heap.
  intros H. repeat case_match; simplify_eq; now cbn.
Qed.

Lemma create_handle_keeps_channel config w g w' :
  hello_greeter_create config w = Some (Some g, w') ->
  g_has_error w' = g_has_error w /\ g_error_buffer w' = g_error_buffer w.
Proof.
  destruct (valid_name (requested_name config)) eqn:Hvalid.
  2:{ destruct (create_rejects config w Hvalid) as (fmt & args & ->).
      discriminate. }
  destruct (allocs_ok 3 (alloc_outcomes w)) eqn:Halloc.
  2:{ destruct (create_alloc_fails config w Hvalid Halloc) as (w1 & -> & _).
      discriminate. }
  destruct (create_constructs config w Hvalid Halloc)
    as (g1 & pn & pg & w1 & -> & _ & _ & _ & _ & _ & _ & _ & He & Hb).
  intros [= <- <-]. now split.
Qed.

(** ** The unit tests of tests/test_main.c *)

Section UnitTests.

Example create_default_passes :
  result (run_test test_create_default) = Some (Some "World").
Proof. reflexivity. Qed.

Example create_empty_name_fails_passes :
  result (run_test test_create_empty_name_fails) = Some (None, true).
Proof. reflexivity. Qed.

Example greet_default_passes :
  result (run_test (test_greet None)) = Some (13%Z, Some "Hello, World!").
Proof. reflexivity. Qed.

Example greet_custom_passes :
  result (run_test (test_greet
                      (Some (mkConfig (Some "Test") (Some "Hi") false))))
  = Some (9%Z, Some "Hi, Test!").
Proof. reflexivity. Qed.

Example greet_uppercase_passes :
  result (run_test (test_greet
                      (Some (mkConfig (Some "World") (Some "Hello") true))))
  = Some (13%Z, Some "HELLO, WORLD!").
Proof. reflexivity. Qed.

Example greet_null_buffer_fails_passes :
  result (run_test test_greet_null_buffer_fails) = Some ((-1)%Z, true).
Proof. reflexivity. Qed.

Example set_name_passes :
  result (run_test (test_set_name "NewName"))
  = Some (true, false, Some "NewName").
Proof. reflexivity. Qed.

Example set_name_empty_fails_passes :
  result (run_test (test_set_name EmptyString)) = Some (false, true, Some "World").
Proof. reflexivity. Qed.

(** A test that destroys its greeter leaves no block behind. *)
Example create_default_frees_everything :
  option_map (fun r => heap (snd r)) (run_test test_create_default)
  = Some ∅.
Proof. reflexivity. Qed.

End UnitTests.

(** ** A greeter with a greeting of 2^31 bytes *)

Lemma length_long_greeting :
  Z.of_nat (String.length long_greeting) = 2147483648%Z.
Proof. unfold long_greeting. rewrite length_repeat. now apply Z2Nat.id. Qed.

Lemma long_greeting_text_overflows nm :
  (INT_MAX < Z.of_nat (String.length (greeting_text long_greeting nm)))%Z.
Proof.
  rewrite length_greeting_text.
  pose proof length_long_greeting as H.
  generalize dependent (String.length long_greeting). intros n H.
  unfold INT_MAX. lia.
Qed.

(** The formatting fails as soon as the long greeting has been produced. *)
Lemma failed_text_long nm : failed_text long_greeting nm = long_greeting.
Proof.
  unfold failed_text, greeting_pieces. cbn [emit piece_text].
  rewrite length_long_greeting.
  change (INT_MAX <? 0 + 2147483648)%Z with true. cbv iota.
  apply app_empty_r.
Qed.

Lemma take_repeat c k : forall n, k <= n -> take k (repeat c n) = repeat c k.
Proof.
  induction k as [|k IH]; intros [|n] H; simpl; try reflexivity; try lia.
  rewrite IH by lia. reflexivity.
Qed.

(** What a failed formatting of the long greeting leaves in a buffer of
    capacity [c]: the first [c - 1] bytes of the greeting, when it has that
    many, and a terminator. *)
Lemma greet_long_greeting w g nm up buf c :
  greeter_view w g = Some (nm, long_greeting, up) ->
  (0 < c <= 2147483648)%N ->
  hello_greeter_greet (Some g) (Some buf) c w
  = Some ((-1)%Z,
          Some (store_bytes buf
                  (repeat "a" (N.to_nat c - 1) +:+ String NUL EmptyString)),
          hello_set_error "Formatting failed" [] w).
Proof.
  intros Hview Hc.
  rewrite (greet_overflows w g nm long_greeting up buf c Hview);
    [| lia | apply long_greeting_text_overflows].
  rewrite failed_text_long.
  assert (Hlen : String.length long_greeting = Z.to_nat 2147483648)
    by (unfold long_greeting; apply length_repeat).
  rewrite Hlen, Nat.min_l by lia.
  unfold long_greeting. rewrite take_repeat by lia. reflexivity.
Qed.

(** [create] accepts the long greeting: from the initial world it returns a
    greeter that holds it, with the error channel clear. *)
Lemma long_greeter_created up :
  exists g w',
    hello_greeter_create (Some (long_config up)) (initial_world [])
    = Some (Some g, w')
    /\ greeter_view w' g = Some ("World", long_greeting, up)
    /\ g_has_error w' = false.
Proof.
  destruct (create_constructs (Some (long_config up)) (initial_world [])
              eq_refl eq_refl)
    as (g & pn & pg & w' & Hrun & Hview & _ & _ & _ & _ & _ & _ & He & _).
  exists g, w'. split; [exact Hrun|]. split; [|exact He].
  rewrite Hview. unfold requested_greeting, requested_name, long_config.
  cbn [default from_option id config_greeting config_name
       requested_uppercase config_uppercase].
  assert (Hnf : c_str long_greeting = long_greeting)
    by (apply nul_free_repeat; reflexivity).
  rewrite Hnf. reflexivity.
Qed.

(** * The claims *)

(** C1 (capacity shortfall), amended.  For every live greeter whose
    formatted text ["{greeting}, {name}!"] is at most [INT_MAX] bytes long,
    and every buffer of capacity [c] with [0 < c] and [c] at most the length
    of that text: [greet] returns the full length of the text (which is not
    negative), the buffer holds the first [c - 1] bytes of the text (in
    upper case when the flag is set) followed by a terminator, the bytes of
    the buffer beyond its capacity and its size are untouched, and the error
    channel is set by the report of the shortfall. *)
Theorem greet_reports_shortfall w g nm gr up buf c :
  greeter_view w g = Some (nm, gr, up) ->
  (0 < c)%N ->
  (c <= N.of_nat (String.length (greeting_text gr nm)))%N ->
  N.to_nat c <= String.length buf ->
  (Z.of_nat (String.length (greeting_text gr nm)) <= INT_MAX)%Z ->
  exists buf' w',
    hello_greeter_greet (Some g) (Some buf) c w
    = Some (Z.of_nat (String.length (greeting_text gr nm)), Some buf', w')
    /\ (0 <= Z.of_nat (String.length (greeting_text gr nm)))%Z
    /\ c_str buf' = shown up (take (N.to_nat c - 1) (greeting_text gr nm))
    /\ String.length (c_str buf') = N.to_nat c - 1
    /\ String.get (N.to_nat c - 1) buf' = Some NUL
    /\ String.length buf' = String.length buf
    /\ drop (N.to_nat c) buf' = drop (N.to_nat c) buf
    /\ w' = report_shortfall
              (Z.of_nat (String.length (greeting_text gr nm))) c w
    /\ g_has_error w' = true
    /\ heap w' = heap w.
Proof.
  intros Hv Hc Hshort Hbuf Hfit.
  destruct (greet_formats w g nm gr up buf c Hv Hc Hfit)
    as (buf' & Hrun & Hstr & Hdrop & Hlen).
  destruct (N.leb_spec c (N.of_nat (String.length (greeting_text gr nm))));
    [|lia].
  rewrite Nat.min_l in Hstr by lia.
  assert (Hl : String.length (c_str buf') = N.to_nat c - 1).
  { rewrite Hstr. unfold shown.
    destruct up; rewrite ?length_upper, length_take; lia. }
  exists buf', (report_shortfall
                  (Z.of_nat (String.length (greeting_text gr nm))) c w).
  repeat split; auto.
  - lia.
  - rewrite <- Hl. apply get_c_str_length. rewrite Hl, Hlen by exact Hbuf. lia.
  - apply has_error_set_error.
  - apply heap_set_error.
Qed.

(** C1 as stated fails when the text is longer than an [int] can tell.
    [create] accepts a greeting of 2^31 bytes; on the greeter it returns,
    with a buffer of capacity 16, smaller than the text, [greet] returns -1,
    not the length; the buffer holds fifteen bytes of the greeting and a
    terminator. *)
Lemma greet_reports_shortfall_counterexample :
  exists g w',
    hello_greeter_create (Some (long_config false)) (initial_world [])
    = Some (Some g, w')
    /\ greeter_view w' g = Some ("World", long_greeting, false)
    /\ (16 <= N.of_nat (String.length (greeting_text long_greeting "World")))%N
    /\ N.to_nat 16 <= String.length "0123456789abcdef"
    /\ hello_greeter_greet (Some g) (Some "0123456789abcdef") 16 w'
       = Some ((-1)%Z, Some ("aaaaaaaaaaaaaaa" +:+ String NUL EmptyString),
               hello_set_error "Formatting failed" [] w').
Proof.
  destruct (long_greeter_created false) as (g & w' & Hrun & Hview & _).
  pose proof (long_greeting_text_overflows "World") as Hbig.
  exists g, w'. split; [exact Hrun|]. split; [exact Hview|]. split.
  { revert Hbig.
    generalize (String.length (greeting_text long_greeting "World")).
    unfold INT_MAX. lia. }
  split; [simpl; lia|].
  rewrite (greet_long_greeting w' g "World" false "0123456789abcdef" 16 Hview)
    by lia.
  reflexivity.
Qed.

Lemma greet_reports_shortfall_witness :
  exists buf' w',
    hello_greeter_greet (Some 1%positive) (Some "0123456789") 8
      (sample_world true)
    = Some (13%Z, Some buf', w')
    /\ c_str buf' = "HELLO, "
    /\ String.get 7 buf' = Some NUL
    /\ drop 8 buf' = "89"
    /\ g_has_error w' = true.
Proof.
  destruct (greet_reports_shortfall (sample_world true) 1 "World" "Hello"
              true "0123456789" 8)
    as (buf' & w' & Hrun & _ & Hstr & _ & Hnul & _ & Hdrop & _ & Herr & _).
  - reflexivity.
  - reflexivity.
  - discriminate.
  - simpl. lia.
  - discriminate.
  - exists buf', w'. repeat split; assumption.
Defined.

(** C2 (validation errors), amended.  Each of these calls - [create] with
    an empty or over-length name; [set_name] with a null, empty or
    over-length name; [greet], [get_name] or [set_name] on a null handle;
    [greet] with a null buffer or zero capacity - returns its sentinel (no
    handle, false, no name, or -1 with the buffer untouched), sets the error
    channel, and changes nothing else: the heap, hence every greeter, and
    the allocator are as before. *)
Theorem validation_errors_are_reported o w :
  validation_error o = true ->
  exists w',
    perform o w = Some (sentinel o, w')
    /\ g_has_error w' = true
    /\ heap w' = heap w
    /\ alloc_outcomes w' = alloc_outcomes w
    /\ (forall g, greeter_view w' g = greeter_view w g).
Proof.
  intros H.
  destruct (validation_error_sets_error o w H) as (fmt & args & Hrun).
  exists (hello_set_error fmt args w). split; [exact Hrun|].
  split; [apply has_error_set_error|].
  split; [apply heap_set_error|].
  split; [apply outcomes_set_error|].
  intros g. apply greeter_view_heap, heap_set_error.
Qed.

(** C2 as stated fails in two places.  [create] given a null name does not
    fail: it takes the default name, returns a handle and leaves the error
    channel clear.  And [destroy] given a null handle does nothing at all. *)
Lemma validation_errors_are_reported_counterexample :
  perform (Create (Some (mkConfig None None false))) (initial_world [])
  = Some (Handle (Some 1%positive), sample_world false)
  /\ g_has_error (sample_world false) = false
  /\ perform (Destroy None) (initial_world [])
     = Some (Done, initial_world [])
  /\ g_has_error (initial_world []) = false.
Proof. repeat split; vm_compute; reflexivity. Qed.

Lemma validation_errors_are_reported_witness :
  exists w',
    perform (SetName (Some 1%positive) (Some (repeat "n" 256)))
      (sample_world false)
    = Some (Flag false, w')
    /\ g_has_error w' = true
    /\ greeter_view w' 1 = Some ("World", "Hello", false).
Proof.
  destruct (validation_errors_are_reported
              (SetName (Some 1%positive) (Some (repeat "n" 256)))
              (sample_world false) eq_refl)
    as (w' & Hrun & Herr & _ & _ & Hview).
  exists w'. split; [exact Hrun|]. split; [exact Herr|].
  rewrite Hview. reflexivity.
Defined.

(** C3 (atomic set_name).  On every live greeter [set_name] returns; it
    succeeds exactly when the name is valid and the copy can be allocated.
    When it fails - for either reason - it returns false with the error
    channel set and the heap as it was, so that [get_name] still returns the
    same pointer to the same name.  When it succeeds the greeter holds a copy
    of the new name in a block that was allocated while the old copy was
    still live (the two pointers differ), and the old copy is released. *)
Theorem set_name_is_atomic w g nm gr up name :
  greeter_view w g = Some (nm, gr, up) ->
  exists ok w' p,
    hello_greeter_set_name (Some g) name w = Some (ok, w')
    /\ ok = match name with
            | Some s => valid_name s && next_alloc_ok w
            | None => false
            end
    /\ hello_greeter_get_name (Some g) w = Some (Some p, w)
    /\ string_at w (Some p) = Some nm
    /\ if ok then
         exists s p',
           name = Some s
           /\ hello_greeter_get_name (Some g) w' = Some (Some p', w')
           /\ string_at w' (Some p') = Some (c_str s)
           /\ greeter_view w' g = Some (c_str s, gr, up)
           /\ heap w !! p' = None
           /\ p' <> p
           /\ heap w' !! p = None
       else
         g_has_error w' = true
         /\ heap w' = heap w
         /\ hello_greeter_get_name (Some g) w' = Some (Some p, w')
         /\ string_at w' (Some p) = Some nm
         /\ greeter_view w' g = Some (nm, gr, up).
Proof.
  intros Hv.
  destruct (greeter_view_inv _ _ _ _ _ Hv)
    as (pn & pg & mn & mg & Hg & Hne & Hn & Hp & -> & ->).
  assert (Hget : hello_greeter_get_name (Some g) w = Some (Some pn, w))
    by apply (get_name_live w g _ Hg).
  assert (Hat : string_at w (Some pn) = Some (c_str mn))
    by (unfold string_at; now rewrite Hn).
  assert (Hfail : forall w',
            heap w' = heap w -> g_has_error w' = true ->
            g_has_error w' = true
            /\ heap w' = heap w
            /\ hello_greeter_get_name (Some g) w' = Some (Some pn, w')
            /\ string_at w' (Some pn) = Some (c_str mn)
            /\ greeter_view w' g = Some (c_str mn, c_str mg, up)).
  { intros w' Hh He. repeat split; try assumption.
    - apply (get_name_live w' g (mkGreeter (Some pn) (Some pg) up)).
      now rewrite Hh.
    - now rewrite (string_at_heap w w').
    - now rewrite (greeter_view_heap w w'). }
  destruct name as [s|].
  2:{ destruct (set_name_rejects g None w I) as (fmt & args & Hrun).
      exists false, (hello_set_error fmt args w), pn.
      do 4 (split; [assumption || reflexivity|]).
      apply Hfail; [apply heap_set_error | apply has_error_set_error]. }
  destruct (valid_name s) eqn:Hvalid.
  2:{ destruct (set_name_rejects g (Some s) w Hvalid) as (fmt & args & Hrun).
      exists false, (hello_set_error fmt args w), pn.
      do 4 (split; [assumption || reflexivity|]).
      apply Hfail; [apply heap_set_error | apply has_error_set_error]. }
  destruct (next_alloc_ok w) eqn:Halloc.
  2:{ eexists false, _, pn.
      split; [apply (set_name_alloc_fails g s w Hvalid Halloc)|].
      do 3 (split; [assumption || reflexivity|]).
      apply Hfail; [now rewrite heap_set_error | apply has_error_set_error]. }
  destruct (set_name_replaces w g pn pg mn mg up s Hg Hne Hn Hp Hvalid Halloc)
    as (a & w' & Hrun & Hfresh & Hg' & Ha' & _ & Hpn' & Hv' & _).
  exists true, w', pn.
  do 4 (split; [assumption || reflexivity|]).
  exists s, a. repeat split; try assumption.
  - apply (get_name_live w' g _ Hg').
  - unfold string_at. rewrite Ha'.
    now rewrite c_str_terminated by apply c_str_nul_free.
  - congruence.
Qed.

Lemma set_name_is_atomic_witness :
  exists w',
    hello_greeter_set_name (Some 1%positive) (Some EmptyString) (sample_world false)
    = Some (false, w')
    /\ g_has_error w' = true
    /\ hello_greeter_get_name (Some 1%positive) w' = Some (Some 2%positive, w')
    /\ string_at w' (Some 2%positive) = Some "World".
Proof.
  destruct (set_name_is_atomic (sample_world false) 1 "World" "Hello" false
              (Some EmptyString) eq_refl)
    as (ok & w' & p & Hrun & Hok & Hget & _ & Hcases).
  simpl in Hok. subst ok.
  assert (p = 2%positive) as -> by (vm_compute in Hget; congruence).
  destruct Hcases as (Herr & _ & Hget' & Hat & _).
  exists w'. repeat split; assumption.
Defined.

(** C4 (defaults).  When its three allocations succeed, [create] without a
    configuration builds the greeter named "World" that greets with "Hello"
    in mixed case; with a configuration it takes each text from the
    configuration when present and from the defaults when absent, and the
    flag from the configuration.  [greet] on a greeter created without a
    configuration, or with both texts absent, into a buffer with room for
    more than 13 bytes writes exactly "Hello, World!" and returns 13, the
    error channel staying as it was; with the configuration
    [{name: "Test", greeting: "Hi"}] it writes "Hi, Test!". *)
Theorem create_applies_defaults w :
  allocs_ok 3 (alloc_outcomes w) = true ->
  (exists g w',
      hello_greeter_create None w = Some (Some g, w')
      /\ greeter_view w' g = Some ("World", "Hello", false))
  /\ (forall cfg,
        valid_name (default "World" (config_name cfg)) = true ->
        exists g w',
          hello_greeter_create (Some cfg) w = Some (Some g, w')
          /\ greeter_view w' g
             = Some (c_str (default "World" (config_name cfg)),
                     c_str (default "Hello" (config_greeting cfg)),
                     config_uppercase cfg))
  /\ (forall config buf c,
        config = None \/ config = Some (mkConfig None None false) ->
        (13 < c)%N ->
        N.to_nat c <= String.length buf ->
        exists g w' buf',
          hello_greeter_create config w = Some (Some g, w')
          /\ hello_greeter_greet (Some g) (Some buf) c w'
             = Some (13%Z, Some buf', w')
          /\ c_str buf' = "Hello, World!")
  /\ (forall buf c,
        (9 < c)%N ->
        N.to_nat c <= String.length buf ->
        exists g w' buf',
          hello_greeter_create
            (Some (mkConfig (Some "Test") (Some "Hi") false)) w
          = Some (Some g, w')
          /\ hello_greeter_greet (Some g) (Some buf) c w'
             = Some (9%Z, Some buf', w')
          /\ c_str buf' = "Hi, Test!").
Proof.
  intros Ha.
  assert (Hgreet : forall config buf c,
            valid_name (requested_name config) = true ->
            (Z.of_nat (String.length
                         (greeting_text (c_str (requested_greeting config))
                            (c_str (requested_name config)))) <= INT_MAX)%Z ->
            (N.of_nat (String.length
                         (greeting_text (c_str (requested_greeting config))
                            (c_str (requested_name config)))) < c)%N ->
            exists g w' buf',
              hello_greeter_create config w = Some (Some g, w')
              /\ hello_greeter_greet (Some g) (Some buf) c w'
                 = Some (Z.of_nat
                           (String.length
                              (greeting_text
                                 (c_str (requested_greeting config))
                                 (c_str (requested_name config)))),
                         Some buf', w')
              /\ c_str buf'
                 = shown (requested_uppercase config)
                     (greeting_text (c_str (requested_greeting config))
                        (c_str (requested_name config)))).
  { intros config buf c Hv Hfit Hroom.
    destruct (create_constructs config w Hv Ha)
      as (g & pn & pg & w' & Hrun & Hview & _).
    destruct (greet_formats w' g _ _ _ buf c Hview ltac:(lia) Hfit)
      as (buf' & Hg & Hstr & _).
    exists g, w', buf'. split; [exact Hrun|]. split.
    - rewrite Hg. destruct (N.leb_spec c
        (N.of_nat (String.length
           (greeting_text (c_str (requested_greeting config))
              (c_str (requested_name config)))))); [lia | reflexivity].
    - rewrite Hstr, Nat.min_r by lia. now rewrite take_all. }
  split; [|split; [|split]].
  - destruct (create_constructs None w eq_refl Ha)
      as (g & pn & pg & w' & Hrun & Hview & _).
    now exists g, w'.
  - intros cfg Hv.
    destruct (create_constructs (Some cfg) w Hv Ha)
      as (g & pn & pg & w' & Hrun & Hview & _).
    now exists g, w'.
  - intros config buf c [-> | ->] Hc _.
    + exact (Hgreet None buf c eq_refl ltac:(discriminate) Hc).
    + exact (Hgreet (Some (mkConfig None None false)) buf c eq_refl
               ltac:(discriminate) Hc).
  - intros buf c Hc _.
    exact (Hgreet (Some (mkConfig (Some "Test") (Some "Hi") false)) buf c
             eq_refl ltac:(discriminate) Hc).
Qed.

Lemma create_applies_defaults_witness :
  exists g w' buf',
    hello_greeter_create None (initial_world []) = Some (Some g, w')
    /\ hello_greeter_greet (Some g) (Some (repeat "x" 128)) 128 w'
       = Some (13%Z, Some buf', w')
    /\ c_str buf' = "Hello, World!".
Proof.
  destruct (create_applies_defaults (initial_world []) eq_refl)
    as (_ & _ & Hdefault & _).
  apply Hdefault.
  - now left.
  - reflexivity.
  - rewrite length_repeat. simpl. lia.
Defined.

(** C5 (uppercase), amended.  For every live greeter with the flag set
    whose formatted text is at most [INT_MAX] bytes long, and every buffer
    of capacity [c > 0]: the buffer comes back holding the upper case of the
    text cut to [c - 1] bytes, whether the text was cut or not; the result
    is the length of the text, the same as for a greeter with the same
    strings and the flag clear, whose buffer holds the same bytes before
    [toupper]; for the default name and greeting and room for the whole
    text the buffer holds ["HELLO, WORLD!"]. *)
Theorem greet_uppercases w g nm gr buf c :
  greeter_view w g = Some (nm, gr, true) ->
  (0 < c)%N ->
  N.to_nat c <= String.length buf ->
  (Z.of_nat (String.length (greeting_text gr nm)) <= INT_MAX)%Z ->
  exists buf' w',
    hello_greeter_greet (Some g) (Some buf) c w
    = Some (Z.of_nat (String.length (greeting_text gr nm)), Some buf', w')
    /\ c_str buf'
       = upper (take (Nat.min (N.to_nat c - 1)
                        (String.length (greeting_text gr nm)))
                  (greeting_text gr nm))
    /\ (forall w0 g0,
          greeter_view w0 g0 = Some (nm, gr, false) ->
          exists buf0 w0',
            hello_greeter_greet (Some g0) (Some buf) c w0
            = Some (Z.of_nat (String.length (greeting_text gr nm)),
                    Some buf0, w0')
            /\ c_str buf' = upper (c_str buf0))
    /\ (nm = "World" -> gr = "Hello" -> (13 < c)%N ->
        c_str buf' = "HELLO, WORLD!").
Proof.
  intros Hv Hc _ Hfit.
  destruct (greet_formats w g nm gr true buf c Hv Hc Hfit)
    as (buf' & Hrun & Hstr & _).
  exists buf'. eexists. split; [exact Hrun|].
  split; [exact Hstr|]. split.
  - intros w0 g0 Hv0.
    destruct (greet_formats w0 g0 nm gr false buf c Hv0 Hc Hfit)
      as (buf0 & Hrun0 & Hstr0 & _).
    exists buf0. eexists. split; [exact Hrun0|].
    now rewrite Hstr, Hstr0.
  - intros -> -> Hroom. rewrite Hstr. simpl String.length.
    rewrite Nat.min_r by lia. reflexivity.
Qed.

(** C5 as stated fails for a greeter with the flag set and a greeting of
    2^31 bytes: the formatting fails and [greet] returns before the
    conversion, leaving in the buffer fourteen bytes of the greeting, in
    lower case, and a terminator. *)
Lemma greet_uppercases_counterexample :
  exists g w',
    hello_greeter_create (Some (long_config true)) (initial_world [])
    = Some (Some g, w')
    /\ greeter_view w' g = Some ("World", long_greeting, true)
    /\ hello_greeter_greet (Some g) (Some "lower case text") 15 w'
       = Some ((-1)%Z, Some ("aaaaaaaaaaaaaa" +:+ String NUL EmptyString),
               hello_set_error "Formatting failed" [] w')
    /\ c_str ("aaaaaaaaaaaaaa" +:+ String NUL EmptyString) = "aaaaaaaaaaaaaa"
    /\ upper "aaaaaaaaaaaaaa" = "AAAAAAAAAAAAAA".
Proof.
  destruct (long_greeter_created true) as (g & w' & Hrun & Hview & _).
  exists g, w'. split; [exact Hrun|]. split; [exact Hview|]. split.
  - rewrite (greet_long_greeting w' g "World" true "lower case text" 15 Hview)
      by lia.
    reflexivity.
  - split; reflexivity.
Qed.

Lemma greet_uppercases_witness :
  exists buf' w',
    hello_greeter_greet (Some 1%positive) (Some (repeat "x" 128)) 128
      (sample_world true)
    = Some (13%Z, Some buf', w')
    /\ c_str buf' = "HELLO, WORLD!".
Proof.
  destruct (greet_uppercases (sample_world true) 1 "World" "Hello"
              (repeat "x" 128) 128)
    as (buf' & w' & Hrun & _ & _ & Hdefault).
  - reflexivity.
  - reflexivity.
  - rewrite length_repeat. simpl. lia.
  - discriminate.
  - exists buf', w'. split; [exact Hrun|].
    apply Hdefault; reflexivity.
Defined.

(** C6 (name invariant).  [create] returns either no handle or the handle
    of a greeter whose name is not empty and shorter than 256 bytes; and
    after any sequence of [set_name], [greet] and [get_name] calls on that
    greeter, with any arguments, each call has returned and the name is
    still not empty and shorter than 256 bytes. *)
Theorem name_invariant_holds config w :
  exists r w1,
    hello_greeter_create config w = Some (r, w1)
    /\ match r with
       | None => True
       | Some g =>
           forall us,
           exists w2 nm gr up,
             perform_uses g us w1 = Some (tt, w2)
             /\ greeter_view w2 g = Some (nm, gr, up)
             /\ nm <> EmptyString
             /\ String.length nm < 256
       end.
Proof.
  destruct (create_establishes_invariant config w) as ([g|] & w1 & Hrun & H).
  - exists (Some g), w1. split; [exact Hrun|]. intros us.
    destruct (uses_keep_invariant g us w1 H)
      as (w2 & Hrest & nm & gr & up & Hv & Hne & Hlen).
    exists w2, nm, gr, up. repeat split; try assumption.
    unfold MAX_NAME_LENGTH in Hlen. lia.
  - now exists None, w1.
Qed.

(** C7 (error channel).  From any state of the error channel,
    [hello_clear_error] leaves a state in which [hello_has_error] answers
    false and [hello_get_last_error] answers the empty string (the buffer
    itself then holds the empty C string).  In every state
    [hello_get_last_error] answers the stored message when the flag is set
    and the empty string when it is not, [hello_has_error] answers the flag,
    and both leave the world as it was. *)
Theorem clear_error_resets_channel (w : World) :
  hello_has_error (hello_clear_error w) = (false, hello_clear_error w)
  /\ hello_get_last_error (hello_clear_error w)
     = (EmptyString, hello_clear_error w)
  /\ c_str (g_error_buffer (hello_clear_error w)) = EmptyString
  /\ hello_get_last_error w
     = (if g_has_error w then g_error_buffer w else EmptyString, w)
  /\ hello_has_error w = (g_has_error w, w)
  /\ snd (hello_get_last_error w) = w
  /\ snd (hello_has_error w) = w.
Proof. repeat split. Qed.

(** C8 (no bound on the greeting).  For every greeting text, of whatever
    length, and every valid name, [create] succeeds when its three
    allocations do, and the greeter owns a block, not live before the call,
    that holds the whole greeting with its terminator: nothing of it is
    rejected or cut. *)
Theorem create_accepts_any_greeting w nm gr up :
  valid_name nm = true ->
  allocs_ok 3 (alloc_outcomes w) = true ->
  exists g w' pn pg,
    hello_greeter_create (Some (mkConfig (Some nm) (Some gr) up)) w
    = Some (Some g, w')
    /\ greeter_view w' g = Some (c_str nm, c_str gr, up)
    /\ heap w' !! g = Some (Obj (mkGreeter (Some pn) (Some pg) up))
    /\ heap w !! pg = None
    /\ heap w' !! pg = Some (Chars (c_str gr +:+ String NUL EmptyString))
    /\ string_at w' (Some pg) = Some (c_str gr)
    /\ (nul_free gr -> string_at w' (Some pg) = Some gr).
Proof.
  intros Hv Ha.
  destruct (create_constructs (Some (mkConfig (Some nm) (Some gr) up)) w
              Hv Ha)
    as (g & pn & pg & w' & Hrun & Hview & _ & _ & Hfresh & Hg & _ & Hp & _).
  cbn in Hview, Hg, Hp.
  assert (Hat : string_at w' (Some pg) = Some (c_str gr)).
  { unfold string_at. rewrite Hp.
    now rewrite c_str_terminated by apply c_str_nul_free. }
  exists g, w', pn, pg. repeat split; try assumption.
  intros Hnf. now rewrite Hat, Hnf.
Qed.

Lemma create_accepts_any_greeting_witness :
  exists g w' pn pg,
    hello_greeter_create
      (Some (mkConfig (Some "World") (Some (repeat "g" 100)) false))
      (initial_world [])
    = Some (Some g, w')
    /\ heap w' !! g = Some (Obj (mkGreeter (Some pn) (Some pg) false))
    /\ string_at w' (Some pg) = Some (repeat "g" 100)
    /\ (MAX_GREETING_LENGTH < strlen (repeat "g" 100))%N.
Proof.
  destruct (create_accepts_any_greeting (initial_world []) "World"
              (repeat "g" 100) false eq_refl eq_refl)
    as (g & w' & pn & pg & Hrun & _ & Hg & _ & _ & _ & Hat).
  exists g, w', pn, pg. repeat split; try assumption.
  apply Hat. reflexivity.
Defined.

(** C9 (return value), amended.  For every live greeter holding greeting
    [gr] and name [nm] whose lengths add up, with the three bytes of [", "]
    and ["!"], to at most [INT_MAX], and every buffer of capacity [c > 0],
    [greet] returns [length gr + length nm + 3], whatever the capacity. *)
Theorem greet_returns_required_length w g nm gr up buf c :
  greeter_view w g = Some (nm, gr, up) ->
  (0 < c)%N ->
  N.to_nat c <= String.length buf ->
  (Z.of_nat (String.length gr + String.length nm + 3) <= INT_MAX)%Z ->
  exists buffer' w',
    hello_greeter_greet (Some g) (Some buf) c w
    = Some (Z.of_nat (String.length gr + String.length nm + 3), buffer', w').
Proof.
  intros Hv Hc _ Hfit. rewrite <- length_greeting_text in *.
  destruct (greet_formats w g nm gr up buf c Hv Hc Hfit) as (buf' & Hrun & _).
  rewrite Hrun. now eexists _, _.
Qed.

(** C9 as stated fails for a greeting of 2^31 bytes, which [create]
    accepts: the sum of the lengths is 2^31 + 8, more than an [int] holds,
    and [greet] returns -1. *)
Lemma greet_returns_required_length_counterexample :
  exists g w',
    hello_greeter_create (Some (long_config true)) (initial_world [])
    = Some (Some g, w')
    /\ greeter_view w' g = Some ("World", long_greeting, true)
    /\ Z.of_nat (String.length long_greeting + String.length "World" + 3)
       = 2147483656%Z
    /\ hello_greeter_greet (Some g) (Some "0123") 4 w'
       = Some ((-1)%Z, Some ("aaa" +:+ String NUL EmptyString),
               hello_set_error "Formatting failed" [] w').
Proof.
  destruct (long_greeter_created true) as (g & w' & Hrun & Hview & _).
  exists g, w'. split; [exact Hrun|]. split; [exact Hview|]. split.
  - pose proof length_long_greeting as H. revert H.
    generalize (String.length long_greeting). simpl. lia.
  - rewrite (greet_long_greeting w' g "World" true "0123" 4 Hview) by lia.
    reflexivity.
Qed.

Lemma greet_returns_required_length_witness :
  exists buffer' w',
    hello_greeter_greet (Some 1%positive) (Some "0123") 4 (sample_world false)
    = Some (13%Z, buffer', w').
Proof.
  apply (greet_returns_required_length (sample_world false) 1
           "World" "Hello" false "0123" 4).
  - reflexivity.
  - reflexivity.
  - simpl. lia.
  - discriminate.
Defined.

(** C10 (successful calls leave the error channel alone), amended.  A
    [create] that returns a handle, a [set_name] that returns true, a
    [get_name] on a non-null handle, a [destroy] of any handle, and a
    [greet] on a live greeter whose formatted text is at most [INT_MAX]
    bytes long and strictly shorter than the capacity: each leaves the flag
    and the message of the error channel exactly as they were. *)
Theorem success_keeps_error_channel o w r w' :
  perform o w = Some (r, w') ->
  succeeded w o r ->
  g_has_error w' = g_has_error w /\ g_error_buffer w' = g_error_buffer w.
Proof.
  destruct o as [config | greeter | greeter buffer c | greeter | greeter name];
    cbn [perform]; unfold bind, ret; intros Hrun Hok.
  - destruct (hello_greeter_create config w) as [[[g|] w1]|] eqn:E;
      simplify_eq; try contradiction.
    apply (create_handle_keeps_channel _ _ _ _ E).
  - destruct (hello_greeter_destroy greeter w) as [[u w1]|] eqn:E;
      simplify_eq.
    apply (destroy_keeps_channel _ _ _ _ E).
  - destruct greeter as [g|]; [|contradiction].
    destruct buffer as [buf|]; [|contradiction].
    destruct r; try contradiction.
    destruct Hok as (nm & gr & up & Hv & Hroom & Hfit).
    destruct (greet_formats w g nm gr up buf c Hv ltac:(lia) Hfit)
      as (buf' & Hg & _).
    rewrite Hg in Hrun.
    destruct (N.leb_spec c (N.of_nat (String.length (greeting_text gr nm))));
      [lia|].
    now simplify_eq.
  - destruct greeter as [g|]; [|contradiction].
    destruct (hello_greeter_get_name (Some g) w) as [[p w1]|] eqn:E;
      simplify_eq.
    apply (get_name_keeps_channel _ _ _ _ E).
  - destruct (hello_greeter_set_name greeter name w) as [[[] w1]|] eqn:E;
      simplify_eq; try contradiction.
    apply (set_name_true_keeps_channel _ _ _ _ E).
Qed.

(** C10 as stated fails for a greeting of 2^31 bytes and a buffer of 2^32
    bytes: the text, 2^31 + 8 bytes long, is shorter than the capacity, yet
    the formatting fails - once the greeting and a terminator are in the
    buffer - and [greet] sets the error channel, which was clear. *)
Lemma success_keeps_error_channel_counterexample :
  exists g w',
    hello_greeter_create (Some (long_config false)) (initial_world [])
    = Some (Some g, w')
    /\ greeter_view w' g = Some ("World", long_greeting, false)
    /\ (N.of_nat (String.length (greeting_text long_greeting "World"))
        < 4294967296)%N
    /\ N.to_nat 4294967296 <= String.length vast_buffer
    /\ perform (Greet (Some g) (Some vast_buffer) 4294967296) w'
       = Some (Written (-1)
                 (Some (store_bytes vast_buffer
                          (long_greeting +:+ String NUL EmptyString))),
               hello_set_error "Formatting failed" [] w')
    /\ g_has_error w' = false
    /\ g_has_error (hello_set_error "Formatting failed" [] w') = true.
Proof.
  destruct (long_greeter_created false) as (g & w' & Hrun & Hview & Hclear).
  exists g, w'. split; [exact Hrun|]. split; [exact Hview|]. split.
  { rewrite length_greeting_text.
    pose proof length_long_greeting as H. revert H.
    generalize (String.length long_greeting). simpl. lia. }
  split.
  { unfold vast_buffer. rewrite length_repeat. lia. }
  split.
  { cbn [perform]. unfold bind.
    rewrite (greet_overflows _ _ "World" long_greeting false);
      [| exact Hview | reflexivity | apply long_greeting_text_overflows].
    rewrite failed_text_long.
    assert (Hlen : String.length long_greeting = Z.to_nat 2147483648)
      by (unfold long_greeting; apply length_repeat).
    rewrite Nat.min_r by (rewrite Hlen; lia).
    rewrite take_all by lia. reflexivity. }
  split; [exact Hclear | apply has_error_set_error].
Qed.

Lemma success_keeps_error_channel_witness :
  exists buffer' w',
    perform (Greet (Some 1%positive) (Some (repeat "x" 20)) 20)
      (sample_world false)
    = Some (Written 13 buffer', w')
    /\ g_has_error w' = false
    /\ g_error_buffer w' = repeat NUL 1024.
Proof.
  eexists _, _. split; [vm_compute; reflexivity|].
  eapply (success_keeps_error_channel
            (Greet (Some 1%positive) (Some (repeat "x" 20)) 20)
            (sample_world false)).
  - vm_compute. reflexivity.
  - exists "World", "Hello", false.
    split; [reflexivity|]. split; [reflexivity | discriminate].
Defined.

(** * Further properties of the library *)

(** ** str_to_upper *)

Lemma toupper_idempotent c : toupper (toupper c) = toupper c.
Proof. destruct c as [[] [] [] [] [] [] [] []]; reflexivity. Qed.

Lemma str_to_upper_loop_idempotent m :
  str_to_upper_loop (str_to_upper_loop m) = str_to_upper_loop m.
Proof.
  induction m as [|c m IH]; simpl; [reflexivity|].
  destruct (is_nul c) eqn:E; simpl.
  - now rewrite E.
  - now rewrite is_nul_toupper, E, toupper_idempotent, IH.
Qed.

(** X1 (str_to_upper).  [str_to_upper] does nothing to a null pointer.  On
    a region it converts the C string in place, byte by byte with
    [toupper]: the region keeps its size, the string keeps its length, the
    terminator and every byte after it are untouched, and converting again
    changes nothing. *)
Theorem str_to_upper_in_place m :
  str_to_upper None = None
  /\ exists m',
       str_to_upper (Some m) = Some m'
       /\ String.length m' = String.length m
       /\ c_str m' = upper (c_str m)
       /\ strlen m' = strlen m
       /\ drop (String.length (c_str m)) m' = drop (String.length (c_str m)) m
       /\ str_to_upper (Some m') = Some m'.
Proof.
  split; [reflexivity|]. exists (str_to_upper_loop m). cbn [str_to_upper].
  split; [reflexivity|].
  split; [apply length_str_to_upper_loop|].
  split; [apply c_str_str_to_upper_loop|].
  split; [unfold strlen; now rewrite c_str_str_to_upper_loop, length_upper|].
  split; [now apply drop_str_to_upper_loop|].
  now rewrite str_to_upper_loop_idempotent.
Qed.

(** ** safe_strdup *)

(** X2 (safe_strdup).  [safe_strdup] of a null pointer returns null and
    changes nothing.  Of a string it returns either a block that was not
    live, of [strlen + 1] bytes, holding the string and its terminator, with
    every other block and the error channel as they were; or, when the
    allocation fails, null with the heap unchanged and the error channel
    set. *)
Theorem safe_strdup_copies str w :
  exists p w',
    safe_strdup str w = Some (p, w')
    /\ match str, p with
       | None, None => w' = w
       | None, Some _ => False
       | Some s, Some a =>
           next_alloc_ok w = true
           /\ heap w !! a = None
           /\ heap w' = <[a := Chars (c_str s +:+ String NUL EmptyString)]>
                          (heap w)
           /\ string_at w' (Some a) = Some (c_str s)
           /\ g_has_error w' = g_has_error w
           /\ g_error_buffer w' = g_error_buffer w
       | Some s, None =>
           next_alloc_ok w = false
           /\ heap w' = heap w
           /\ g_has_error w' = true
       end.
Proof.
  destruct str as [s|]; [|now exists None, w].
  destruct (next_alloc_ok w) eqn:Ha.
  - rewrite (safe_strdup_succeeds s w Ha). eexists _, _.
    split; [reflexivity|]. cbn.
    split; [reflexivity|]. split; [apply fresh_not_live|].
    split; [reflexivity|]. split; [|split; reflexivity].
    rewrite lookup_insert_eq.
    now rewrite c_str_terminated by apply c_str_nul_free.
  - rewrite (safe_strdup_fails s w Ha). eexists _, _.
    split; [reflexivity|]. split; [reflexivity|].
    now rewrite heap_set_error, has_error_set_error.
Qed.

(** ** hello_set_error *)

Lemma nul_free_cons c s :
  is_nul c = false -> nul_free s -> nul_free (String c s).
Proof. unfold nul_free. simpl. now intros -> ->. Qed.

Lemma nul_free_cons_inv c s :
  nul_free (String c s) -> is_nul c = false /\ nul_free s.
Proof.
  unfold nul_free. simpl. destruct (is_nul c); [discriminate|].
  now intros [= ->].
Qed.

Lemma nul_free_digits d : nul_free (NilEmpty.string_of_uint d).
Proof.
  induction d; simpl; try reflexivity; now apply nul_free_cons.
Qed.

Lemma nul_free_string_of_size n : nul_free (string_of_size n).
Proof.
  unfold string_of_size, NilZero.string_of_uint.
  destruct (N.to_uint n); try reflexivity; apply nul_free_digits.
Qed.

Lemma nul_free_string_of_int d : nul_free (string_of_int d).
Proof.
  unfold string_of_int, NilZero.string_of_int, NilZero.string_of_uint.
  destruct (Z.to_int d) as [u|u]; destruct u;
    try reflexivity; try apply nul_free_digits;
    apply nul_free_cons; try reflexivity; apply nul_free_digits.
Qed.

(** The rendering of a format that is a C string holds no NUL byte. *)
Lemma nul_free_render_bounded n : forall fmt args,
  String.length fmt <= n -> nul_free fmt -> nul_free (render fmt args).
Proof.
  induction n as [|n IH]; intros fmt args Hlen Hnf.
  - destruct fmt; [reflexivity | simpl in Hlen; lia].
  - destruct fmt as [|c rest]; [reflexivity|].
    apply nul_free_cons_inv in Hnf as [Hc Hrest]. simpl in Hlen.
    assert (Hplain : nul_free (String c (render rest args)))
      by (apply nul_free_cons; [exact Hc | apply IH; [lia | exact Hrest]]).
    destruct c as [[] [] [] [] [] [] [] []]; try exact Hplain.
    destruct rest as [|c2 rest2]; [exact Hplain|].
    apply nul_free_cons_inv in Hrest as [Hc2 Hrest2]. simpl in Hlen.
    assert (Hskip : forall a, nul_free (render rest2 a))
      by (intros a; apply IH; [lia | exact Hrest2]).
    destruct c2 as [[] [] [] [] [] [] [] []]; try exact Hplain.
    all: try solve
      [ simpl; destruct args as [|[s|d|k] args']; try apply Hskip;
        apply nul_free_app;
        [first [apply c_str_nul_free | apply nul_free_string_of_int]
        | apply Hskip] ].
    destruct rest2 as [|c3 rest3]; [exact Hplain|].
    apply nul_free_cons_inv in Hrest2 as [Hc3 Hrest3]. simpl in Hlen.
    assert (Hskip3 : forall a, nul_free (render rest3 a))
      by (intros a; apply IH; [lia | exact Hrest3]).
    destruct c3 as [[] [] [] [] [] [] [] []]; try exact Hplain.
    simpl. destruct args as [|[s|d|k] args']; try apply Hskip3.
    apply nul_free_app; [apply nul_free_string_of_size | apply Hskip3].
Qed.

Lemma nul_free_render fmt args : nul_free fmt -> nul_free (render fmt args).
Proof. now apply (nul_free_render_bounded (String.length fmt)). Qed.

Lemma length_set_error fmt args w :
  String.length (g_error_buffer w) = N.to_nat ERROR_BUFFER_SIZE ->
  String.length (g_error_buffer (hello_set_error fmt args w))
  = N.to_nat ERROR_BUFFER_SIZE.
Proof.
  intros Hlen. unfold hello_set_error, snprintf.
  destruct (ERROR_BUFFER_SIZE =? 0)%N eqn:E; [discriminate E|].
  destruct (INT_MAX <? _)%Z;
    cbn [g_error_buffer]; (rewrite length_store_bytes; [exact Hlen|]);
    rewrite length_app, length_take, Hlen;
    change (N.to_nat ERROR_BUFFER_SIZE) with 1024; simpl String.length; lia.
Qed.

(** X3 (hello_set_error).  For a format within the model - a C string
    whose directives are [%s], [%d] and [%zu], each with an argument of its
    type - and a rendering of at most [INT_MAX] bytes, [hello_set_error]
    sets the flag and stores the rendering cut to 1023 bytes - the whole
    rendering when it is shorter than the buffer - whatever message was
    stored before (the last error wins).  The buffer keeps its 1024 bytes,
    also through [hello_clear_error], and the heap and the allocator are
    untouched. *)
Theorem set_error_stores_message fmt args w :
  format_ok fmt args = true ->
  nul_free fmt ->
  (Z.of_nat (String.length (render fmt args)) <= INT_MAX)%Z ->
  String.length (g_error_buffer w) = N.to_nat ERROR_BUFFER_SIZE ->
  g_has_error (hello_set_error fmt args w) = true
  /\ c_str (fst (hello_get_last_error (hello_set_error fmt args w)))
     = take 1023 (render fmt args)
  /\ (String.length (render fmt args) < 1024 ->
      c_str (fst (hello_get_last_error (hello_set_error fmt args w)))
      = render fmt args)
  /\ (forall fmt0 args0,
        format_ok fmt0 args0 = true ->
        c_str (fst (hello_get_last_error
                      (hello_set_error fmt args
                         (hello_set_error fmt0 args0 w))))
        = take 1023 (render fmt args))
  /\ String.length (g_error_buffer (hello_set_error fmt args w)) = 1024
  /\ String.length (g_error_buffer (hello_clear_error w)) = 1024
  /\ heap (hello_set_error fmt args w) = heap w
  /\ alloc_outcomes (hello_set_error fmt args w) = alloc_outcomes w.
Proof.
  intros _ Hfmt Hfit Hlen.
  pose proof (nul_free_render fmt args Hfmt) as Hnf.
  destruct (set_error_message fmt args w Hnf Hfit) as [He Hmsg].
  split; [exact He|]. split; [exact Hmsg|]. split.
  { intros Hshort. rewrite Hmsg. apply take_all.
    change (N.to_nat ERROR_BUFFER_SIZE - 1) with 1023. lia. }
  split.
  { intros fmt0 args0 _.
    apply (set_error_message fmt args (hello_set_error fmt0 args0 w) Hnf Hfit). }
  split; [exact (length_set_error fmt args w Hlen)|].
  split.
  { unfold hello_clear_error. cbn [g_error_buffer].
    rewrite length_store_bytes; [exact Hlen|]. rewrite Hlen.
    change (N.to_nat ERROR_BUFFER_SIZE) with 1024. simpl. lia. }
  split; [apply heap_set_error | apply outcomes_set_error].
Qed.

Lemma set_error_stores_message_witness :
  c_str (fst (hello_get_last_error
                (hello_set_error "Test error %d" [ArgD 42]
                   (hello_set_error "Some error" [] (initial_world [])))))
  = "Test error 42".
Proof.
  destruct (set_error_stores_message "Test error %d" [ArgD 42]
              (initial_world []))
    as (_ & _ & _ & Hlast & _).
  - reflexivity.
  - reflexivity.
  - discriminate.
  - reflexivity.
  - apply (Hlast "Some error" []). reflexivity.
Defined.

(** ** create and destroy *)

(** X4 (create is all or nothing).  [create] always returns.  It returns
    null exactly when the name it works with is invalid or one of its three
    allocations fails; then the error channel is set and the heap is as it
    was before the call: what had been allocated is released.  Otherwise
    the handle is a block that was not live and the error channel is as it
    was. *)
Theorem create_all_or_nothing config w :
  exists r w',
    hello_greeter_create config w = Some (r, w')
    /\ (r = None <->
        valid_name (requested_name config) = false
        \/ allocs_ok 3 (alloc_outcomes w) = false)
    /\ match r with
       | None => heap w' = heap w /\ g_has_error w' = true
       | Some g =>
           heap w !! g = None
           /\ is_Some (greeter_view w' g)
           /\ g_has_error w' = g_has_error w
           /\ g_error_buffer w' = g_error_buffer w
       end.
Proof.
  destruct (valid_name (requested_name config)) eqn:Hvalid.
  2:{ destruct (create_rejects config w Hvalid) as (fmt & args & ->).
      eexists None, _. split; [reflexivity|]. split; [tauto|].
      now rewrite has_error_set_error, heap_set_error. }
  destruct (allocs_ok 3 (alloc_outcomes w)) eqn:Halloc.
  2:{ destruct (create_alloc_fails config w Hvalid Halloc)
        as (w' & -> & Hh & He).
      exists None, w'. split; [reflexivity|]. split; tauto. }
  destruct (create_constructs config w Hvalid Halloc)
    as (g & pn & pg & w' & -> & Hview & Hg & _ & _ & _ & _ & _ & He & Hb).
  exists (Some g), w'. split; [reflexivity|]. split.
  - split; [discriminate | intros [H|H]; discriminate].
  - rewrite Hview. repeat split; eauto.
Qed.

(** X5 (create, get_name, destroy).  When the name is valid and the three
    allocations succeed, [create] returns a greeter on which [get_name]
    returns a pointer to the configured name, and [destroy] of that greeter
    returns with the heap exactly as it was before [create]; the error
    channel is untouched all along. *)
Theorem create_get_name_destroy config w :
  valid_name (requested_name config) = true ->
  allocs_ok 3 (alloc_outcomes w) = true ->
  exists g w1 p w2,
    hello_greeter_create config w = Some (Some g, w1)
    /\ hello_greeter_get_name (Some g) w1 = Some (Some p, w1)
    /\ string_at w1 (Some p) = Some (c_str (requested_name config))
    /\ hello_greeter_destroy (Some g) w1 = Some (tt, w2)
    /\ heap w2 = heap w
    /\ g_has_error w2 = g_has_error w
    /\ g_error_buffer w2 = g_error_buffer w.
Proof.
  intros Hvalid Halloc.
  destruct (create_succeeds config w Hvalid Halloc)
    as (g & pn & pg & Hrun & Hg & Hn & Hp & Hgn & Hgp & Hnp).
  set (w1 := mkWorld _ _ _ _) in Hrun.
  assert (Lg : heap w1 !! g
               = Some (Obj (mkGreeter (Some pn) (Some pg)
                              (requested_uppercase config))))
    by apply lookup_insert_eq.
  assert (Ln : heap w1 !! pn
               = Some (Chars (c_str (requested_name config)
                                +:+ String NUL EmptyString))).
  { unfold w1. cbn [heap]. rewrite !lookup_insert_ne by congruence.
    apply lookup_insert_eq. }
  assert (Lp : heap w1 !! pg
               = Some (Chars (c_str (requested_greeting config)
                                +:+ String NUL EmptyString))).
  { unfold w1. cbn [heap]. rewrite lookup_insert_ne by congruence.
    apply lookup_insert_eq. }
  eexists g, w1, pn, _. split; [exact Hrun|].
  split; [apply (get_name_live w1 g _ Lg)|].
  split.
  { unfold string_at. rewrite Ln.
    now rewrite c_str_terminated by apply c_str_nul_free. }
  split; [apply (destroy_live w1 g pn pg _ _ _ Lg Hnp Ln Lp)|].
  unfold with_heap, w1. cbn [heap g_has_error g_error_buffer].
  split; [|split; reflexivity].
  clear -Hg Hn Hp Hgn Hgp Hnp. heap_eq.
Qed.

Lemma create_get_name_destroy_witness :
  exists g w1 p w2,
    hello_greeter_create (Some (mkConfig (Some "Custom") None false))
      (initial_world [])
    = Some (Some g, w1)
    /\ hello_greeter_get_name (Some g) w1 = Some (Some p, w1)
    /\ string_at w1 (Some p) = Some "Custom"
    /\ hello_greeter_destroy (Some g) w1 = Some (tt, w2)
    /\ heap w2 = ∅.
Proof.
  destruct (create_get_name_destroy
              (Some (mkConfig (Some "Custom") None false))
              (initial_world []) eq_refl eq_refl)
    as (g & w1 & p & w2 & Hc & Hget & Hat & Hd & Hh & _).
  now exists g, w1, p, w2.
Defined.

(** ** greet *)








(** X7 (retrying greet).  On a live greeter whose formatted text is at most
    [INT_MAX] bytes long, whatever the capacity of a first call, the value
    it returns plus one is a capacity that suffices: a second call with
    that capacity returns the same value, writes the whole text with its
    terminator, and reports nothing (the state is the one the first call
    left, so an earlier shortfall report stays in the error channel). *)
Theorem greet_retry_succeeds w g nm gr up buf c buf2 :
  greeter_view w g = Some (nm, gr, up) ->
  (0 < c)%N ->
  (Z.of_nat (String.length (greeting_text gr nm)) <= INT_MAX)%Z ->
  String.length (greeting_text gr nm) + 1 <= String.length buf2 ->
  exists r buf' w' buf2',
    hello_greeter_greet (Some g) (Some buf) c w = Some (r, Some buf', w')
    /\ (0 <= r)%Z
    /\ hello_greeter_greet (Some g) (Some buf2) (Z.to_N r + 1) w'
       = Some (r, Some buf2', w')
    /\ c_str buf2' = shown up (greeting_text gr nm)
    /\ String.length (c_str buf2') = Z.to_nat r
    /\ String.get (Z.to_nat r) buf2' = Some NUL
    /\ String.length buf2' = String.length buf2.
Proof.
  intros Hv Hc Hfit Hroom.
  set (len := String.length (greeting_text gr nm)) in *.
  destruct (greet_formats w g nm gr up buf c Hv Hc Hfit)
    as (buf' & Hrun & _).
  fold len in Hrun.
  set (w' := if (c <=? N.of_nat len)%N then _ else w) in Hrun.
  assert (Hv' : greeter_view w' g = Some (nm, gr, up)).
  { rewrite <- Hv. apply greeter_view_heap. unfold w'.
    destruct (c <=? N.of_nat len)%N; [apply heap_set_error | reflexivity]. }
  destruct (greet_formats w' g nm gr up buf2 (Z.to_N (Z.of_nat len) + 1)
              Hv' ltac:(lia) Hfit)
    as (buf2' & Hrun2 & Hstr2 & _ & Hlen2).
  fold len in Hrun2, Hstr2.
  destruct (N.leb_spec (Z.to_N (Z.of_nat len) + 1) (N.of_nat len)); [lia|].
  rewrite Nat.min_r, take_all in Hstr2 by (fold len; lia).
  assert (Hl : String.length (c_str buf2') = len).
  { rewrite Hstr2. unfold shown. destruct up; now rewrite ?length_upper. }
  exists (Z.of_nat len), buf', w', buf2'.
  split; [exact Hrun|]. split; [lia|]. split; [exact Hrun2|].
  split; [exact Hstr2|]. rewrite Nat2Z.id.
  split; [exact Hl|]. split.
  - rewrite <- Hl. apply get_c_str_length. rewrite Hl, Hlen2; lia.
  - apply Hlen2. lia.
Qed.

Lemma greet_retry_succeeds_witness :
  exists r buf' w' buf2',
    hello_greeter_greet (Some 1%positive) (Some "0123") 4 (sample_world true)
    = Some (r, Some buf', w')
    /\ hello_greeter_greet (Some 1%positive) (Some (repeat "x" 14))
         (Z.to_N r + 1) w'
       = Some (r, Some buf2', w')
    /\ c_str buf2' = "HELLO, WORLD!".
Proof.
  destruct (greet_retry_succeeds (sample_world true) 1 "World" "Hello" true
              "0123" 4 (repeat "x" 14))
    as (r & buf' & w' & buf2' & H1 & _ & H2 & Hstr & _).
  - reflexivity.
  - reflexivity.
  - discriminate.
  - simpl. lia.
  - now exists r, buf', w', buf2'.
Defined.

(** ** Greeters do not interfere *)

Lemma separate_spec w g1 g2 :
  separate w g1 g2 = true
  <-> forall a, In a (greeter_blocks w g1) -> ~ In a (greeter_blocks w g2).
Proof.
  unfold separate. rewrite forallb_forall. split; intros H a Ha.
  - specialize (H a Ha). apply negb_true_iff in H. intros Hin.
    assert (existsb (Pos.eqb a) (greeter_blocks w g2) = true); [|congruence].
    apply existsb_exists. exists a. split; [exact Hin | apply Pos.eqb_refl].
  - apply negb_true_iff. destruct (existsb _ _) eqn:E; [|reflexivity].
    apply existsb_exists in E as (b & Hb & Heq). apply Pos.eqb_eq in Heq.
    subst b. now destruct (H a Ha).
Qed.

Lemma greeter_blocks_live w g pn pg up :
  heap w !! g = Some (Obj (mkGreeter (Some pn) (Some pg) up)) ->
  greeter_blocks w g = [g; pn; pg].
Proof. intros H. unfold greeter_blocks. now rewrite H. Qed.

(** What a handle shows depends only on the blocks the greeter owns. *)
Lemma greeter_view_agree w w' g v :
  greeter_view w g = Some v ->
  (forall a, In a (greeter_blocks w g) -> heap w' !! a = heap w !! a) ->
  greeter_view w' g = Some v /\ greeter_blocks w' g = greeter_blocks w g.
Proof.
  destruct v as [[nm gr] up]. intros Hv Hagree.
  destruct (greeter_view_inv _ _ _ _ _ Hv)
    as (pn & pg & mn & mg & Hg & Hne & Hn & Hp & -> & ->).
  rewrite (greeter_blocks_live _ _ _ _ _ Hg) in *.
  assert (Hg' : heap w' !! g = heap w !! g) by (apply Hagree; simpl; auto).
  assert (Hn' : heap w' !! pn = heap w !! pn) by (apply Hagree; simpl; auto).
  assert (Hp' : heap w' !! pg = heap w !! pg) by (apply Hagree; simpl; auto).
  rewrite Hg in Hg'. rewrite Hn in Hn'. rewrite Hp in Hp'.
  split.
  - now apply (greeter_view_intro w' g pn pg).
  - now apply greeter_blocks_live with (up := up).
Qed.

(** The blocks of a live greeter are live. *)
Lemma greeter_blocks_are_live w g v a :
  greeter_view w g = Some v ->
  In a (greeter_blocks w g) -> is_Some (heap w !! a).
Proof.
  destruct v as [[nm gr] up]. intros Hv Ha.
  destruct (greeter_view_inv _ _ _ _ _ Hv)
    as (pn & pg & mn & mg & Hg & Hne & Hn & Hp & _).
  rewrite (greeter_blocks_live _ _ _ _ _ Hg) in Ha.
  destruct Ha as [<-|[<-|[<-|[]]]]; eauto.
Qed.

Lemma separate_heap w w' g1 g2 :
  heap w' = heap w -> separate w' g1 g2 = separate w g1 g2.
Proof. unfold separate, greeter_blocks. now intros ->. Qed.

(** X8 (create leaves the other greeters alone).  Whatever [create]
    returns, every greeter that was live before the call shows the same name,
    greeting and flag after it; and a greeter that [create] returns is a
    different handle that owns no block in common with it. *)
Theorem create_leaves_other_greeters config w g2 v2 :
  greeter_view w g2 = Some v2 ->
  exists r w',
    hello_greeter_create config w = Some (r, w')
    /\ greeter_view w' g2 = Some v2
    /\ match r with
       | Some g =>
           g <> g2 /\ separate w' g g2 = true /\ separate w' g2 g = true
       | None => True
       end.
Proof.
  intros Hv2.
  assert (Hsame : forall w', heap w' = heap w -> greeter_view w' g2 = Some v2)
    by (intros w' Hh; now rewrite (greeter_view_heap w w')).
  destruct (valid_name (requested_name config)) eqn:Hvalid.
  2:{ destruct (create_rejects config w Hvalid) as (fmt & args & ->).
      eexists None, _. split; [reflexivity|].
      split; [apply Hsame, heap_set_error | exact I]. }
  destruct (allocs_ok 3 (alloc_outcomes w)) eqn:Halloc.
  2:{ destruct (create_alloc_fails config w Hvalid Halloc)
        as (w' & -> & Hh & _).
      exists None, w'. split; [reflexivity|]. split; [now apply Hsame | exact I]. }
  destruct (create_succeeds config w Hvalid Halloc)
    as (g & pn & pg & Hrun & Hg & Hn & Hp & Hgn & Hgp & Hnp).
  set (w' := mkWorld _ _ _ _) in Hrun.
  exists (Some g), w'. split; [exact Hrun|].
  assert (Hold : forall a, is_Some (heap w !! a) ->
                           heap w' !! a = heap w !! a).
  { intros a [b Hb]. unfold w'. cbn [heap].
    rewrite !lookup_insert_ne by congruence. reflexivity. }
  destruct (greeter_view_agree w w' g2 v2 Hv2) as [Hv2' Hb2].
  { intros a Ha. apply Hold. now apply (greeter_blocks_are_live w g2 v2). }
  assert (Lg : heap w' !! g
               = Some (Obj (mkGreeter (Some pn) (Some pg)
                              (requested_uppercase config))))
    by apply lookup_insert_eq.
  assert (Hfresh : forall a, In a (greeter_blocks w' g) -> heap w !! a = None).
  { intros a. rewrite (greeter_blocks_live _ _ _ _ _ Lg).
    intros [<-|[<-|[<-|[]]]]; assumption. }
  assert (Hlive2 : forall a, In a (greeter_blocks w' g2) ->
                             is_Some (heap w !! a)).
  { intros a. rewrite Hb2. now apply (greeter_blocks_are_live w g2 v2). }
  split; [exact Hv2'|]. split; [|split].
  - intros ->. destruct (Hlive2 g2) as [b Hb].
    + rewrite Hb2. destruct v2 as [[nm gr] up].
      destruct (greeter_view_inv _ _ _ _ _ Hv2)
        as (pn2 & pg2 & _ & _ & Hg2 & _).
      rewrite (greeter_blocks_live _ _ _ _ _ Hg2). now left.
    + congruence.
  - apply separate_spec. intros a Ha Ha2.
    destruct (Hlive2 a Ha2) as [b Hb]. rewrite (Hfresh a Ha) in Hb.
    discriminate.
  - apply separate_spec. intros a Ha2 Ha.
    destruct (Hlive2 a Ha2) as [b Hb]. rewrite (Hfresh a Ha) in Hb.
    discriminate.
Qed.

Lemma create_leaves_other_greeters_witness :
  exists r w',
    hello_greeter_create (Some (mkConfig (Some "Test") (Some "Hi") true))
      (sample_world false)
    = Some (r, w')
    /\ greeter_view w' 1 = Some ("World", "Hello", false).
Proof.
  destruct (create_leaves_other_greeters
              (Some (mkConfig (Some "Test") (Some "Hi") true))
              (sample_world false) 1 ("World", "Hello", false) eq_refl)
    as (r & w' & Hrun & Hview & _).
  now exists r, w'.
Defined.

(** X9 (using one greeter leaves the others alone).  Given two live
    greeters that own no block in common, every [set_name], [greet] or
    [get_name] call on the first, with any arguments and whether it
    succeeds or fails, returns and leaves the second showing the same name,
    greeting and flag, and the two still own no block in common. *)
Theorem use_leaves_other_greeters w g1 v1 g2 v2 u :
  greeter_view w g1 = Some v1 ->
  greeter_view w g2 = Some v2 ->
  separate w g1 g2 = true ->
  exists r w',
    perform (use_call g1 u) w = Some (r, w')
    /\ greeter_view w' g2 = Some v2
    /\ separate w' g1 g2 = true.
Proof.
  intros Hv1 Hv2 Hsep.
  assert (Hsame : forall w', heap w' = heap w ->
            greeter_view w' g2 = Some v2 /\ separate w' g1 g2 = true).
  { intros w' Hh.
    now rewrite (greeter_view_heap w w'), (separate_heap w w'). }
  destruct v1 as [[nm gr] up].
  destruct (greeter_view_inv _ _ _ _ _ Hv1)
    as (pn & pg & mn & mg & Hg & Hnp & Hn & Hp & -> & ->).
  destruct u as [name | buffer c |]; cbn [use_call perform]; unfold bind.
  - destruct name as [s|].
    2:{ destruct (set_name_rejects g1 None w I) as (fmt & args & ->).
        eexists _, _. split; [reflexivity | apply Hsame, heap_set_error]. }
    destruct (valid_name s) eqn:Hvalid.
    2:{ destruct (set_name_rejects g1 (Some s) w Hvalid)
          as (fmt & args & ->).
        eexists _, _. split; [reflexivity | apply Hsame, heap_set_error]. }
    destruct (next_alloc_ok w) eqn:Halloc.
    2:{ rewrite (set_name_alloc_fails g1 s w Hvalid Halloc).
        eexists _, _. split; [reflexivity|].
        apply Hsame. now rewrite heap_set_error. }
    rewrite (set_name_succeeds w g1 pn (Some pg) up mn s Hg Hn Hvalid Halloc).
    set (a := fresh (dom (heap w))).
    set (w' := mkWorld _ _ _ _).
    eexists _, w'. split; [reflexivity|].
    assert (Hfresh : heap w !! a = None) by apply fresh_not_live.
    pose proof (proj1 (separate_spec w g1 g2) Hsep) as Hdis.
    rewrite (greeter_blocks_live _ _ _ _ _ Hg) in Hdis.
    assert (Hkeep : forall b, In b (greeter_blocks w g2) ->
                              heap w' !! b = heap w !! b).
    { intros b Hb.
      destruct (greeter_blocks_are_live w g2 v2 b Hv2 Hb) as [x Hx].
      assert (b <> g1) by (intros ->; apply (Hdis g1); simpl; auto).
      assert (b <> pn) by (intros ->; apply (Hdis pn); simpl; auto).
      assert (b <> a) by congruence.
      unfold w'. cbn [heap].
      now rewrite lookup_insert_ne, lookup_delete_ne, lookup_insert_ne
        by congruence. }
    destruct (greeter_view_agree w w' g2 v2 Hv2 Hkeep) as [Hv2' Hb2].
    split; [exact Hv2'|].
    apply separate_spec. rewrite Hb2.
    assert (Lg : heap w' !! g1 = Some (Obj (mkGreeter (Some a) (Some pg) up)))
      by apply lookup_insert_eq.
    rewrite (greeter_blocks_live _ _ _ _ _ Lg).
    intros b [<-|[<-|[<-|[]]]] Hb.
    + apply (Hdis g1); simpl; auto.
    + destruct (greeter_blocks_are_live w g2 v2 a Hv2 Hb) as [x Hx].
      congruence.
    + apply (Hdis pg); simpl; auto.
  - destruct (greet_returns w g1 _ _ _ buffer c Hv1) as (r & w' & Hrun).
    rewrite Hrun. eexists _, _. split; [reflexivity|].
    apply Hsame, (greet_keeps_heap _ _ _ _ _ _ Hrun).
  - rewrite (get_name_live w g1 _ Hg). eexists _, _.
    split; [reflexivity | now apply Hsame].
Qed.

Lemma use_leaves_other_greeters_witness :
  exists g2 w2 r w',
    hello_greeter_create (Some (mkConfig (Some "Test") (Some "Hi") true))
      (sample_world false)
    = Some (Some g2, w2)
    /\ perform (use_call 1 (UseSetName (Some "New Name"))) w2 = Some (r, w')
    /\ greeter_view w' g2 = Some ("Test", "Hi", true).
Proof.
  eexists _, _. 
  assert (Hc : hello_greeter_create
                 (Some (mkConfig (Some "Test") (Some "Hi") true))
                 (sample_world false)
               = Some (Some 4%positive, _)) by (vm_compute; reflexivity).
  match type of Hc with _ = Some (_, ?w2) =>
    destruct (use_leaves_other_greeters w2 1 ("World", "Hello", false)
                4 ("Test", "Hi", true) (UseSetName (Some "New Name")))
      as (r & w' & Hrun & Hview & _);
      [reflexivity | reflexivity | reflexivity |];
    exists r, w'; split; [exact Hc|]; split; [exact Hrun | exact Hview]
  end.
Defined.

(** X10 (destroy).  [destroy] of a live greeter returns; afterwards the
    three blocks the greeter owned are no longer live and the handle is no
    longer a greeter, every other block is as it was - so that every live
    greeter that owned no block in common with it shows the same name,
    greeting and flag - and the error channel and the allocator are
    untouched. *)
Theorem destroy_releases_own_blocks w g v :
  greeter_view w g = Some v ->
  exists w',
    hello_greeter_destroy (Some g) w = Some (tt, w')
    /\ (forall a, In a (greeter_blocks w g) -> heap w' !! a = None)
    /\ (forall a, ~ In a (greeter_blocks w g) -> heap w' !! a = heap w !! a)
    /\ greeter_view w' g = None
    /\ (forall g2 v2,
          greeter_view w g2 = Some v2 -> separate w g g2 = true ->
          greeter_view w' g2 = Some v2)
    /\ g_has_error w' = g_has_error w
    /\ g_error_buffer w' = g_error_buffer w
    /\ alloc_outcomes w' = alloc_outcomes w.
Proof.
  destruct v as [[nm gr] up]. intros Hv.
  destruct (greeter_view_inv _ _ _ _ _ Hv)
    as (pn & pg & mn & mg & Hg & Hnp & Hn & Hp & _).
  rewrite (destroy_live w g pn pg up mn mg Hg Hnp Hn Hp).
  rewrite (greeter_blocks_live _ _ _ _ _ Hg).
  eexists. split; [reflexivity|]. unfold with_heap.
  cbn [heap g_has_error g_error_buffer alloc_outcomes].
  assert (Hgone : forall a, In a [g; pn; pg] ->
            delete g (delete pg (delete pn (heap w))) !! a = None).
  { intros a Ha.
    repeat (rewrite lookup_delete). repeat case_decide; try reflexivity.
    destruct Ha as [<-|[<-|[<-|[]]]]; congruence. }
  assert (Hkept : forall a, ~ In a [g; pn; pg] ->
            delete g (delete pg (delete pn (heap w))) !! a = heap w !! a).
  { intros a Ha.
    rewrite !lookup_delete_ne; [reflexivity| | |];
      intros ->; apply Ha; simpl; auto. }
  split; [exact Hgone|]. split; [exact Hkept|]. split.
  { unfold greeter_view. cbn [heap]. rewrite Hgone by (simpl; auto).
    reflexivity. }
  split; [|repeat split].
  intros g2 v2 Hv2 Hsep.
  pose proof (proj1 (separate_spec w g g2) Hsep) as Hdis.
  rewrite (greeter_blocks_live _ _ _ _ _ Hg) in Hdis.
  match goal with |- greeter_view ?w' _ = _ =>
    apply (greeter_view_agree w w' g2 v2 Hv2)
  end.
  intros a Ha. cbn [heap]. apply Hkept. intros Hin. now apply (Hdis a).
Qed.

Lemma destroy_releases_own_blocks_witness :
  exists w',
    hello_greeter_destroy (Some 1%positive) (sample_world false)
    = Some (tt, w')
    /\ heap w' = ∅.
Proof.
  destruct (destroy_releases_own_blocks (sample_world false) 1
              ("World", "Hello", false) eq_refl)
    as (w' & Hrun & Hgone & Hkept & _).
  exists w'. split; [exact Hrun|].
  apply map_eq. intros a. rewrite lookup_empty.
  destruct (in_dec Pos.eq_dec a (greeter_blocks (sample_world false) 1))
    as [Ha|Ha].
  - now apply Hgone.
  - rewrite (Hkept a Ha).
    assert (a <> 1%positive /\ a <> 2%positive /\ a <> 3%positive)
      as (H1 & H2 & H3)
      by (repeat split; intros ->; apply Ha; vm_compute; tauto).
    unfold sample_world. cbn [heap].
    now rewrite !lookup_insert_ne, lookup_empty by congruence.
Defined.

(** ** What the error messages say *)

(** Decimal renderings are short. *)

Lemma nb_digits_double d :
  Decimal.nb_digits (Decimal.Little.double d) <= S (Decimal.nb_digits d)
  /\ Decimal.nb_digits (Decimal.Little.succ_double d)
     <= S (Decimal.nb_digits d).
Proof.
  induction d as [|d [IH1 IH2]|d [IH1 IH2]|d [IH1 IH2]|d [IH1 IH2]
                  |d [IH1 IH2]|d [IH1 IH2]|d [IH1 IH2]|d [IH1 IH2]
                  |d [IH1 IH2]|d [IH1 IH2]];
    simpl; split; lia.
Qed.

Lemma nb_digits_to_little_uint p :
  Decimal.nb_digits (Pos.to_little_uint p) <= Pos.size_nat p.
Proof.
  induction p as [p IH|p IH|]; simpl.
  - pose proof (nb_digits_double (Pos.to_little_uint p)) as [_ H]. lia.
  - pose proof (nb_digits_double (Pos.to_little_uint p)) as [H _]. lia.
  - lia.
Qed.

Lemma size_nat_bound p : forall k,
  (Z.pos p < 2 ^ Z.of_nat k)%Z -> Pos.size_nat p <= k.
Proof.
  induction p as [p IH|p IH|]; intros [|k] H; simpl.
  all: try (simpl in H; lia).
  - rewrite Nat2Z.inj_succ, Z.pow_succ_r in H by lia.
    specialize (IH k). lia.
  - rewrite Nat2Z.inj_succ, Z.pow_succ_r in H by lia.
    specialize (IH k). lia.
Qed.

Lemma nb_digits_revapp d : forall d',
  Decimal.nb_digits (Decimal.revapp d d')
  = Decimal.nb_digits d + Decimal.nb_digits d'.
Proof.
  induction d; intros d'; simpl; try reflexivity; rewrite IHd; simpl; lia.
Qed.

Lemma length_digits d :
  String.length (NilEmpty.string_of_uint d) = Decimal.nb_digits d.
Proof. induction d; simpl; congruence. Qed.

Lemma length_pos_digits p k :
  (Z.pos p < 2 ^ Z.of_nat k)%Z ->
  String.length (NilZero.string_of_uint (Pos.to_uint p)) <= Nat.max 1 k.
Proof.
  intros H. unfold NilZero.string_of_uint.
  assert (Hd : String.length (NilEmpty.string_of_uint (Pos.to_uint p)) <= k).
  { rewrite length_digits. unfold Pos.to_uint.
    unfold Decimal.rev. rewrite nb_digits_revapp. simpl.
    pose proof (nb_digits_to_little_uint p).
    pose proof (size_nat_bound p k H). lia. }
  destruct (Pos.to_uint p); simpl in *; lia.
Qed.

Lemma length_string_of_size n :
  (n < 2 ^ 64)%N -> String.length (string_of_size n) <= 64.
Proof.
  intros H. unfold string_of_size. destruct n as [|p]; [simpl; lia|].
  apply (length_pos_digits p 64). lia.
Qed.

Lemma length_string_of_int d :
  (INT_MIN <= d <= INT_MAX)%Z -> String.length (string_of_int d) <= 33.
Proof.
  unfold INT_MIN, INT_MAX, string_of_int, NilZero.string_of_int.
  intros H. destruct d as [|p|p]; cbn [Z.to_int].
  - simpl. lia.
  - pose proof (length_pos_digits p 32). lia.
  - pose proof (length_pos_digits p 32).
    destruct (Pos.to_uint p) eqn:E; simpl in *; lia.
Qed.

Lemma message_stored fmt args w :
  nul_free fmt ->
  String.length (render fmt args) <= 1023 ->
  g_has_error (hello_set_error fmt args w) = true
  /\ last_error (hello_set_error fmt args w) = render fmt args.
Proof.
  intros Hfmt Hlen.
  destruct (set_error_message fmt args w) as [He Hmsg].
  - now apply nul_free_render.
  - unfold INT_MAX. lia.
  - split; [exact He|]. unfold last_error. rewrite Hmsg.
    apply take_all. change (N.to_nat ERROR_BUFFER_SIZE - 1) with 1023. lia.
Qed.

Lemma message_is msg fmt args w :
  nul_free fmt ->
  render fmt args = msg ->
  String.length msg <= 1023 ->
  g_has_error (hello_set_error fmt args w) = true
  /\ last_error (hello_set_error fmt args w) = msg
  /\ heap (hello_set_error fmt args w) = heap w.
Proof.
  intros Hfmt <- Hlen. destruct (message_stored fmt args w Hfmt Hlen).
  now rewrite heap_set_error.
Qed.

Ltac plain_message :=
  apply message_is; [reflexivity | reflexivity | simpl String.length; lia].

Lemma validate_name_message name w :
  match name with
  | Some s => valid_name s = false /\ (strlen s <= SIZE_MAX)%N
  | None => True
  end ->
  exists fmt args,
    validate_name name w = Some (false, hello_set_error fmt args w)
    /\ g_has_error (hello_set_error fmt args w) = true
    /\ last_error (hello_set_error fmt args w) = name_error name
    /\ heap (hello_set_error fmt args w) = heap w.
Proof.
  destruct name as [s|]; unfold validate_name, name_error.
  2:{ intros _. eexists _, _. split; [reflexivity|]. plain_message. }
  intros [Hv Hsize]. unfold valid_name in Hv.
  destruct (N.eqb_spec (strlen s) 0) as [E|E].
  { eexists _, _. split; [reflexivity|]. plain_message. }
  destruct (N.leb_spec MAX_NAME_LENGTH (strlen s)) as [L|L].
  - eexists _, _. split; [reflexivity|].
    apply message_is; [reflexivity | reflexivity |].
    rewrite !length_app.
    pose proof (length_string_of_size (strlen s)) as Hd.
    unfold SIZE_MAX in Hsize. simpl String.length. lia.
  - apply andb_false_iff in Hv as [H|H]; apply N.ltb_ge in H; lia.
Qed.

(** X11 (validation messages).  Every call that fails validation, with a
    name whose length fits [size_t], returns its sentinel with the heap
    unchanged, and the message a caller then reads is: "greeter is NULL" for
    a null handle, "Invalid output buffer" for a null buffer or no capacity,
    "Name cannot be NULL", "Name cannot be empty", or "Name too long (n
    chars, max 255)" with n the length of the name. *)
Theorem validation_errors_are_described o w :
  validation_error o = true ->
  match validated_name o with
  | Some s => (strlen s <= SIZE_MAX)%N
  | None => True
  end ->
  exists w',
    perform o w = Some (sentinel o, w')
    /\ g_has_error w' = true
    /\ last_error w' = validation_message o
    /\ heap w' = heap w.
Proof.
  destruct o as [config | greeter | greeter buffer c | greeter | greeter name];
    cbn [validation_error perform sentinel validated_name validation_message];
    unfold bind; try discriminate.
  - intros Hv Hsize.
    assert (Hinvalid : valid_name (requested_name config) = false).
    { destruct config as [cfg|]; [|discriminate].
      unfold requested_name. cbn [default from_option id].
      destruct (config_name cfg); [now apply negb_true_iff | discriminate]. }
    destruct (validate_name_message (Some (requested_name config)) w)
      as (fmt & args & E & Hmsg); [now split|].
    exists (hello_set_error fmt args w). split; [|exact Hmsg].
    unfold hello_greeter_create, bind.
    change (match config_name match config with Some c => c | None => HELLO_GREETER_CONFIG_DEFAULT end with Some n => n | None => "World" end) with (requested_name config).
    rewrite E. reflexivity.
  - intros H _. unfold hello_greeter_greet.
    destruct greeter as [g|].
    2:{ eexists. split; [reflexivity|].
        plain_message. }
    destruct buffer as [buf|].
    2:{ eexists. split; [reflexivity|].
        plain_message. }
    rewrite H. eexists. split; [reflexivity|].
    plain_message.
  - destruct greeter as [g|]; [discriminate|]. intros _ _.
    eexists. split; [reflexivity|].
    plain_message.
  - destruct greeter as [g|].
    2:{ intros _ _. eexists. split; [reflexivity|].
        plain_message. }
    intros Hv Hsize.
    destruct (validate_name_message name w) as (fmt & args & E & Hmsg).
    { destruct name as [s|]; [|exact I].
      split; [now apply negb_true_iff | exact Hsize]. }
    exists (hello_set_error fmt args w). split; [|exact Hmsg].
    unfold hello_greeter_set_name, bind. rewrite E. reflexivity.
Qed.


Lemma int_wrap_in_range z :
  (INT_MIN <= z <= INT_MAX)%Z -> int_wrap z = z.
Proof.
  unfold int_wrap, INT_MIN, INT_MAX. intros H.
  rewrite Z.mod_small; lia.
Qed.

(** X12 (shortfall message).  When the formatted text of a live greeter is
    shorter than [INT_MAX] and the capacity is not more than its length,
    [greet] returns that length and the message a caller then reads is
    "Buffer too small (need n, have c)", n being the length plus one - the
    capacity that suffices - and c the capacity given. *)
Theorem greet_shortfall_is_described w g nm gr up buf c :
  greeter_view w g = Some (nm, gr, up) ->
  (0 < c)%N ->
  (c <= N.of_nat (String.length (greeting_text gr nm)))%N ->
  (Z.of_nat (String.length (greeting_text gr nm)) < INT_MAX)%Z ->
  exists buf' w',
    hello_greeter_greet (Some g) (Some buf) c w
    = Some (Z.of_nat (String.length (greeting_text gr nm)), Some buf', w')
    /\ g_has_error w' = true
    /\ last_error w'
       = "Buffer too small (need "
           +:+ string_of_int
                 (Z.of_nat (String.length (greeting_text gr nm)) + 1)
           +:+ ", have " +:+ string_of_size c +:+ ")"
    /\ heap w' = heap w.
Proof.
  intros V Hc Hsmall Hfit.
  destruct (greet_formats w g nm gr up buf c V Hc ltac:(lia))
    as (buf' & E & _).
  exists buf'. eexists. split; [exact E|].
  apply N.leb_le in Hsmall. rewrite Hsmall. unfold report_shortfall.
  apply N.leb_le in Hsmall.
  rewrite int_wrap_in_range by (unfold INT_MIN, INT_MAX in *; lia).
  apply message_is; [reflexivity | reflexivity |].
  rewrite !length_app.
  pose proof (length_string_of_int
                (Z.of_nat (String.length (greeting_text gr nm)) + 1)) as Hd.
  pose proof (length_string_of_size c) as Hs.
  unfold INT_MIN, INT_MAX in *. simpl String.length. lia.
Qed.

Lemma last_error_eq w1 w2 :
  g_error_buffer w1 = g_error_buffer w2 ->
  g_has_error w1 = g_has_error w2 ->
  last_error w1 = last_error w2.
Proof.
  intros Hb He. unfold last_error, hello_get_last_error. cbn [fst].
  now rewrite Hb, He.
Qed.

Lemma strdup_message s w :
  (strlen s <= SIZE_MAX)%N ->
  g_has_error
    (hello_set_error "Failed to allocate string of length %zu"
       [ArgZu (strlen s)] w) = true
  /\ last_error
       (hello_set_error "Failed to allocate string of length %zu"
          [ArgZu (strlen s)] w)
     = "Failed to allocate string of length " +:+ string_of_size (strlen s)
  /\ heap
       (hello_set_error "Failed to allocate string of length %zu"
          [ArgZu (strlen s)] w) = heap w.
Proof.
  intros Hsize. apply message_is; [reflexivity | |].
  - cbn [render]. now rewrite app_empty_r.
  - rewrite length_app. pose proof (length_string_of_size (strlen s)).
    unfold SIZE_MAX in Hsize. simpl String.length. lia.
Qed.

(** X13 (allocation failure in create).  When the name is valid and one of
    the three allocations fails, [create] returns null with the heap as it
    was, and the message names the request that failed: "Failed to allocate
    Hello_Greeter" for the first, "Failed to allocate string of length n"
    for the second and the third, n being the length of the name and of the
    greeting. *)
Theorem create_allocation_failure_is_described config w :
  valid_name (requested_name config) = true ->
  allocs_ok 3 (alloc_outcomes w) = false ->
  (strlen (requested_greeting config) <= SIZE_MAX)%N ->
  exists w',
    hello_greeter_create config w = Some (None, w')
    /\ g_has_error w' = true
    /\ last_error w' = allocation_error config (alloc_outcomes w)
    /\ heap w' = heap w.
Proof.
  intros Hv Ha Hsize.
  assert (Hname : (strlen (requested_name config) <= SIZE_MAX)%N).
  { unfold valid_name in Hv. apply andb_true_iff in Hv as [_ Hv].
    apply N.ltb_lt in Hv. unfold MAX_NAME_LENGTH, SIZE_MAX in *. lia. }
  unfold hello_greeter_create, bind.
  change (match config_name match config with Some c => c | None => HELLO_GREETER_CONFIG_DEFAULT end with Some n => n | None => "World" end) with (requested_name config).
  change (match config_greeting match config with Some c => c | None => HELLO_GREETER_CONFIG_DEFAULT end with Some n => n | None => "Hello" end) with (requested_greeting config).
  rewrite validate_name_accepts by exact Hv. simpl (negb _). step.
  unfold calloc_greeter.
  destruct (next_alloc_ok w) eqn:A1.
  2:{ rewrite alloc_fails by exact A1. step. unfold set_error, ret.
      eexists; split; [reflexivity|].
      replace (allocation_error config (alloc_outcomes w))
        with "Failed to allocate Hello_Greeter"
        by (unfold next_alloc_ok in A1;
            now destruct (alloc_outcomes w) as [|[] ?]).
      destruct (message_is "Failed to allocate Hello_Greeter"
                  "Failed to allocate Hello_Greeter" [] (advance w))
        as (He & Hm & Hh);
        [reflexivity | reflexivity | simpl String.length; lia |].
      split; [exact He|]. split; [exact Hm|]. exact Hh. }
  rewrite alloc_succeeds by exact A1. step.
  set (h0 := heap w).
  set (g := fresh (dom h0)).
  set (h1 := <[g := Obj (mkGreeter None None false)]> h0).
  assert (Hg : h0 !! g = None) by apply fresh_not_live.
  destruct (next_alloc_ok (advance w)) eqn:A2.
  2:{ rewrite safe_strdup_fails by exact A2. step.
      rewrite store_live
        by (world_simpl; unfold h1; rewrite lookup_insert_eq; eauto).
      step.
      rewrite free_live by (world_simpl; rewrite lookup_insert_eq; eauto).
      step. unfold ret. eexists; split; [reflexivity|].
      replace (allocation_error config (alloc_outcomes w))
        with ("Failed to allocate string of length "
                +:+ string_of_size (strlen (requested_name config)))
        by (unfold next_alloc_ok, advance in A1, A2; simpl in A2;
            now destruct (alloc_outcomes w) as [|[] [|[] ?]]).
      destruct (strdup_message (requested_name config) w Hname)
        as (He & Hm & _).
      split; [world_simpl; reflexivity|]. split.
      - rewrite <- Hm. apply last_error_eq; world_simpl;
          [|reflexivity].
        unfold hello_set_error, snprintf. cbn [g_error_buffer].
        repeat case_match; reflexivity.
      - world_simpl. unfold h1.
        rewrite delete_insert_eq, delete_insert_eq. now apply delete_id. }
  rewrite safe_strdup_succeeds by exact A2. step.
  set (pn := fresh (dom h1)).
  set (h2 := <[pn := _]> h1).
  assert (Hpn1 : h1 !! pn = None) by apply fresh_not_live.
  assert (Hgpn : g <> pn).
  { intros E. rewrite <- E in Hpn1. unfold h1 in Hpn1.
    rewrite lookup_insert_eq in Hpn1. discriminate. }
  assert (Hpn : h0 !! pn = None).
  { unfold h1 in Hpn1. now rewrite lookup_insert_ne in Hpn1. }
  rewrite store_live
    by (world_simpl; unfold h2, h1;
        rewrite lookup_insert_ne, lookup_insert_eq; eauto).
  step.
  set (h3 := <[g := _]> h2).
  destruct (next_alloc_ok (advance (advance w))) eqn:A3.
  { exfalso. revert A1 A2 A3 Ha. unfold next_alloc_ok, advance. simpl.
    destruct (alloc_outcomes w) as [|[] [|[] [|[] rest]]]; simpl; congruence. }
  rewrite safe_strdup_fails by exact A3. step.
  rewrite store_live
    by (world_simpl; unfold h3; rewrite lookup_insert_eq; eauto).
  step.
  rewrite free_live
    by (world_simpl; unfold h3, h2;
        rewrite 2!lookup_insert_ne, lookup_insert_eq by congruence; eauto).
  step.
  rewrite free_live
    by (world_simpl; rewrite lookup_delete_ne, lookup_insert_eq by congruence;
        eauto).
  step. unfold ret. eexists; split; [reflexivity|].
  replace (allocation_error config (alloc_outcomes w))
    with ("Failed to allocate string of length "
            +:+ string_of_size (strlen (requested_greeting config)))
    by (unfold next_alloc_ok, advance in A1, A2, A3; simpl in A2, A3;
        now destruct (alloc_outcomes w) as [|[] [|[] [|[] ?]]]).
  destruct (strdup_message (requested_greeting config) w Hsize)
    as (He & Hm & _).
  split; [world_simpl; reflexivity|]. split.
  - rewrite <- Hm. apply last_error_eq; world_simpl; [|reflexivity].
    unfold hello_set_error, snprintf. cbn [g_error_buffer].
    repeat case_match; reflexivity.
  - world_simpl. unfold h3, h2, h1. clear -Hg Hpn Hgpn. heap_eq.
Qed.

(** X14 (allocation failure in set_name).  When the name is valid and the
    allocation fails, [set_name] returns false with the heap as it was, one
    allocation request consumed, and the message "Failed to allocate string
    of length n", n being the length of the new name. *)
Theorem set_name_allocation_failure_is_described g s w :
  valid_name s = true ->
  next_alloc_ok w = false ->
  exists w',
    hello_greeter_set_name (Some g) (Some s) w = Some (false, w')
    /\ g_has_error w' = true
    /\ last_error w'
       = "Failed to allocate string of length " +:+ string_of_size (strlen s)
    /\ heap w' = heap w
    /\ alloc_outcomes w' = tail (alloc_outcomes w).
Proof.
  intros Hv Ha. eexists. split; [now apply set_name_alloc_fails|].
  assert (Hsize : (strlen s <= SIZE_MAX)%N).
  { unfold valid_name in Hv. apply andb_true_iff in Hv as [_ Hv].
    apply N.ltb_lt in Hv. unfold MAX_NAME_LENGTH, SIZE_MAX in *. lia. }
  destruct (strdup_message s (advance w) Hsize) as (He & Hm & Hh).
  split; [exact He|]. split; [exact Hm|]. split; [exact Hh|].
  now rewrite outcomes_set_error.
Qed.

Lemma validation_errors_are_described_witness :
  exists w',
    perform (SetName (Some 1%positive) (Some (repeat "a" 300)))
      (sample_world false)
    = Some (Flag false, w')
    /\ g_has_error w' = true
    /\ last_error w' = "Name too long (300 chars, max 255)"
    /\ heap w' = heap (sample_world false).
Proof.
  apply (validation_errors_are_described
           (SetName (Some 1%positive) (Some (repeat "a" 300)))
           (sample_world false)).
  - reflexivity.
  - vm_compute. discriminate.
Defined.

Lemma greet_shortfall_is_described_witness :
  exists buf' w',
    hello_greeter_greet (Some 1%positive) (Some (repeat "x" 8)) 8
      (sample_world false)
    = Some (13%Z, Some buf', w')
    /\ g_has_error w' = true
    /\ last_error w' = "Buffer too small (need 14, have 8)"
    /\ heap w' = heap (sample_world false).
Proof.
  apply (greet_shortfall_is_described (sample_world false) 1%positive
           "World" "Hello" false (repeat "x" 8) 8).
  - reflexivity.
  - reflexivity.
  - vm_compute. discriminate.
  - reflexivity.
Defined.

Lemma create_allocation_failure_is_described_witness :
  exists w',
    hello_greeter_create None (initial_world [true; false]) = Some (None, w')
    /\ g_has_error w' = true
    /\ last_error w' = "Failed to allocate string of length 5"
    /\ heap w' = heap (initial_world [true; false]).
Proof.
  apply (create_allocation_failure_is_described None
           (initial_world [true; false])).
  - reflexivity.
  - reflexivity.
  - vm_compute. discriminate.
Defined.

Lemma set_name_allocation_failure_is_described_witness :
  exists w',
    hello_greeter_set_name (Some 1%positive) (Some "Bob") out_of_memory
    = Some (false, w')
    /\ g_has_error w' = true
    /\ last_error w' = "Failed to allocate string of length 3"
    /\ heap w' = heap out_of_memory
    /\ alloc_outcomes w' = tail (alloc_outcomes out_of_memory).
Proof.
  apply (set_name_allocation_failure_is_described 1%positive "Bob"
           out_of_memory).
  - reflexivity.
  - reflexivity.
Defined.

(** * The example program (examples/hello/src/main.c) *)

Ltac run_main :=
  eexists _, _; split; [vm_compute; reflexivity|];
  split; [vm_compute; reflexivity|];
  first [ left; repeat split; vm_compute; reflexivity
        | right; repeat split; vm_compute; reflexivity ].

Ltac explore_outcomes outcomes n :=
  lazymatch n with
  | O => run_main
  | S ?k =>
      destruct outcomes as [|[|] outcomes];
      [ run_main | explore_outcomes outcomes k | run_main ]
  end.

(** X15 (the example program).  Whatever the allocator does and whatever
    the four stack buffers hold at first, [main] returns with every block it
    allocated released.  It returns [EXIT_SUCCESS] exactly when the first
    twelve allocation requests - the four [create] calls that must succeed -
    all succeed; then the output is the full transcript, with the two
    "After" lines of example 4 exactly when the allocation of [set_name]
    succeeds, nothing is written to [stderr] and the error channel is
    clear.  Otherwise it returns [EXIT_FAILURE]: the output is a prefix of
    the transcript and [stderr] holds one line, "Error: " and the last error
    message. *)
Theorem main_exits_cleanly stack outcomes :
  exists code p,
    main stack (start outcomes) = Some (code, p)
    /\ heap (world p) = ∅
    /\ (code = EXIT_SUCCESS
        /\ allocs_ok 12 outcomes = true
        /\ stdout p = transcript (nth_alloc_ok 12 outcomes)
        /\ stderr p = EmptyString
        /\ g_has_error (world p) = false
        \/
        code = EXIT_FAILURE
        /\ allocs_ok 12 outcomes = false
        /\ String.prefix (stdout p) (transcript true) = true
        /\ stderr p
           = "Error: " +:+ c_str (g_error_buffer (world p)) +:+ LF
        /\ g_has_error (world p) = true).
Proof.
  explore_outcomes outcomes 13.
Qed.

(** * The unit tests (examples/hello/tests/test_main.c) *)

(** ** Running a program *)

Section Running.

Context {S A B : Type}.

Lemma wp_pret (a : A) (s : S) Q : Q a s -> wp (pret a) s Q.
Proof. intros H. now exists a, s. Qed.

Lemma wp_bind (m : Prog S A) (k : A -> Prog S B) s Q :
  wp m s (fun a s' => wp (k a) s' Q) -> wp (pbind m k) s Q.
Proof.
  intros (a & s' & E & b & s'' & E' & H).
  exists b, s''. split; [|exact H]. unfold pbind. now rewrite E.
Qed.

Lemma wp_weaken (m : Prog S A) s (Q Q' : A -> S -> Prop) :
  wp m s Q -> (forall a s', Q a s' -> Q' a s') -> wp m s Q'.
Proof. intros (a & s' & E & H) HQ. exists a, s'. auto. Qed.

End Running.

Lemma extends_refl p : extends p p.
Proof. exists EmptyString. symmetry. apply app_empty_r. Qed.

Lemma extends_trans p q r : extends p q -> extends q r -> extends p r.
Proof.
  intros (t & Ht) (u & Hu). exists (t +:+ u).
  now rewrite Hu, Ht, app_assoc.
Qed.

Lemma extends_same p q : stdout q = stdout p -> extends p q.
Proof. intros H. exists EmptyString. rewrite H. symmetry. apply app_empty_r. Qed.

Lemma extends_more p q t : stdout q = stdout p +:+ t -> extends p q.
Proof. intros H. now exists t. Qed.

Section Calls.

Context {A : Type}.

Lemma wp_call (m : M A) p Q :
  (exists a w,
      m (world p) = Some (a, w)
      /\ Q a (mkProcess w (stdout p) (stderr p))) ->
  wp (call m) p Q.
Proof.
  intros (a & w & E & H). exists a, (mkProcess w (stdout p) (stderr p)).
  split; [|exact H]. unfold call. now rewrite E.
Qed.

End Calls.

Lemma wp_printf fmt args p (Q : unit -> Process -> Prop) :
  Q tt (mkProcess (world p) (stdout p +:+ render fmt args) (stderr p)) ->
  wp (printf fmt args) p Q.
Proof. intros H. now eexists _, _. Qed.

Lemma wp_has_error p (Q : bool -> Process -> Prop) :
  Q (g_has_error (world p)) (mkProcess (world p) (stdout p) (stderr p)) ->
  wp has_error p Q.
Proof. intros H. now eexists _, _. Qed.

Lemma wp_get_last_error p (Q : string -> Process -> Prop) :
  Q (fst (hello_get_last_error (world p)))
    (mkProcess (world p) (stdout p) (stderr p)) ->
  wp get_last_error p Q.
Proof. intros H. now eexists _, _. Qed.

Lemma wp_clear_error p (Q : unit -> Process -> Prop) :
  Q tt (mkProcess (hello_clear_error (world p)) (stdout p) (stderr p)) ->
  wp clear_error p Q.
Proof. intros H. now eexists _, _. Qed.

(** ** Calls on a live greeter, within a process *)

Lemma wp_create config p (Q : option addr -> Process -> Prop) :
  (forall w, Q None (mkProcess w (stdout p) (stderr p))) ->
  (forall g w,
      name_invariant w g -> Q (Some g) (mkProcess w (stdout p) (stderr p))) ->
  wp (call (hello_greeter_create config)) p Q.
Proof.
  intros Hnone Hsome. apply wp_call.
  destruct (create_establishes_invariant config (world p))
    as (r & w & E & Hr).
  exists r, w. split; [exact E|]. destruct r; auto.
Qed.

Lemma wp_greet g buffer c p (Q : Z * option string -> Process -> Prop) :
  name_invariant (world p) g ->
  (forall r w,
      name_invariant w g -> Q r (mkProcess w (stdout p) (stderr p))) ->
  wp (call (hello_greeter_greet (Some g) buffer c)) p Q.
Proof.
  intros Hinv H. apply wp_call.
  destruct (use_keeps_invariant (world p) g (UseGreet buffer c) Hinv)
    as (r & w & E & Hw).
  cbn [use_call perform] in E. unfold bind, ret in E.
  destruct (hello_greeter_greet _ _ _ _) as [[r' w']|]; [|discriminate].
  injection E as _ <-. exists r', w'. auto.
Qed.

Lemma wp_set_name g nm p (Q : bool -> Process -> Prop) :
  name_invariant (world p) g ->
  (forall ok w,
      name_invariant w g -> Q ok (mkProcess w (stdout p) (stderr p))) ->
  wp (call (hello_greeter_set_name (Some g) nm)) p Q.
Proof.
  intros Hinv H. apply wp_call.
  destruct (use_keeps_invariant (world p) g (UseSetName nm) Hinv)
    as (r & w & E & Hw).
  cbn [use_call perform] in E. unfold bind, ret in E.
  destruct (hello_greeter_set_name _ _ _) as [[r' w']|]; [|discriminate].
  injection E as _ <-. exists r', w'. auto.
Qed.

(** [get_name] on a live greeter gives a pointer that can be read. *)
Lemma wp_get_name {B} g (k : string -> P B) p (Q : B -> Process -> Prop) :
  name_invariant (world p) g ->
  (forall txt, wp (k txt) (mkProcess (world p) (stdout p) (stderr p)) Q) ->
  wp (let! ptr := call (hello_greeter_get_name (Some g)) in
      let! actual := deref ptr in
      k actual) p Q.
Proof.
  intros (nm & gr & up & V & _) H.
  apply greeter_view_inv in V
    as (pn & pg & mn & mg & Hg & _ & Hn & _).
  apply wp_bind, wp_call. exists (Some pn), (world p). split.
  - now rewrite (get_name_live _ _ _ Hg).
  - apply wp_bind, wp_call. exists mn, (world p). cbn [world]. split.
    + unfold load_chars. now rewrite Hn.
    + apply H.
Qed.

Lemma wp_destroy g p (Q : unit -> Process -> Prop) :
  name_invariant (world p) g ->
  (forall w, Q tt (mkProcess w (stdout p) (stderr p))) ->
  wp (call (hello_greeter_destroy (Some g))) p Q.
Proof.
  intros (nm & gr & up & V & _) H.
  apply greeter_view_inv in V
    as (pn & pg & mn & mg & Hg & Hne & Hn & Hgr & _).
  apply wp_call. eexists tt, _. split.
  - apply (destroy_live _ _ _ _ _ _ _ Hg Hne Hn Hgr).
  - apply H.
Qed.

(** ** Every test returns *)

Ltac printed :=
  lazymatch goal with
  | |- extends _ _ =>
      first [ apply extends_same; reflexivity
            | eapply extends_more; reflexivity ]
  end.

Ltac run_step :=
  first
    [ progress cbv beta iota
    | progress cbn [TestMain.ASSERT_NOT_NULL TestMain.ASSERT_NULL
                      world stdout stderr fst snd]
    | printed
    | apply wp_pret
    | apply wp_printf
    | apply wp_has_error
    | apply wp_get_last_error
    | apply wp_clear_error
    | apply wp_get_name; [eassumption | intros ?]
    | apply wp_bind
    | apply wp_create; [intros ? | intros ? ? ?]
    | apply wp_greet; [eassumption | intros [? ?] ? ?]
    | apply wp_set_name; [eassumption | intros ? ? ?]
    | apply wp_destroy; [eassumption | intros ?]
    | apply wp_call; eexists _, _; split; [reflexivity|]
    | lazymatch goal with
      | |- wp (TestMain.ASSERT _ _ _ _ _) _ _ =>
          unfold TestMain.ASSERT; destruct (negb _)
      | |- wp (TestMain.ASSERT_STR_EQ _ _ _ _ _) _ _ =>
          unfold TestMain.ASSERT_STR_EQ; destruct (negb _)
      end ].

Ltac run := intros p; repeat run_step.

Lemma test_create_default_sound FILE :
  sound (TestMain.test_create_default FILE).
Proof. unfold TestMain.test_create_default. run. Qed.

Lemma test_create_custom_name_sound FILE :
  sound (TestMain.test_create_custom_name FILE).
Proof. unfold TestMain.test_create_custom_name. run. Qed.

Lemma test_create_empty_name_fails_sound FILE :
  sound (TestMain.test_create_empty_name_fails FILE).
Proof. unfold TestMain.test_create_empty_name_fails. run. Qed.

Lemma test_destroy_null_safe_sound : sound TestMain.test_destroy_null_safe.
Proof. unfold TestMain.test_destroy_null_safe. run. Qed.

Lemma test_greet_default_sound FILE stack :
  sound (TestMain.test_greet_default FILE stack).
Proof. unfold TestMain.test_greet_default. run. Qed.

Lemma test_greet_custom_sound FILE stack :
  sound (TestMain.test_greet_custom FILE stack).
Proof. unfold TestMain.test_greet_custom. run. Qed.

Lemma test_greet_uppercase_sound FILE stack :
  sound (TestMain.test_greet_uppercase FILE stack).
Proof. unfold TestMain.test_greet_uppercase. run. Qed.

Lemma test_greet_null_greeter_fails_sound FILE stack :
  sound (TestMain.test_greet_null_greeter_fails FILE stack).
Proof. unfold TestMain.test_greet_null_greeter_fails. run. Qed.

Lemma test_greet_null_buffer_fails_sound FILE :
  sound (TestMain.test_greet_null_buffer_fails FILE).
Proof. unfold TestMain.test_greet_null_buffer_fails. run. Qed.

Lemma test_get_name_sound FILE : sound (TestMain.test_get_name FILE).
Proof. unfold TestMain.test_get_name. run. Qed.

Lemma test_get_name_null_greeter_sound FILE :
  sound (TestMain.test_get_name_null_greeter FILE).
Proof. unfold TestMain.test_get_name_null_greeter. run. Qed.

Lemma test_set_name_sound FILE : sound (TestMain.test_set_name FILE).
Proof. unfold TestMain.test_set_name. run. Qed.

Lemma test_set_name_empty_fails_sound FILE :
  sound (TestMain.test_set_name_empty_fails FILE).
Proof. unfold TestMain.test_set_name_empty_fails. run. Qed.

Lemma test_error_initially_clear_sound FILE :
  sound (TestMain.test_error_initially_clear FILE).
Proof. unfold TestMain.test_error_initially_clear. run. Qed.

Lemma test_error_set_and_get_sound FILE :
  sound (TestMain.test_error_set_and_get FILE).
Proof. unfold TestMain.test_error_set_and_get. run. Qed.

Lemma test_error_clear_sound FILE : sound (TestMain.test_error_clear FILE).
Proof. unfold TestMain.test_error_clear. run. Qed.

Lemma test_version_sound FILE : sound (TestMain.test_version FILE).
Proof. unfold TestMain.test_version. run. Qed.

(** ** The test runner *)

Create HintDb tests.
#[local] Hint Resolve
  test_create_default_sound test_create_custom_name_sound
  test_create_empty_name_fails_sound test_destroy_null_safe_sound
  test_greet_default_sound test_greet_custom_sound
  test_greet_uppercase_sound test_greet_null_greeter_fails_sound
  test_greet_null_buffer_fails_sound test_get_name_sound
  test_get_name_null_greeter_sound test_set_name_sound
  test_set_name_empty_fails_sound test_error_initially_clear_sound
  test_error_set_and_get_sound test_error_clear_sound
  test_version_sound : tests.

Lemma extends_printed base p w t e :
  extends base p -> extends base (mkProcess w (stdout p +:+ t) e).
Proof.
  intros H. apply (extends_trans _ p); [exact H|]. now exists t.
Qed.

Lemma extends_silent base p w e :
  extends base p -> extends base (mkProcess w (stdout p) e).
Proof.
  intros H. apply (extends_trans _ p); [exact H|]. now apply extends_same.
Qed.

(** Whatever the test does, the runner counts it as run and as passed. *)
Lemma run_test_unfold func name s p' :
  (TestMain.g_tests_run s < INT_MAX)%Z ->
  (TestMain.g_tests_passed s < INT_MAX)%Z ->
  func (mkProcess (hello_clear_error (world (TestMain.process s)))
          (stdout (TestMain.process s) +:+ render "  %s... " [ArgS name])
          (stderr (TestMain.process s)))
  = Some (tt, p') ->
  TestMain.run_test func name s
  = Some (tt,
          TestMain.mkSuite
            (mkProcess (world p') (stdout p' +:+ render ("OK" +:+ LF) [])
               (stderr p'))
            (TestMain.g_tests_run s + 1) (TestMain.g_tests_passed s + 1)
            (TestMain.g_tests_failed s)).
Proof.
  intros Hrun Hpassed E.
  unfold TestMain.run_test, pbind, TestMain.count_run, TestMain.int_succ.
  apply Z.ltb_lt in Hrun. rewrite Hrun.
  unfold TestMain.within at 1. cbn [printf TestMain.process].
  unfold TestMain.within at 1.
  cbn [clear_error TestMain.process world stdout stderr].
  unfold TestMain.within at 1. cbn [TestMain.process]. rewrite E.
  unfold TestMain.count_passed, TestMain.int_succ.
  cbn [TestMain.g_tests_passed TestMain.g_tests_run
         TestMain.g_tests_failed TestMain.process].
  apply Z.ltb_lt in Hpassed. rewrite Hpassed.
  unfold TestMain.within, printf. cbn [TestMain.process]. reflexivity.
Qed.

Lemma wp_run_test func name s base (Q : unit -> TestMain.Suite -> Prop) :
  sound func ->
  (TestMain.g_tests_run s < INT_MAX)%Z ->
  (TestMain.g_tests_passed s < INT_MAX)%Z ->
  extends base (TestMain.process s) ->
  (forall p,
      extends base p ->
      Q tt (TestMain.mkSuite p (TestMain.g_tests_run s + 1)
              (TestMain.g_tests_passed s + 1) (TestMain.g_tests_failed s))) ->
  wp (TestMain.run_test func name) s Q.
Proof.
  intros Hfunc Hrun Hpassed Hbase H.
  destruct (Hfunc (mkProcess (hello_clear_error (world (TestMain.process s)))
                     (stdout (TestMain.process s)
                        +:+ render "  %s... " [ArgS name])
                     (stderr (TestMain.process s))))
    as ([] & p' & E & X).
  eexists tt, _. split.
  - apply (run_test_unfold _ _ _ _ Hrun Hpassed E).
  - apply H. apply extends_printed.
    apply (extends_trans _ _ _ (extends_printed _ _ _ _ _ Hbase) X).
Qed.

Lemma wp_within_printf fmt args s (Q : unit -> TestMain.Suite -> Prop) :
  Q tt (TestMain.mkSuite
          (mkProcess (world (TestMain.process s))
             (stdout (TestMain.process s) +:+ render fmt args)
             (stderr (TestMain.process s)))
          (TestMain.g_tests_run s) (TestMain.g_tests_passed s)
          (TestMain.g_tests_failed s)) ->
  wp (TestMain.within (printf fmt args)) s Q.
Proof. intros H. now eexists _, _. Qed.

Lemma extends_out base w out t e :
  extends base (mkProcess w out e) -> extends base (mkProcess w (out +:+ t) e).
Proof. intros H. apply (extends_trans _ _ _ H). now exists t. Qed.

Ltac ext :=
  cbn [TestMain.process];
  repeat first
    [ assumption
    | apply extends_printed
    | apply extends_out
    | apply extends_silent ].

Ltac count :=
  cbn [TestMain.g_tests_run TestMain.g_tests_passed TestMain.g_tests_failed];
  repeat match goal with
    | |- context [(?a + 1)%Z] =>
        let v := eval compute in (a + 1)%Z in
        change (a + 1)%Z with v
    end.

Ltac suite_step base :=
  cbn [TestMain.process TestMain.g_tests_run TestMain.g_tests_passed
         TestMain.g_tests_failed world stdout stderr];
  lazymatch goal with
  | |- wp (pbind _ _) _ _ => apply wp_bind
  | |- wp (TestMain.within (printf _ _)) _ _ => apply wp_within_printf
  | |- wp (TestMain.run_test _ _) _ _ =>
      apply (wp_run_test _ _ _ base);
      [ solve [auto with tests] | reflexivity | reflexivity | solve [ext]
      | intros ? ?; count ]
  | |- wp TestMain.tests_passed _ _ =>
      eexists _, _; split; [reflexivity|]; count
  | |- wp TestMain.tests_run _ _ =>
      eexists _, _; split; [reflexivity|]; count
  | |- wp TestMain.count_failed _ _ =>
      eexists _, _; split; [reflexivity|]; count
  | |- wp (pret _) _ _ => apply wp_pret
  | |- wp (if ?c then _ else _) _ _ =>
      let v := eval compute in c in change c with v; cbv iota
  | |- _ => progress cbv beta
  end.

Lemma main_runs FILE stack outcomes :
  exists p1 s,
    TestMain.test_create_default FILE
      (mkProcess (hello_clear_error (initial_world outcomes))
         (TestMain.banner +:+ "  create_default... ") EmptyString)
    = Some (tt, p1)
    /\ TestMain.main FILE stack (TestMain.start outcomes)
       = Some (EXIT_SUCCESS, s)
    /\ TestMain.g_tests_run s = 17%Z
    /\ TestMain.g_tests_passed s = 17%Z
    /\ TestMain.g_tests_failed s = 0%Z
    /\ (exists out,
          stdout (TestMain.process s)
          = out +:+ "Results: 17/17 passed" +:+ LF)
    /\ (exists t,
          stdout (TestMain.process s) = (stdout p1 +:+ "OK" +:+ LF) +:+ t).
Proof.
  destruct (test_create_default_sound FILE
              (mkProcess (hello_clear_error (initial_world outcomes))
                 (TestMain.banner +:+ "  create_default... ") EmptyString))
    as ([] & p1 & E1 & _).
  exists p1.
  set (base := mkProcess (world p1) (stdout p1 +:+ render ("OK" +:+ LF) [])
                 (stderr p1)).
  enough (wp (TestMain.main FILE stack) (TestMain.start outcomes)
            (fun a s =>
               a = EXIT_SUCCESS
               /\ TestMain.g_tests_run s = 17%Z
               /\ TestMain.g_tests_passed s = 17%Z
               /\ TestMain.g_tests_failed s = 0%Z
               /\ (exists out,
                     stdout (TestMain.process s)
                     = out +:+ "Results: 17/17 passed" +:+ LF)
               /\ extends base (TestMain.process s)))
    as (a & s & E & -> & H).
  { exists s. split; [exact E1|]. split; [exact E|]. exact H. }
  unfold TestMain.main.
  do 3 (apply wp_bind, wp_within_printf; cbv beta).
  apply wp_bind. eexists tt, _. split.
  { apply run_test_unfold; [reflexivity | reflexivity | exact E1]. }
  fold base. count. unfold TestMain.start. cbn [TestMain.g_tests_failed].
  assert (Hbase : extends base base) by apply extends_refl.
  revert Hbase. generalize base at 2 3. clear. intros p Hbase.
  repeat suite_step base.
  cbn [TestMain.g_tests_run TestMain.g_tests_passed TestMain.g_tests_failed
         TestMain.process stdout].
  split; [reflexivity|]. split; [reflexivity|]. split; [reflexivity|].
  split; [reflexivity|]. split.
  - eexists. rewrite app_assoc. reflexivity.
  - ext.
Qed.

(** X16 (the test runner counts every test as passed).  Whatever the
    allocator does, whatever the stack buffers hold and whatever the file is
    called, the test program returns [EXIT_SUCCESS] with seventeen tests run,
    seventeen counted as passed and none as failed, and its output ends with
    "Results: 17/17 passed": an assertion that fails returns from the test,
    not from [run_test]. *)
Theorem tests_are_always_counted_passed FILE stack outcomes :
  exists s,
    TestMain.main FILE stack (TestMain.start outcomes)
    = Some (EXIT_SUCCESS, s)
    /\ TestMain.g_tests_run s = 17%Z
    /\ TestMain.g_tests_passed s = 17%Z
    /\ TestMain.g_tests_failed s = 0%Z
    /\ (exists out,
          stdout (TestMain.process s)
          = out +:+ "Results: 17/17 passed" +:+ LF).
Proof.
  destruct (main_runs FILE stack outcomes)
    as (p1 & s & _ & E & Hrun & Hpassed & Hfailed & Hout & _).
  now exists s.
Qed.

(** X17 (a failed assertion is printed, then "OK").  When the first
    allocation request fails, the first test prints the FAIL line of its
    assertion at line 82, [run_test] prints "OK" after it, and the program
    still returns [EXIT_SUCCESS] with seventeen tests counted as passed. *)
Theorem failed_assertion_is_reported_ok FILE stack outcomes :
  head outcomes = Some false ->
  exists s rest,
    TestMain.main FILE stack (TestMain.start outcomes)
    = Some (EXIT_SUCCESS, s)
    /\ TestMain.g_tests_passed s = 17%Z
    /\ stdout (TestMain.process s)
       = (TestMain.banner +:+ "  create_default... "
            +:+ "    FAIL: " +:+ c_str FILE +:+ ":82: unexpected NULL" +:+ LF
            +:+ "OK" +:+ LF)
         +:+ rest.
Proof.
  intros Hfirst.
  destruct (main_runs FILE stack outcomes)
    as (p1 & s & E1 & E & _ & Hpassed & _ & _ & rest & Hrest).
  exists s, rest. split; [exact E|]. split; [exact Hpassed|].
  rewrite Hrest. f_equal.
  destruct outcomes as [|[|] outcomes]; try discriminate Hfirst.
  destruct (create_alloc_fails None
              (hello_clear_error (initial_world (false :: outcomes))))
    as (w' & Ecreate & _); [reflexivity | reflexivity |].
  unfold TestMain.test_create_default, pbind, call in E1.
  cbn [world] in E1. rewrite Ecreate in E1.
  cbn [TestMain.ASSERT_NOT_NULL printf stdout] in E1.
  injection E1 as <-. cbn [stdout].
  unfold TestMain.banner, LF. simpl. rewrite !app_assoc. reflexivity.
Qed.

Lemma failed_assertion_is_reported_ok_witness :
  exists s rest,
    TestMain.main "test_main.c" (fun _ => EmptyString)
      (TestMain.start [false])
    = Some (EXIT_SUCCESS, s)
    /\ TestMain.g_tests_passed s = 17%Z
    /\ stdout (TestMain.process s)
       = (TestMain.banner +:+ "  create_default... "
            +:+ "    FAIL: " +:+ c_str "test_main.c"
            +:+ ":82: unexpected NULL" +:+ LF
            +:+ "OK" +:+ LF)
         +:+ rest.
Proof.
  apply (failed_assertion_is_reported_ok "test_main.c" (fun _ => EmptyString)
           [false]).
  reflexivity.
Defined.

Ltac run_tests :=
  eexists; split; [vm_compute; reflexivity|];
  repeat split; vm_compute; reflexivity.

Ltac explore_tests H outcomes n :=
  lazymatch n with
  | O => run_tests
  | S ?k =>
      destruct outcomes as [|[|] outcomes];
      [ run_tests | explore_tests H outcomes k | discriminate H ]
  end.

(** X18 (the tests pass).  When the twenty-eight allocation requests of the
    test program - nine [create] calls of three requests each and one
    [set_name] - all succeed, no assertion fails: the program returns
    [EXIT_SUCCESS], the output is the transcript with "OK" after each of the
    seventeen tests, whatever the stack buffers hold at first; nothing is
    written to [stderr], no block is left allocated, the error channel is
    clear at the end, and the allocator has answered exactly those
    twenty-eight requests. *)
Theorem tests_pass FILE stack outcomes :
  allocs_ok 28 outcomes = true ->
  exists s,
    TestMain.main FILE stack (TestMain.start outcomes)
    = Some (EXIT_SUCCESS, s)
    /\ stdout (TestMain.process s) = TestMain.transcript
    /\ stderr (TestMain.process s) = EmptyString
    /\ heap (world (TestMain.process s)) = ∅
    /\ g_has_error (world (TestMain.process s)) = false
    /\ alloc_outcomes (world (TestMain.process s)) = skipn 28 outcomes.
Proof.
  intros H. explore_tests H outcomes 28.
Qed.

Lemma tests_pass_witness :
  exists s,
    TestMain.main "test_main.c" (fun _ => EmptyString) (TestMain.start [])
    = Some (EXIT_SUCCESS, s)
    /\ stdout (TestMain.process s) = TestMain.transcript
    /\ stderr (TestMain.process s) = EmptyString
    /\ heap (world (TestMain.process s)) = ∅
    /\ g_has_error (world (TestMain.process s)) = false
    /\ alloc_outcomes (world (TestMain.process s)) = skipn 28 [].
Proof.
  apply (tests_pass "test_main.c" (fun _ => EmptyString) []). reflexivity.
Defined.
